(** * SpotifytoUG: a shallow embedding of the playlist synchroniser

    The development follows the three source modules:
    - [Spotify_client]  (spotify_client.py): the paginated read of a playlist;
    - [Ug_client]       (ug_client.py): the browser automation of the target site;
    - [Syncer]          (syncer.py): the sequencing of the two.

    The outside world (the Spotify web API reached through spotipy, the
    browser driven through Playwright) is a family of oracles that see the
    whole history of the calls made so far, so every statement that
    quantifies over the oracles holds for every behaviour of the network and
    of the target site.

    Conventions.  Python's [Exception] instances are the type [exn]; the
    interrupts that derive from [BaseException] only (KeyboardInterrupt,
    CancelledError) are not values of the model, and the [SystemExit] of
    argparse appears only as a way in which [main] ends.  Calls to [logger]
    never change control flow and are left out.  Strings are
    [String.string], one character per code point below 256. *)

From Stdlib Require Import String Ascii List ZArith Lia Bool Arith.
Import ListNotations.

Set Implicit Arguments.

(** ** Python values *)

Inductive exn : Type :=
| Exception (cls msg : string).

Inductive result (A : Type) : Type :=
| Ret (a : A)
| Raise (e : exn).
Arguments Ret {A} a.
Arguments Raise {A} e.

Definition is_raise {A} (r : result A) : bool :=
  match r with Raise _ => true | Ret _ => false end.

(** Truth value of a [str]: the empty string is false. *)
Definition truthy (s : string) : bool :=
  match s with
  | EmptyString => false
  | String _ _ => true
  end.

(** Truth value of an [Optional[str]]. *)
Definition truthy_opt (o : option string) : bool :=
  match o with
  | Some s => truthy s
  | None => false
  end.

(** [str.isspace] on the code points below 256. *)
Definition isspace (c : ascii) : bool :=
  let n := nat_of_ascii c in
  ((9 <=? n) && (n <=? 13)) || ((28 <=? n) && (n <=? 32))
  || (n =? 133) || (n =? 160).

Fixpoint lstrip (s : string) : string :=
  match s with
  | EmptyString => EmptyString
  | String c rest => if isspace c then lstrip rest else s
  end.

Fixpoint rstrip (s : string) : string :=
  match s with
  | EmptyString => EmptyString
  | String c rest =>
      match rstrip rest with
      | EmptyString => if isspace c then EmptyString else String c EmptyString
      | rest' => String c rest'
      end
  end.

(** [s.strip()] *)
Definition strip (s : string) : string := lstrip (rstrip s).

(** [sep.join(parts)] *)
Definition join (sep : string) (parts : list string) : string :=
  String.concat sep parts.

(** [x in xs] for a list of [str] *)
Definition str_in (x : string) (xs : list string) : bool :=
  existsb (String.eqb x) xs.

(** ** Records returned by the Spotify web API (parsed JSON) *)

Definition urls := list (string * string).

Record ArtistObject := { artist_name : string }.
Record AlbumObject := { album_name : string }.

(** The object under [item['track']]: a track or, in a mixed playlist, a
    podcast episode; ['type'] tells them apart. *)
Record TrackObject := {
  track_type : string;
  track_name : string;
  track_artists : list ArtistObject;
  track_album : AlbumObject;
  track_id : string;
  track_external_urls : urls
}.

(** A playlist item; ['track'] is null for an entry that is no longer
    available. *)
Record Item := { item_track : option TrackObject }.

(** One page of a paginated listing with its continuation cursor. *)
Record Page := {
  items : list Item;
  next : option string
}.

Record PlaylistObject := {
  playlist_name : string;
  playlist_description : string;
  playlist_tracks_total : Z;
  playlist_owner_display_name : string;
  playlist_external_urls : urls
}.

(** ** The trace of a run

    Every request to the Spotify API, every call on the target-site client
    and every pause is recorded with its outcome, in the order in which they
    happen. *)

Inductive Event : Type :=
| EvPlaylist (playlist_id : string) (r : result PlaylistObject)
| EvPlaylistTracks (playlist_id : string) (r : result Page)
| EvNext (cursor : string) (r : result Page)
| EvStartBrowser (r : result unit)
| EvCloseBrowser (r : result unit)
| EvLogin (r : result bool)
| EvGetExistingPlaylists (r : result (list string))
| EvCreatePlaylist (playlist_name description : string) (r : result bool)
| EvSearchAndAddSong (song_name artist_name playlist_name : string)
                     (r : result bool)
| EvSleep (seconds : Z).

Definition Trace := list Event.

(** ** Two small monads

    [Comp S A]: state [S], exceptions, and the possibility of not
    returning ([None]); used where the source has an unbounded [while].
    [Act S A]: state and exceptions only; the browser operations all return
    or raise within their timeouts. *)

Definition Comp (S A : Type) : Type := S -> option (result A * S).

Definition ret {S A} (a : A) : Comp S A := fun s => Some (Ret a, s).

Definition raise {S A} (e : exn) : Comp S A := fun s => Some (Raise e, s).

Definition diverge {S A} : Comp S A := fun _ => None.

Definition bind {S A B} (m : Comp S A) (k : A -> Comp S B) : Comp S B :=
  fun s =>
    match m s with
    | Some (Ret a, s') => k a s'
    | Some (Raise e, s') => Some (Raise e, s')
    | None => None
    end.

(** [try: m  except Exception as e: h e] *)
Definition try_except {S A} (m : Comp S A) (h : exn -> Comp S A) : Comp S A :=
  fun s =>
    match m s with
    | Some (Ret a, s') => Some (Ret a, s')
    | Some (Raise e, s') => h e s'
    | None => None
    end.

Declare Scope comp_scope.
Delimit Scope comp_scope with comp.
Notation "x <- m ;; k" := (bind m (fun x => k))
  (at level 61, m at next level, right associativity) : comp_scope.
Notation "m ;; k" := (bind m (fun _ => k))
  (at level 61, right associativity) : comp_scope.

Definition Act (S A : Type) : Type := S -> result A * S.

Definition aret {S A} (a : A) : Act S A := fun s => (Ret a, s).

Definition araise {S A} (e : exn) : Act S A := fun s => (Raise e, s).

Definition abind {S A B} (m : Act S A) (k : A -> Act S B) : Act S B :=
  fun s =>
    match m s with
    | (Ret a, s') => k a s'
    | (Raise e, s') => (Raise e, s')
    end.

Definition atry_except {S A} (m : Act S A) (h : exn -> Act S A) : Act S A :=
  fun s =>
    match m s with
    | (Ret a, s') => (Ret a, s')
    | (Raise e, s') => h e s'
    end.

Declare Scope act_scope.
Delimit Scope act_scope with act.
Notation "x <- m ;; k" := (abind m (fun x => k))
  (at level 61, m at next level, right associativity) : act_scope.
Notation "m ;; k" := (abind m (fun _ => k))
  (at level 61, right associativity) : act_scope.

(** An [Act] is a [Comp] that always returns. *)
Definition always {S A} (m : Act S A) : Comp S A := fun s => Some (m s).

(** ** spotify_client.py *)

Module Spotify_client.

Local Open Scope string_scope.
Local Open Scope list_scope.
Local Open Scope comp_scope.

(** The spotipy library: the construction
    [spotipy.Spotify(auth_manager=SpotifyOAuth(...))], which sends nothing
    and may raise (as it does when a credential or the redirect URI is
    missing), and the requests of the client [self.sp].  An answer may
    depend on everything that happened before it. *)
Record Spotipy := {
  sp_oauth :
    Trace -> forall client_id client_secret redirect_uri : string, result unit;
  sp_playlist : Trace -> string -> result PlaylistObject;
  sp_playlist_tracks : Trace -> string -> result Page;
  sp_next : Trace -> string -> result Page
}.

(** The dictionaries built by the client. *)
Record TrackInfo := {
  name : string;
  artist : string;
  album : string;
  spotify_id : string;
  external_urls : urls
}.

Record PlaylistInfo := {
  info_name : string;
  info_description : string;
  info_total_tracks : Z;
  info_owner : string;
  info_external_urls : urls
}.

Section Client.

Variable sp : Spotipy.

(** [SpotifyClient.__init__]: the three values are kept and the spotipy
    client is built; no request is sent. *)
Definition init (client_id client_secret redirect_uri : string)
  : Comp Trace unit :=
  fun h => Some (sp_oauth sp h client_id client_secret redirect_uri, h).

(** [self.sp.playlist(playlist_id)] *)
Definition playlist (playlist_id : string) : Comp Trace PlaylistObject :=
  fun h =>
    let r := sp_playlist sp h playlist_id in
    Some (r, h ++ [EvPlaylist playlist_id r]).

(** [self.sp.playlist_tracks(playlist_id)] *)
Definition playlist_tracks (playlist_id : string) : Comp Trace Page :=
  fun h =>
    let r := sp_playlist_tracks sp h playlist_id in
    Some (r, h ++ [EvPlaylistTracks playlist_id r]).

(** [self.sp.next(results)], called only when [results['next']] is true:
    spotipy then fetches that URL. *)
Definition sp_next_page (cursor : string) : Comp Trace Page :=
  fun h =>
    let r := sp_next sp h cursor in
    Some (r, h ++ [EvNext cursor r]).

Definition track_info (t : TrackObject) : TrackInfo :=
  {| name := track_name t;
     artist := join ", " (map artist_name (track_artists t));
     album := album_name (track_album t);
     spotify_id := track_id t;
     external_urls := track_external_urls t |}.

(** [item['track'] and item['track']['type'] == 'track'] *)
Definition is_track (item : Item) : bool :=
  match item_track item with
  | Some t => String.eqb (track_type t) "track"
  | None => false
  end.

(** [for item in results['items']: if ...: tracks.append(track_info)] *)
Fixpoint for_items (its : list Item) (tracks : list TrackInfo)
  : list TrackInfo :=
  match its with
  | [] => tracks
  | item :: rest =>
      match item_track item with
      | Some t =>
          if String.eqb (track_type t) "track"
          then for_items rest (tracks ++ [track_info t])
          else for_items rest tracks
      | None => for_items rest tracks
      end
  end.

(** [while results: ...; results = self.sp.next(results) if results['next']
    else None].  One unit of fuel per iteration. *)
Fixpoint while_results (fuel : nat) (results : Page)
  (tracks : list TrackInfo) : Comp Trace (list TrackInfo) :=
  match fuel with
  | O => diverge
  | S fuel' =>
      let tracks := for_items (items results) tracks in
      match next results with
      | Some cursor =>
          if truthy cursor
          then results' <- sp_next_page cursor ;;
               while_results fuel' results' tracks
          else ret tracks
      | None => ret tracks
      end
  end.

Definition get_playlist_tracks (fuel : nat) (playlist_id : string)
  : Comp Trace (list TrackInfo) :=
  try_except
    (results <- playlist_tracks playlist_id ;;
     while_results fuel results [])
    (fun e => raise e).

Definition get_playlist_info (playlist_id : string)
  : Comp Trace PlaylistInfo :=
  try_except
    (pl <- playlist playlist_id ;;
     ret {| info_name := playlist_name pl;
            info_description := playlist_description pl;
            info_total_tracks := playlist_tracks_total pl;
            info_owner := playlist_owner_display_name pl;
            info_external_urls := playlist_external_urls pl |})
    (fun e => raise e).

End Client.

End Spotify_client.

(** ** ug_client.py *)

(** What the sequencer asks of the object bound by
    [async with UltimateGuitarClient(...) as ug_client]: a state of its own
    (the browser session and the site behind it, out of the sequencer's
    reach) and six coroutines on it.  [__aenter__] and [__aexit__] are those
    of the class: [start_browser] and [close_browser]. *)
Record UGClient (session : Type) := {
  ug_new : session -> session;
  ug_start_browser : Act session unit;
  ug_close_browser : Act session unit;
  ug_login : Act session bool;
  ug_get_existing_playlists : Act session (list string);
  ug_create_playlist : string -> string -> Act session bool;
  ug_search_and_add_song : string -> string -> string -> Act session bool
}.

Module Ug_client.

Local Open Scope string_scope.
Local Open Scope list_scope.
Local Open Scope act_scope.

(** An element handle returned by a query. *)
Definition Element := nat.

(** The Playwright operations the client uses. *)
Inductive Call : Type :=
| PlaywrightStart
| ChromiumLaunch (headless : bool)
| NewPage
| BrowserClose
| PlaywrightStop
| Goto (url : string)
| WaitForSelector (selector : string) (timeout : Z)
| Fill (selector value : string)
| Click (selector : string)
| WaitForTimeout (ms : Z)
| QuerySelector (selector : string)
| QuerySelectorAll (selector : string)
| ElementClick (el : Element)
| ElementFill (el : Element) (value : string)
| ElementTextContent (el : Element).

(** The browser and the site: each answer may depend on all earlier calls. *)
Record Playwright := {
  pw_do : list Call -> Call -> result unit;
  pw_query_selector : list Call -> string -> result (option Element);
  pw_query_selector_all : list Call -> string -> result (list Element);
  pw_text_content : list Call -> Element -> result (option string)
}.

(** The attributes of a client object that the methods test, and the calls
    made to the browser so far. *)
Record Client := {
  playwright : bool;   (* hasattr(self, 'playwright') *)
  browser : bool;      (* self.browser is not None *)
  page : bool;         (* self.page is not None *)
  calls : list Call
}.

Definition AttributeError : exn :=
  Exception "AttributeError" "'NoneType' object has no attribute".

Section Methods.

Variable pw : Playwright.
Variables (username password : string) (headless : bool).

Definition record (c : Call) (s : Client) : Client :=
  {| playwright := playwright s; browser := browser s; page := page s;
     calls := calls s ++ [c] |}.

Definition perform (c : Call) : Act Client unit :=
  fun s => (pw_do pw (calls s) c, record c s).

(** An attribute access on [self.page]. *)
Definition on_page {A} (m : Act Client A) : Act Client A :=
  fun s => if page s then m s else (Raise AttributeError, s).

Definition goto (url : string) : Act Client unit :=
  on_page (perform (Goto url)).
Definition wait_for_selector (selector : string) (timeout : Z)
  : Act Client unit :=
  on_page (perform (WaitForSelector selector timeout)).
Definition fill (selector value : string) : Act Client unit :=
  on_page (perform (Fill selector value)).
Definition click (selector : string) : Act Client unit :=
  on_page (perform (Click selector)).
Definition wait_for_timeout (ms : Z) : Act Client unit :=
  on_page (perform (WaitForTimeout ms)).
Definition query_selector (selector : string)
  : Act Client (option Element) :=
  on_page (fun s => (pw_query_selector pw (calls s) selector,
                     record (QuerySelector selector) s)).
Definition query_selector_all (selector : string)
  : Act Client (list Element) :=
  on_page (fun s => (pw_query_selector_all pw (calls s) selector,
                     record (QuerySelectorAll selector) s)).
Definition element_click (el : Element) : Act Client unit :=
  perform (ElementClick el).
Definition element_fill (el : Element) (value : string) : Act Client unit :=
  perform (ElementFill el value).
Definition text_content (el : Element) : Act Client (option string) :=
  fun s => (pw_text_content pw (calls s) el, record (ElementTextContent el) s).

(** [__init__]: a new object, in front of the same browser world. *)
Definition init (s : Client) : Client :=
  {| playwright := false; browser := false; page := false;
     calls := calls s |}.

Definition set_playwright : Act Client unit :=
  fun s => (Ret tt, {| playwright := true; browser := browser s;
                       page := page s; calls := calls s |}).
Definition set_browser : Act Client unit :=
  fun s => (Ret tt, {| playwright := playwright s; browser := true;
                       page := page s; calls := calls s |}).
Definition set_page : Act Client unit :=
  fun s => (Ret tt, {| playwright := playwright s; browser := browser s;
                       page := true; calls := calls s |}).

Definition start_browser : Act Client unit :=
  atry_except
    (perform PlaywrightStart ;; set_playwright ;;
     perform (ChromiumLaunch headless) ;; set_browser ;;
     perform NewPage ;; set_page)
    (fun e => araise e).

Definition close_browser : Act Client unit :=
  atry_except
    ((fun s => if browser s then perform BrowserClose s else (Ret tt, s)) ;;
     (fun s => if playwright s then perform PlaywrightStop s else (Ret tt, s)))
    (fun e => aret tt).

Definition login : Act Client bool :=
  atry_except
    (goto "https://www.ultimate-guitar.com/user/signin" ;;
     wait_for_selector "input[name='username']" 10000 ;;
     fill "input[name='username']" username ;;
     fill "input[name='password']" password ;;
     click "button[type='submit']" ;;
     atry_except
       (wait_for_selector ".js-header-user-menu" 10000 ;;
        aret true)
       (fun _ =>
          error_element <- query_selector ".error-message" ;;
          match error_element with
          | Some el => text_content el ;; aret tt
          | None => aret tt
          end ;;
          aret false))
    (fun e => aret false).

Definition create_playlist (playlist_name description : string)
  : Act Client bool :=
  atry_except
    (goto "https://www.ultimate-guitar.com/user/playlists" ;;
     create_button <- query_selector "a[href*='create']" ;;
     create_button <-
       match create_button with
       | None => query_selector ".btn-create-playlist"
       | Some _ => aret create_button
       end ;;
     match create_button with
     | Some el => element_click el
     | None => click ".fa-plus, .icon-plus, [data-action='create']"
     end ;;
     wait_for_selector "input[name='name'], input[placeholder*='name']"
                       10000 ;;
     fill "input[name='name'], input[placeholder*='name']" playlist_name ;;
     desc_field <-
       query_selector
         "textarea[name='description'], textarea[placeholder*='description']" ;;
     match desc_field with
     | Some el =>
         if truthy description then element_fill el description else aret tt
     | None => aret tt
     end ;;
     click "button[type='submit'], .btn-save, .btn-create" ;;
     wait_for_timeout 2000 ;;
     aret true)
    (fun e => aret false).

Definition search_and_add_song (song_name artist_name playlist_name : string)
  : Act Client bool :=
  atry_except
    (let search_query := strip (song_name ++ " " ++ artist_name)%string in
     goto ("https://www.ultimate-guitar.com/search.php?search_type=title&value="
             ++ search_query)%string ;;
     wait_for_selector ".js-search-results, .search-results" 10000 ;;
     first_result <-
       query_selector ".js-search-results .js-click-track, .search-results a" ;;
     match first_result with
     | Some first =>
         element_click first ;;
         wait_for_timeout 2000 ;;
         add_button <-
           query_selector
             ".js-add-to-playlist, .btn-add-playlist, [data-action*='playlist']" ;;
         match add_button with
         | Some add =>
             element_click add ;;
             wait_for_selector ".playlist-modal, .modal-playlist" 5000 ;;
             playlist_option <-
               query_selector
                 ("[data-playlist-name='" ++ playlist_name
                    ++ "'], .playlist-item:has-text('" ++ playlist_name
                    ++ "')")%string ;;
             match playlist_option with
             | Some target => element_click target ;; aret true
             | None => aret false
             end
         | None => aret false
         end
     | None => aret false
     end)
    (fun e => aret false).

(** [for element in playlist_elements: name = await element.text_content();
    if name: playlists.append(name.strip())] *)
Fixpoint for_elements (playlist_elements : list Element)
  (playlists : list string) : Act Client (list string) :=
  match playlist_elements with
  | [] => aret playlists
  | element :: rest =>
      name <- text_content element ;;
      match name with
      | Some text =>
          if truthy text
          then for_elements rest (playlists ++ [strip text])
          else for_elements rest playlists
      | None => for_elements rest playlists
      end
  end.

Definition get_existing_playlists : Act Client (list string) :=
  atry_except
    (goto "https://www.ultimate-guitar.com/user/playlists" ;;
     wait_for_selector ".playlist-item, .user-playlist" 10000 ;;
     playlist_elements <-
       query_selector_all ".playlist-name, .playlist-title" ;;
     for_elements playlist_elements [])
    (fun e => aret []).

(** The class, as the sequencer sees it. *)
Definition UltimateGuitarClient : UGClient Client :=
  {| ug_new := init;
     ug_start_browser := start_browser;
     ug_close_browser := close_browser;
     ug_login := login;
     ug_get_existing_playlists := get_existing_playlists;
     ug_create_playlist := create_playlist;
     ug_search_and_add_song := search_and_add_song |}.

End Methods.

End Ug_client.

(** ** syncer.py *)

Module Syncer.

Import Spotify_client.

Local Open Scope string_scope.
Local Open Scope list_scope.
Local Open Scope comp_scope.

Record Config := {
  spotify_client_id : string;
  spotify_client_secret : string;
  spotify_redirect_uri : string;
  spotify_playlist_id : string;
  ug_username : string;
  ug_password : string;
  headless_browser : bool
}.

(** The dictionary [preview_sync] returns first: [{}] or a playlist's
    information. *)
Inductive InfoDict : Type :=
| EmptyDict
| Info (playlist_info : PlaylistInfo).

(** [target_playlist_name or playlist_info['name']] *)
Definition or_name (target_playlist_name : option string) (name : string)
  : string :=
  match target_playlist_name with
  | Some s => if truthy s then s else name
  | None => name
  end.

Section Sync.

Context {session : Type}.

(** The state of a run: the trace, the state behind the client, and whether
    [self.spotify_client] is set. *)
Record World := {
  trace : Trace;
  client : session;
  spotify_client : bool
}.

(** [PlaylistSyncer.__init__]: [self.spotify_client = None]. *)
Definition new_syncer (w : World) : World :=
  {| trace := trace w; client := client w; spotify_client := false |}.

Variable sp : Spotipy.
Variable UltimateGuitarClient : string -> string -> bool -> UGClient session.
Variable config : Config.

(** A call into spotify_client.py; the requests record themselves. *)
Definition spotify {A} (m : Comp Trace A) : Comp World A :=
  fun w =>
    match m (trace w) with
    | Some (r, h) =>
        Some (r, {| trace := h; client := client w;
                    spotify_client := spotify_client w |})
    | None => None
    end.

(** [self._initialize_spotify_client()]: when [self.spotify_client] is not
    set, [SpotifyClient(...)] is built from the three values of the
    configuration; the attribute is assigned only if the constructor
    returns. *)
Definition initialize_spotify_client : Comp World unit :=
  fun w =>
    if negb (spotify_client w)
    then
      (spotify (Spotify_client.init sp (spotify_client_id config)
                  (spotify_client_secret config)
                  (spotify_redirect_uri config)) ;;
       fun w' =>
         ret tt {| trace := trace w'; client := client w';
                   spotify_client := true |}) w
    else ret tt w.

(** An awaited method of [ug_client], recorded with its outcome. *)
Definition call {A} (ev : result A -> Event) (m : Act session A)
  : Comp World A :=
  fun w =>
    let (r, s) := m (client w) in
    Some (r, {| trace := trace w ++ [ev r]; client := s;
                spotify_client := spotify_client w |}).

(** [await asyncio.sleep(seconds)] *)
Definition sleep (seconds : Z) : Comp World unit :=
  fun w =>
    Some (Ret tt, {| trace := trace w ++ [EvSleep seconds];
                     client := client w;
                     spotify_client := spotify_client w |}).

(** [async with ug as ug_client: body].  [__aenter__] awaits
    [start_browser]; [__aexit__] awaits [close_browser] and returns [None],
    so an exception of the body is raised again after the browser is
    closed. *)
Definition async_with {A} (ug : UGClient session) (body : Comp World A)
  : Comp World A :=
  (fun w => ret tt {| trace := trace w; client := ug_new ug (client w);
                      spotify_client := spotify_client w |}) ;;
  call EvStartBrowser (ug_start_browser ug) ;;
  fun w =>
    match body w with
    | Some (r, w') =>
        (call EvCloseBrowser (ug_close_browser ug) ;;
         fun w'' => Some (r, w'')) w'
    | None => None
    end.

(** One iteration of [for i, track in enumerate(tracks, 1)].  The handler
    sees the counters as they were when the exception was raised: both
    assignments come after the only call that can raise. *)
Definition attach (ug_client : UGClient session) (ug_playlist_name : string)
  (track : TrackInfo) (counters : nat * nat) : Comp World (nat * nat) :=
  let (successful_adds, failed_adds) := counters in
  try_except
    (success <-
       call (EvSearchAndAddSong (name track) (artist track) ug_playlist_name)
            (ug_search_and_add_song ug_client (name track) (artist track)
                                    ug_playlist_name) ;;
     let counters' :=
       if success : bool
       then (S successful_adds, failed_adds)
       else (successful_adds, S failed_adds) in
     sleep 2 ;;
     ret counters')
    (fun e => ret (successful_adds, S failed_adds)).

Fixpoint attach_loop (ug_client : UGClient session)
  (ug_playlist_name : string) (tracks : list TrackInfo)
  (counters : nat * nat) : Comp World (nat * nat) :=
  match tracks with
  | [] => ret counters
  | track :: rest =>
      counters' <- attach ug_client ug_playlist_name track counters ;;
      attach_loop ug_client ug_playlist_name rest counters'
  end.

(** What follows the two reads of the source: the block under
    [async with]. *)
Definition sync_tracks (playlist_info : PlaylistInfo)
  (tracks : list TrackInfo) (ug_playlist_name : string) : Comp World bool :=
  let ug_client :=
    UltimateGuitarClient (ug_username config) (ug_password config)
                         (headless_browser config) in
  (* the statements after the [if]/[else] on the existing playlists *)
  let add_tracks :=
    counters <- attach_loop ug_client ug_playlist_name tracks (0, 0) ;;
    ret (0 <? fst counters)%nat in
  async_with ug_client
    (logged_in <- call EvLogin (ug_login ug_client) ;;
     if negb logged_in then ret false
     else
       existing_playlists <-
         call EvGetExistingPlaylists (ug_get_existing_playlists ug_client) ;;
       if negb (str_in ug_playlist_name existing_playlists)
       then
         let description :=
           ("Synced from Spotify playlist: "
              ++ info_name playlist_info)%string in
         created <-
           call (EvCreatePlaylist ug_playlist_name description)
                (ug_create_playlist ug_client ug_playlist_name description) ;;
         if negb created then ret false else add_tracks
       else add_tracks).

Definition sync_playlist (fuel : nat) (target_playlist_name : option string)
  : Comp World bool :=
  try_except
    (initialize_spotify_client ;;
     playlist_info <-
       spotify (get_playlist_info sp (spotify_playlist_id config)) ;;
     tracks <-
       spotify (get_playlist_tracks sp fuel (spotify_playlist_id config)) ;;
     let ug_playlist_name :=
       or_name target_playlist_name (info_name playlist_info) in
     sync_tracks playlist_info tracks ug_playlist_name)
    (fun e => ret false).

Definition preview_sync (fuel : nat) : Comp World (InfoDict * list TrackInfo) :=
  try_except
    (initialize_spotify_client ;;
     playlist_info <-
       spotify (get_playlist_info sp (spotify_playlist_id config)) ;;
     tracks <-
       spotify (get_playlist_tracks sp fuel (spotify_playlist_id config)) ;;
     ret (Info playlist_info, tracks))
    (fun e => ret (EmptyDict, [])).

End Sync.

End Syncer.

(** * Vocabulary of the statements *)

Import Spotify_client.

Open Scope string_scope.
Open Scope list_scope.
Open Scope nat_scope.

(** ** The source listing

    [listing sp h p pages]: at history [h], with page [p] in hand, following
    the continuation cursors yields exactly [pages] (starting with [p]) and
    ends on a page without cursor. *)
Inductive listing (sp : Spotipy) : Trace -> Page -> list Page -> Prop :=
| listing_last h p :
    truthy_opt (next p) = false ->
    listing sp h p [p]
| listing_more h p cursor q rest :
    next p = Some cursor ->
    truthy cursor = true ->
    sp_next sp h cursor = Ret q ->
    listing sp (h ++ [EvNext cursor (Ret q)]) q rest ->
    listing sp h p (p :: rest).

(** The requests that walking [pages] sends after the first one. *)
Fixpoint cursor_events (pages : list Page) : list Event :=
  match pages with
  | p :: rest =>
      match next p, rest with
      | Some cursor, q :: _ => EvNext cursor (Ret q) :: cursor_events rest
      | _, _ => cursor_events rest
      end
  | [] => []
  end.

(** All items of the source, in source order. *)
Definition source_items (pages : list Page) : list Item :=
  concat (map items pages).

(** The objects of media type "track" among some items, in order. *)
Definition track_objects (its : list Item) : list TrackObject :=
  flat_map
    (fun item =>
       match item_track item with
       | Some t => if String.eqb (track_type t) "track" then [t] else []
       | None => []
       end)
    its.

(** ** What the browser answers

    [all_succeed pw h steps]: from history [h], each of [steps] in turn
    returns without raising. *)
Fixpoint all_succeed (pw : Ug_client.Playwright) (h : list Ug_client.Call)
  (steps : list Ug_client.Call) : bool :=
  match steps with
  | [] => true
  | c :: rest =>
      match Ug_client.pw_do pw h c with
      | Ret _ => all_succeed pw (h ++ [c]) rest
      | Raise _ => false
      end
  end.

(** [texts_read pw h els texts]: from history [h], reading the text of the
    elements [els] one after the other yields [texts]. *)
Inductive texts_read (pw : Ug_client.Playwright)
  : list Ug_client.Call -> list Ug_client.Element -> list (option string)
    -> Prop :=
| texts_read_nil h : texts_read pw h [] []
| texts_read_cons h el els text texts :
    Ug_client.pw_text_content pw h el = Ret text ->
    texts_read pw (h ++ [Ug_client.ElementTextContent el]) els texts ->
    texts_read pw h (el :: els) (text :: texts).

(** The texts that are true as Python values: neither [None] nor empty. *)
Definition true_texts (texts : list (option string)) : list string :=
  flat_map
    (fun text =>
       match text with
       | Some t => if truthy t then [t] else []
       | None => []
       end)
    texts.

Definition signin_url : string :=
  "https://www.ultimate-guitar.com/user/signin".
Definition playlists_url : string :=
  "https://www.ultimate-guitar.com/user/playlists".

(** The browser calls of a login that goes through. *)
Definition login_steps (username password : string) : list Ug_client.Call :=
  [Ug_client.Goto signin_url;
   Ug_client.WaitForSelector "input[name='username']" 10000;
   Ug_client.Fill "input[name='username']" username;
   Ug_client.Fill "input[name='password']" password;
   Ug_client.Click "button[type='submit']";
   Ug_client.WaitForSelector ".js-header-user-menu" 10000].

(** Opening the playlists page and waiting for its entries. *)
Definition open_playlists : list Ug_client.Call :=
  [Ug_client.Goto playlists_url;
   Ug_client.WaitForSelector ".playlist-item, .user-playlist" 10000].

Definition names_selector : string := ".playlist-name, .playlist-title".

(** ** Reading a trace *)

Definition is_spotify (ev : Event) : bool :=
  match ev with
  | EvPlaylist _ _ | EvPlaylistTracks _ _ | EvNext _ _ => true
  | _ => false
  end.

Definition is_attach (ev : Event) : bool :=
  match ev with
  | EvSearchAndAddSong _ _ _ _ => true
  | _ => false
  end.

Definition is_create (ev : Event) : bool :=
  match ev with
  | EvCreatePlaylist _ _ _ => true
  | _ => false
  end.

(** The arguments of the calls to [search_and_add_song], in call order. *)
Definition attach_calls (evs : list Event)
  : list (string * string * string) :=
  flat_map
    (fun ev =>
       match ev with
       | EvSearchAndAddSong song who pl _ => [(song, who, pl)]
       | _ => []
       end)
    evs.

(** The number of calls to [search_and_add_song] that returned [True]. *)
Definition successes (evs : list Event) : nat :=
  length (filter
            (fun ev =>
               match ev with
               | EvSearchAndAddSong _ _ _ (Ret true) => true
               | _ => false
               end)
            evs).

(** A call that raised. *)
Definition raised (ev : Event) : bool :=
  match ev with
  | EvPlaylist _ r | EvPlaylistTracks _ r | EvNext _ r => is_raise r
  | EvStartBrowser r | EvCloseBrowser r => is_raise r
  | EvLogin r | EvCreatePlaylist _ _ r => is_raise r
  | EvGetExistingPlaylists r => is_raise r
  | EvSearchAndAddSong _ _ _ r => is_raise r
  | EvSleep _ => false
  end.

(** An exception raised by a call other than [search_and_add_song]. *)
Definition raised_outside_loop (ev : Event) : bool :=
  match ev with
  | EvPlaylist _ r | EvPlaylistTracks _ r | EvNext _ r => is_raise r
  | EvStartBrowser r | EvCloseBrowser r => is_raise r
  | EvLogin r | EvCreatePlaylist _ _ r => is_raise r
  | EvGetExistingPlaylists r => is_raise r
  | EvSearchAndAddSong _ _ _ _ | EvSleep _ => false
  end.

(** The requests of a read: nothing but Spotify events, and an exception
    among them exactly when the read raises. *)
Definition spotify_events (evs : list Event) (raised : bool) : Prop :=
  forallb is_spotify evs = true
  /\ existsb raised_outside_loop evs = raised.

(** Every call to [search_and_add_song] is followed at once by a pause of
    two seconds. *)
Definition delay_after_every_attach (evs : list Event) : Prop :=
  forall before song who pl r after,
    evs = before ++ EvSearchAndAddSong song who pl r :: after ->
    exists after', after = EvSleep 2 :: after'.

(** The same for the calls that returned. *)
Definition delay_after_every_returned_attach (evs : list Event) : Prop :=
  forall before song who pl b after,
    evs = before ++ EvSearchAndAddSong song who pl (Ret b) :: after ->
    exists after', after = EvSleep 2 :: after'.

(** ** The runs of the sequencer *)

Definition succeeded (outs : list (result bool)) : nat :=
  length (filter (fun r => match r with Ret true => true | _ => false end)
                 outs).

Definition failed (outs : list (result bool)) : nat :=
  length (filter (fun r => match r with Ret true => false | _ => true end)
                 outs).

(** What one iteration of the attach loop leaves in the trace. *)
Definition iteration_events (pl : string) (track : TrackInfo)
  (r : result bool) : list Event :=
  EvSearchAndAddSong (name track) (artist track) pl r
  :: match r with
     | Ret _ => [EvSleep 2]
     | Raise _ => []
     end.

Fixpoint loop_events (pl : string) (tracks : list TrackInfo)
  (outs : list (result bool)) : list Event :=
  match tracks, outs with
  | track :: tracks', r :: outs' =>
      iteration_events pl track r ++ loop_events pl tracks' outs'
  | _, _ => []
  end.

(** [r] is an outcome the method can have in some state of the session. *)
Definition may_return {S A} (m : Act S A) (r : result A) : Prop :=
  exists s, fst (m s) = r.

Section Runs.

Context {session : Type}.
Variable ug : UGClient session.
Variables pl description : string.
Variable tracks : list TrackInfo.

Definition attempts (outs : list (result bool)) : Prop :=
  Forall2
    (fun track r =>
       may_return (ug_search_and_add_song ug (name track) (artist track) pl)
                  r)
    tracks outs.

(** The events and the result of the block under [async with]. *)
Inductive session_run : list Event -> result bool -> Prop :=
| run_login_raised e :
    session_run [EvLogin (Raise e)] (Raise e)
| run_login_failed :
    session_run [EvLogin (Ret false)] (Ret false)
| run_listing_raised e :
    session_run [EvLogin (Ret true); EvGetExistingPlaylists (Raise e)]
                (Raise e)
| run_create_raised names e :
    str_in pl names = false ->
    session_run [EvLogin (Ret true); EvGetExistingPlaylists (Ret names);
                 EvCreatePlaylist pl description (Raise e)]
                (Raise e)
| run_create_failed names :
    str_in pl names = false ->
    session_run [EvLogin (Ret true); EvGetExistingPlaylists (Ret names);
                 EvCreatePlaylist pl description (Ret false)]
                (Ret false)
| run_attached names outs :
    attempts outs ->
    session_run
      ([EvLogin (Ret true); EvGetExistingPlaylists (Ret names)]
         ++ (if str_in pl names then []
             else [EvCreatePlaylist pl description (Ret true)])
         ++ loop_events pl tracks outs)
      (Ret (0 <? succeeded outs)).

(** The events and the result of the whole [async with] statement. *)
Inductive with_run : list Event -> result bool -> Prop :=
| with_start_raised e :
    with_run [EvStartBrowser (Raise e)] (Raise e)
| with_closed body r rc :
    session_run body r ->
    may_return (ug_close_browser ug) rc ->
    with_run (EvStartBrowser (Ret tt) :: body ++ [EvCloseBrowser rc])
             (match rc with
              | Ret _ => r
              | Raise e => Raise e
              end).

End Runs.

(** The client object of a run, and the description given to a playlist
    it creates. *)
Definition the_client {session}
  (UltimateGuitarClient : string -> string -> bool -> UGClient session)
  (config : Syncer.Config) : UGClient session :=
  UltimateGuitarClient (Syncer.ug_username config)
                       (Syncer.ug_password config)
                       (Syncer.headless_browser config).

(** What [sync_playlist] returns when the body of its [try] ends with
    [r]. *)
Definition bool_of (r : result bool) : bool :=
  match r with
  | Ret b => b
  | Raise _ => false
  end.

Definition description_of (playlist_info : PlaylistInfo) : string :=
  ("Synced from Spotify playlist: " ++ info_name playlist_info)%string.

(** [self._initialize_spotify_client()] returns in [w]: the Spotify client
    is there already, or its construction does not raise. *)
Definition client_built {session} (sp : Spotipy) (config : Syncer.Config)
  (w : @Syncer.World session) : bool :=
  Syncer.spotify_client w
  || negb (is_raise (sp_oauth sp (Syncer.trace w)
                       (Syncer.spotify_client_id config)
                       (Syncer.spotify_client_secret config)
                       (Syncer.spotify_redirect_uri config))).

(** The same world with [self.spotify_client] set. *)
Definition built {session} (w : @Syncer.World session)
  : @Syncer.World session :=
  {| Syncer.trace := Syncer.trace w; Syncer.client := Syncer.client w;
     Syncer.spotify_client := true |}.

(** ** Sample worlds *)

Module Examples.

Import Syncer.

Local Open Scope string_scope.
Local Open Scope list_scope.

Definition song (title who : string) : Item :=
  {| item_track :=
       Some {| track_type := "track"; track_name := title;
               track_artists := [{| artist_name := who |}];
               track_album := {| album_name := "Greatest Hits" |};
               track_id := title; track_external_urls := [] |} |}.

Definition episode (title : string) : Item :=
  {| item_track :=
       Some {| track_type := "episode"; track_name := title;
               track_artists := [];
               track_album := {| album_name := "" |};
               track_id := title; track_external_urls := [] |} |}.

Definition info_of (title who : string) : TrackInfo :=
  {| name := title; artist := who; album := "Greatest Hits";
     spotify_id := title; external_urls := [] |}.

(** A listing in two pages: three tracks with a podcast episode between
    them. *)
Definition page1 : Page :=
  {| items := [song "Song A" "Artist X"; episode "Morning Talk";
               song "Song B" "Artist Y"];
     next := Some "https://api.spotify.com/v1/playlists/p/tracks?offset=3" |}.

Definition page2 : Page :=
  {| items := [song "Song C" "Artist Z"]; next := None |}.

Definition road_trip : PlaylistObject :=
  {| playlist_name := "Road Trip"; playlist_description := "";
     playlist_tracks_total := 4; playlist_owner_display_name := "me";
     playlist_external_urls := [] |}.

Definition road_trip_info : PlaylistInfo :=
  {| info_name := "Road Trip"; info_description := "";
     info_total_tracks := 4; info_owner := "me";
     info_external_urls := [] |}.

Definition not_found : exn := Exception "SpotifyException" "http status: 404".

Definition oauth_error : exn :=
  Exception "SpotifyOauthError"
    "No client_id, client_secret or redirect_uri. Pass it or set the SPOTIPY_ environment variable.".

(** The constructor of spotipy on a machine without SPOTIPY_ variables:
    each of the three values has to be given. *)
Definition oauth (h : Trace) (client_id client_secret redirect_uri : string)
  : result unit :=
  if truthy client_id && truthy client_secret && truthy redirect_uri
  then Ret tt else Raise oauth_error.

(** A playlist without metadata and without tracks. *)
Definition blank : PlaylistObject :=
  {| playlist_name := EmptyString; playlist_description := EmptyString;
     playlist_tracks_total := 0;
     playlist_owner_display_name := EmptyString;
     playlist_external_urls := [] |}.

Definition sp_blank : Spotipy :=
  {| sp_oauth := oauth;
     sp_playlist := fun _ _ => Ret blank;
     sp_playlist_tracks := fun _ _ => Ret {| items := []; next := None |};
     sp_next := fun _ _ => Raise not_found |}.

Definition sp_two_pages : Spotipy :=
  {| sp_oauth := oauth;
     sp_playlist := fun _ _ => Ret road_trip;
     sp_playlist_tracks := fun _ _ => Ret page1;
     sp_next := fun _ cursor =>
       if String.eqb cursor
            "https://api.spotify.com/v1/playlists/p/tracks?offset=3"
       then Ret page2 else Raise not_found |}.

(** The source cannot be reached. *)
Definition sp_down : Spotipy :=
  {| sp_oauth := oauth;
     sp_playlist := fun _ _ => Raise not_found;
     sp_playlist_tracks := fun _ _ => Raise not_found;
     sp_next := fun _ _ => Raise not_found |}.

Definition config0 : Config :=
  {| spotify_client_id := "id"; spotify_client_secret := "secret";
     spotify_redirect_uri := "http://localhost:8080/callback";
     spotify_playlist_id := "p";
     ug_username := "user"; ug_password := "pass";
     headless_browser := true |}.

(** The same configuration with [SPOTIFY_REDIRECT_URI] set to the empty
    string, which [Config.validate] does not look at. *)
Definition config_no_redirect : Config :=
  {| spotify_client_id := "id"; spotify_client_secret := "secret";
     spotify_redirect_uri := EmptyString;
     spotify_playlist_id := "p";
     ug_username := "user"; ug_password := "pass";
     headless_browser := true |}.

Definition timeout_error : exn :=
  Exception "TimeoutError" "Timeout 10000ms exceeded".

(** A site on which every action goes through, every query finds element 0
    and the playlists page shows two name elements: the first one empty,
    the second one reading " Rock ". *)
Definition pw_site : Ug_client.Playwright :=
  {| Ug_client.pw_do := fun _ _ => Ret tt;
     Ug_client.pw_query_selector := fun _ _ => Ret (Some 0);
     Ug_client.pw_query_selector_all := fun _ _ => Ret [1; 2];
     Ug_client.pw_text_content := fun _ el =>
       Ret (Some (if Nat.eqb el 1 then "" else " Rock ")) |}.

(** A site whose sign-in form never renders. *)
Definition pw_no_form : Ug_client.Playwright :=
  {| Ug_client.pw_do := fun _ c =>
       match c with
       | Ug_client.WaitForSelector _ _ => Raise timeout_error
       | _ => Ret tt
       end;
     Ug_client.pw_query_selector := fun _ _ => Ret None;
     Ug_client.pw_query_selector_all := fun _ _ => Ret [];
     Ug_client.pw_text_content := fun _ _ => Ret None |}.

(** A machine on which the browser cannot be started. *)
Definition pw_no_browser : Ug_client.Playwright :=
  {| Ug_client.pw_do := fun _ c =>
       match c with
       | Ug_client.PlaywrightStart =>
           Raise (Exception "Error" "Executable doesn't exist")
       | _ => Ret tt
       end;
     Ug_client.pw_query_selector := fun _ _ => Ret None;
     Ug_client.pw_query_selector_all := fun _ _ => Ret [];
     Ug_client.pw_text_content := fun _ _ => Ret None |}.

(** A client object whose browser has been started. *)
Definition started : Ug_client.Client :=
  {| Ug_client.playwright := true; Ug_client.browser := true;
     Ug_client.page := true; Ug_client.calls := [] |}.

(** A client object fresh from its constructor. *)
Definition fresh : Ug_client.Client :=
  {| Ug_client.playwright := false; Ug_client.browser := false;
     Ug_client.page := false; Ug_client.calls := [] |}.

Definition site_error : exn :=
  Exception "Error" "Target page, context or browser has been closed".

(** A stand-in for the client class, as a test would patch it in: every
    method returns at once, [search_and_add_song] as [attach] says. *)
Definition ug_mock (existing : list string) (attach : string -> result bool)
  : UGClient unit :=
  {| ug_new := fun s => s;
     ug_start_browser := aret tt;
     ug_close_browser := aret tt;
     ug_login := aret true;
     ug_get_existing_playlists := aret existing;
     ug_create_playlist := fun _ _ => aret true;
     ug_search_and_add_song := fun song _ _ s => (attach song, s) |}.

(** "Song A" is attached, "Song B" is not found, any other song makes the
    call raise. *)
Definition attach_script (song : string) : result bool :=
  if String.eqb song "Song A" then Ret true
  else if String.eqb song "Song B" then Ret false
  else Raise site_error.

Definition three_songs : list TrackInfo :=
  [info_of "Song A" "Artist X"; info_of "Song B" "Artist Y";
   info_of "Song C" "Artist Z"].

(** A new syncer, before anything has happened. *)
Definition start {session} (s : session) : World :=
  {| trace := []; client := s; spotify_client := false |}.

End Examples.

(** * The rest of the code *)

(** ** syncer.py: [get_spotify_playlist_info] *)

Module Syncer_info.

Local Open Scope comp_scope.

Section Info.

Context {session : Type}.
Variable sp : Spotipy.
Variable config : Syncer.Config.

Definition get_spotify_playlist_info
  : Comp (@Syncer.World session) Syncer.InfoDict :=
  try_except
    (Syncer.initialize_spotify_client sp config ;;
     playlist_info <-
       Syncer.spotify
         (get_playlist_info sp (Syncer.spotify_playlist_id config)) ;;
     ret (Syncer.Info playlist_info))
    (fun e => ret Syncer.EmptyDict).

End Info.

End Syncer_info.

(** ** More vocabulary *)

(** The request that ended a read of the track pages with exception [e]. *)
Definition failed_request (playlist_id : string) (e : exn) (ev : Event)
  : Prop :=
  ev = EvPlaylistTracks playlist_id (Raise e)
  \/ exists cursor, ev = EvNext cursor (Raise e).

(** A source whose every page has a further page. *)
Definition endless (sp : Spotipy) : Prop :=
  forall h cursor,
    exists q, sp_next sp h cursor = Ret q /\ truthy_opt (next q) = true.

Module More_examples.

Definition looping_page : Page :=
  {| items := [Examples.song "Song A" "Artist X"];
     next := Some "https://api.spotify.com/v1/playlists/p/tracks?offset=0" |}.

(** A service that keeps handing out the same page and cursor. *)
Definition sp_loop : Spotipy :=
  {| sp_oauth := Examples.oauth;
     sp_playlist := fun _ _ => Ret Examples.road_trip;
     sp_playlist_tracks := fun _ _ => Ret looping_page;
     sp_next := fun _ _ => Ret looping_page |}.

(** A service whose second page cannot be fetched. *)
Definition sp_broken_page : Spotipy :=
  {| sp_oauth := Examples.oauth;
     sp_playlist := fun _ _ => Ret Examples.road_trip;
     sp_playlist_tracks := fun _ _ => Ret Examples.page1;
     sp_next := fun _ _ => Raise Examples.not_found |}.

End More_examples.

(** ** More vocabulary: the browser *)

(** The call [c], made after history [h], raises. *)
Definition raises (pw : Ug_client.Playwright) (h : list Ug_client.Call)
  (c : Ug_client.Call) : bool :=
  match c with
  | Ug_client.QuerySelector sel =>
      is_raise (Ug_client.pw_query_selector pw h sel)
  | Ug_client.QuerySelectorAll sel =>
      is_raise (Ug_client.pw_query_selector_all pw h sel)
  | Ug_client.ElementTextContent el =>
      is_raise (Ug_client.pw_text_content pw h el)
  | _ => is_raise (Ug_client.pw_do pw h c)
  end.

(** None of the calls [cs], made one after the other from [h], raises. *)
Fixpoint none_raises (pw : Ug_client.Playwright) (h : list Ug_client.Call)
  (cs : list Ug_client.Call) : bool :=
  match cs with
  | [] => true
  | c :: rest => negb (raises pw h c) && none_raises pw (h ++ [c]) rest
  end.

(** [m] records the browser calls it makes, and returns only if none of
    them raised. *)
Definition returns_clean {A} (pw : Ug_client.Playwright)
  (m : Act Ug_client.Client A) : Prop :=
  forall s,
    exists new,
      Ug_client.calls (snd (m s)) = Ug_client.calls s ++ new
      /\ (is_raise (fst (m s)) = false ->
          none_raises pw (Ug_client.calls s) new = true).

(** The attributes of the client object are those of [s]. *)
Definition same_attributes (s s' : Ug_client.Client) : Prop :=
  Ug_client.playwright s' = Ug_client.playwright s
  /\ Ug_client.browser s' = Ug_client.browser s
  /\ Ug_client.page s' = Ug_client.page s.

(** The calls [close_browser] makes in state [s]. *)
Definition closing_calls (pw : Ug_client.Playwright) (s : Ug_client.Client)
  : list Ug_client.Call :=
  if Ug_client.browser s
  then Ug_client.BrowserClose
       :: (if is_raise (Ug_client.pw_do pw (Ug_client.calls s)
                          Ug_client.BrowserClose)
           then []
           else if Ug_client.playwright s then [Ug_client.PlaywrightStop]
                else [])
  else if Ug_client.playwright s then [Ug_client.PlaywrightStop] else [].

Definition is_element_fill (c : Ug_client.Call) : bool :=
  match c with
  | Ug_client.ElementFill _ _ => true
  | _ => false
  end.

Definition is_click (c : Ug_client.Call) : bool :=
  match c with
  | Ug_client.ElementClick _ | Ug_client.Click _ => true
  | _ => false
  end.

Definition search_url (song_name artist_name : string) : string :=
  "https://www.ultimate-guitar.com/search.php?search_type=title&value="
  ++ strip (song_name ++ " " ++ artist_name).

Definition results_selector : string :=
  ".js-search-results .js-click-track, .search-results a".
Definition add_selector : string :=
  ".js-add-to-playlist, .btn-add-playlist, [data-action*='playlist']".
Definition option_selector (playlist_name : string) : string :=
  "[data-playlist-name='" ++ playlist_name
  ++ "'], .playlist-item:has-text('" ++ playlist_name ++ "')".

(** The browser calls of an attach that goes through, [first], [add] and
    [target] being the elements the three queries found. *)
Definition attach_steps (song_name artist_name playlist_name : string)
  (first add target : Ug_client.Element) : list Ug_client.Call :=
  [Ug_client.Goto (search_url song_name artist_name);
   Ug_client.WaitForSelector ".js-search-results, .search-results" 10000;
   Ug_client.QuerySelector results_selector;
   Ug_client.ElementClick first;
   Ug_client.WaitForTimeout 2000;
   Ug_client.QuerySelector add_selector;
   Ug_client.ElementClick add;
   Ug_client.WaitForSelector ".playlist-modal, .modal-playlist" 5000;
   Ug_client.QuerySelector (option_selector playlist_name);
   Ug_client.ElementClick target].

(** A string without leading or trailing whitespace. *)
Definition stripped (s : string) : Prop := strip s = s.

Module Browser_examples.

(** A machine on which the browser starts but no page can be opened. *)
Definition pw_no_page : Ug_client.Playwright :=
  {| Ug_client.pw_do := fun _ c =>
       match c with
       | Ug_client.NewPage => Raise Examples.site_error
       | _ => Ret tt
       end;
     Ug_client.pw_query_selector := fun _ _ => Ret None;
     Ug_client.pw_query_selector_all := fun _ _ => Ret [];
     Ug_client.pw_text_content := fun _ _ => Ret None |}.

(** A browser that refuses to close. *)
Definition pw_stuck : Ug_client.Playwright :=
  {| Ug_client.pw_do := fun _ c =>
       match c with
       | Ug_client.BrowserClose => Raise Examples.site_error
       | _ => Ret tt
       end;
     Ug_client.pw_query_selector := fun _ _ => Ret None;
     Ug_client.pw_query_selector_all := fun _ _ => Ret [];
     Ug_client.pw_text_content := fun _ _ => Ret None |}.

(** The site of [Examples.pw_site], except that the search page for
    "Song B" cannot be opened. *)
Definition pw_one_search_fails : Ug_client.Playwright :=
  {| Ug_client.pw_do := fun _ c =>
       match c with
       | Ug_client.Goto url =>
           if String.eqb url (search_url "Song B" "Artist Y")
           then Raise Examples.timeout_error else Ret tt
       | _ => Ret tt
       end;
     Ug_client.pw_query_selector := fun _ _ => Ret (Some 0);
     Ug_client.pw_query_selector_all := fun _ _ => Ret [1; 2];
     Ug_client.pw_text_content := fun _ el =>
       Ret (Some (if Nat.eqb el 1 then EmptyString else " Rock ")) |}.

End Browser_examples.

(** ** More vocabulary: the runs *)

Definition is_lifecycle (ev : Event) : bool :=
  match ev with
  | EvStartBrowser _ | EvCloseBrowser _ => true
  | _ => false
  end.

(** A Spotify request that raised. *)
Definition failed_read (ev : Event) : bool := is_spotify ev && raised ev.

(** An exception was raised inside a run of the sequencer from [w] to [w']:
    by the construction of the Spotify client, by a call recorded in the
    trace, or by a call of the browser. *)
Definition exception_inside (sp : Spotipy) (pw : Ug_client.Playwright)
  (config : Syncer.Config) (w w' : @Syncer.World Ug_client.Client) : Prop :=
  client_built sp config w = false
  \/ (exists evs,
        Syncer.trace w' = Syncer.trace w ++ evs /\ existsb raised evs = true)
  \/ (exists new,
        Ug_client.calls (Syncer.client w')
          = Ug_client.calls (Syncer.client w) ++ new
        /\ none_raises pw (Ug_client.calls (Syncer.client w)) new = false).

(** The time spent in the pauses of a trace. *)
Fixpoint total_pause (evs : list Event) : Z :=
  match evs with
  | [] => 0
  | EvSleep seconds :: rest => seconds + total_pause rest
  | _ :: rest => total_pause rest
  end.

(** The number of calls that returned. *)
Definition returned (outs : list (result bool)) : nat :=
  length (filter (fun r => negb (is_raise r)) outs).

(** The outcome recorded with a call on the client is one the method of
    [ug] with these arguments can have. *)
Definition justified {session} (ug : UGClient session) (ev : Event) : Prop :=
  match ev with
  | EvStartBrowser r => may_return (ug_start_browser ug) r
  | EvCloseBrowser r => may_return (ug_close_browser ug) r
  | EvLogin r => may_return (ug_login ug) r
  | EvGetExistingPlaylists r => may_return (ug_get_existing_playlists ug) r
  | EvCreatePlaylist n d r => may_return (ug_create_playlist ug n d) r
  | EvSearchAndAddSong song who pl r =>
      may_return (ug_search_and_add_song ug song who pl) r
  | _ => True
  end.

(** [m] only adds to the trace, and only events justified by [ug]. *)
Definition extends_trace {session A} (ug : UGClient session)
  (m : Comp (@Syncer.World session) A) : Prop :=
  forall w r w',
    m w = Some (r, w') ->
    exists evs,
      Syncer.trace w' = Syncer.trace w ++ evs /\ Forall (justified ug) evs.

(** ** config.py *)

Module Config_py.

Local Open Scope string_scope.
Local Open Scope list_scope.

(** [os.getenv] once [load_dotenv] has run. *)
Definition Environ := string -> option string.

(** [str.lower] on the code points below 256: the letters A-Z and the
    capital letters of Latin-1 (192-222 but the multiplication sign, 215)
    move up by 32. *)
Definition lower_char (c : ascii) : ascii :=
  let n := nat_of_ascii c in
  if (((65 <=? n) && (n <=? 90))
      || ((192 <=? n) && (n <=? 222) && negb (n =? 215)))%nat
  then ascii_of_nat (n + 32)
  else c.

Fixpoint lower (s : string) : string :=
  match s with
  | EmptyString => EmptyString
  | String c rest => String (lower_char c) (lower rest)
  end.

(** The attributes of a [Config] that the program reads.  [log_level] is
    used by [setup_logging] only, which is a collaborator here. *)
Record Config := {
  spotify_client_id : option string;
  spotify_client_secret : option string;
  spotify_redirect_uri : string;
  spotify_playlist_id : option string;
  ug_username : option string;
  ug_password : option string;
  headless_browser : bool
}.

(** [os.getenv(key, default)] *)
Definition getenv_default (env : Environ) (key default : string) : string :=
  match env key with
  | Some v => v
  | None => default
  end.

(** [Config.__init__], after the environment has been loaded. *)
Definition init (env : Environ) : Config :=
  {| spotify_client_id := env "SPOTIFY_CLIENT_ID";
     spotify_client_secret := env "SPOTIFY_CLIENT_SECRET";
     spotify_redirect_uri :=
       getenv_default env "SPOTIFY_REDIRECT_URI"
                      "http://localhost:8080/callback";
     spotify_playlist_id := env "SPOTIFY_PLAYLIST_ID";
     ug_username := env "UG_USERNAME";
     ug_password := env "UG_PASSWORD";
     headless_browser :=
       String.eqb (lower (getenv_default env "HEADLESS_BROWSER" "True"))
                  "true" |}.

Definition required_fields (c : Config) : list (string * option string) :=
  [("SPOTIFY_CLIENT_ID", spotify_client_id c);
   ("SPOTIFY_CLIENT_SECRET", spotify_client_secret c);
   ("SPOTIFY_PLAYLIST_ID", spotify_playlist_id c);
   ("UG_USERNAME", ug_username c);
   ("UG_PASSWORD", ug_password c)].

(** [for field_name, field_value in required_fields: if not field_value:
    missing_fields.append(field_name)] *)
Fixpoint for_fields (fields : list (string * option string))
  (missing_fields : list string) : list string :=
  match fields with
  | [] => missing_fields
  | (field_name, field_value) :: rest =>
      if negb (truthy_opt field_value)
      then for_fields rest (missing_fields ++ [field_name])
      else for_fields rest missing_fields
  end.

Definition validate (c : Config) : bool :=
  match for_fields (required_fields c) [] with
  | [] => true
  | _ :: _ => false
  end.

(** [config.headless_browser = value] *)
Definition set_headless_browser (value : bool) (c : Config) : Config :=
  {| spotify_client_id := spotify_client_id c;
     spotify_client_secret := spotify_client_secret c;
     spotify_redirect_uri := spotify_redirect_uri c;
     spotify_playlist_id := spotify_playlist_id c;
     ug_username := ug_username c;
     ug_password := ug_password c;
     headless_browser := value |}.

End Config_py.

(** ** main.py *)

Module Main.

Local Open Scope string_scope.
Local Open Scope list_scope.
Local Open Scope comp_scope.

(** The parsed command line. *)
Record Args := {
  sync : bool;
  preview : bool;
  name : option string;
  config : option string;
  headless : bool;
  visible : bool
}.

(** What [parser.parse_args()] makes of the command line: the namespace, or
    the [SystemExit(status)] with which argparse ends the program (status 2
    for a command line it refuses, 0 after [--help]). *)
Inductive Parsed : Type :=
| Namespace (args : Args)
| ParseExit (status : Z).

(** How a call of [main()] ends: it returns [1], [0] or [None], or the
    [SystemExit] of [parse_args], raised before the [try], leaves it. *)
Inductive Ending : Type :=
| Returned (value : option Z)
| SystemExit (status : Z).

(** The value of an attribute the sequencer reads as a [str]; [validate]
    has made sure of the required ones before a sequencer exists. *)
Definition str_of (v : option string) : string :=
  match v with
  | Some s => s
  | None => ""
  end.

(** The configuration as [PlaylistSyncer] reads it. *)
Definition syncer_config (c : Config_py.Config) : Syncer.Config :=
  {| Syncer.spotify_client_id := str_of (Config_py.spotify_client_id c);
     Syncer.spotify_client_secret :=
       str_of (Config_py.spotify_client_secret c);
     Syncer.spotify_redirect_uri := Config_py.spotify_redirect_uri c;
     Syncer.spotify_playlist_id := str_of (Config_py.spotify_playlist_id c);
     Syncer.ug_username := str_of (Config_py.ug_username c);
     Syncer.ug_password := str_of (Config_py.ug_password c);
     Syncer.headless_browser := Config_py.headless_browser c |}.

(** [if playlist_info and tracks] *)
Definition shown (playlist_info : Syncer.InfoDict) (tracks : list TrackInfo)
  : bool :=
  match playlist_info, tracks with
  | Syncer.Info _, _ :: _ => true
  | _, _ => false
  end.

Section Program.

Context {session : Type}.
Variable sp : Spotipy.
Variable UltimateGuitarClient : string -> string -> bool -> UGClient session.

(** The environment [Config(env_file=...)] finds once the file is loaded,
    and what [config.setup_logging()] does in it. *)
Variable environ : option string -> Config_py.Environ.
Variable setup_logging : Config_py.Environ -> result unit.

(** The configuration after the command line has overridden it. *)
Definition load (args : Args) : Config_py.Config :=
  let config := Config_py.init (environ (config args)) in
  if headless args then Config_py.set_headless_browser true config
  else if visible args then Config_py.set_headless_browser false config
  else config.

(** [main()], [parse_args] being what [parser.parse_args()] does with the
    command line of the process.  The syncer is a new object; the texts
    printed by [print_help] and by the preview are not part of the model. *)
Definition main (fuel : nat) (parse_args : Parsed)
  : Comp (@Syncer.World session) Ending :=
  match parse_args with
  | ParseExit status => ret (SystemExit status)
  | Namespace args =>
      if negb (sync args) && negb (preview args)
      then ret (Returned (Some 1%Z))
      else
        try_except
          (let config := load args in
           (fun w => Some (setup_logging (environ (Main.config args)), w)) ;;
           if negb (Config_py.validate config) then ret (Returned (Some 1%Z))
           else
             (fun w => ret tt (Syncer.new_syncer w)) ;;
             if preview args then
               shown_pair <-
                 Syncer.preview_sync sp (syncer_config config) fuel ;;
               if shown (fst shown_pair) (snd shown_pair)
               then ret (Returned None)
               else ret (Returned (Some 1%Z))
             else if sync args then
               success <-
                 Syncer.sync_playlist sp UltimateGuitarClient
                   (syncer_config config) fuel (name args) ;;
               if success : bool then ret (Returned (Some 0%Z))
               else ret (Returned (Some 1%Z))
             else ret (Returned None))
          (fun e => ret (Returned (Some 1%Z)))
  end.

End Program.

(** The exit status of [sys.exit(asyncio.run(main()))]: that of the
    [SystemExit] of argparse, or the value [main] returned, [None] being
    success. *)
Definition exit_code (ending : Ending) : Z :=
  match ending with
  | Returned (Some n) => n
  | Returned None => 0
  | SystemExit status => status
  end.

End Main.

(** ** More vocabulary: configuration *)

(** The sixteen spellings of "true". *)
Definition spells_true (v : string) : Prop :=
  exists a b c d,
    v = String a (String b (String c (String d EmptyString)))
    /\ (a = "t" \/ a = "T")%char /\ (b = "r" \/ b = "R")%char
    /\ (c = "u" \/ c = "U")%char /\ (d = "e" \/ d = "E")%char.

Module Config_examples.

(** The environment of the repository's test: the five required values and
    nothing else. *)
Definition test_env : Config_py.Environ :=
  fun key =>
    if String.eqb key "SPOTIFY_CLIENT_ID" then Some "test_id"
    else if String.eqb key "SPOTIFY_CLIENT_SECRET" then Some "test_secret"
    else if String.eqb key "SPOTIFY_PLAYLIST_ID" then Some "p"
    else if String.eqb key "UG_USERNAME" then Some "test_user"
    else if String.eqb key "UG_PASSWORD" then Some "test_pass"
    else None.

Definition empty_env : Config_py.Environ := fun _ => None.

Definition sync_args : Main.Args :=
  {| Main.sync := true; Main.preview := false; Main.name := None;
     Main.config := None; Main.headless := false; Main.visible := false |}.


Definition no_args : Main.Args :=
  {| Main.sync := false; Main.preview := false; Main.name := Some "x";
     Main.config := None; Main.headless := true; Main.visible := false |}.


End Config_examples.

(** ** config.py: [Config.__str__] *)

Module Config_str.

Local Open Scope string_scope.

Definition nl : string := String (ascii_of_nat 10) EmptyString.

(** [str(value)] of an [Optional[str]] and of a [bool] inside an f-string. *)
Definition fmt_opt (v : option string) : string :=
  match v with
  | Some s => s
  | None => "None"
  end.

Definition fmt_bool (b : bool) : string := if b then "True" else "False".

(** ['***' if value else 'Not set'] *)
Definition masked (v : option string) : string :=
  if truthy_opt v then "***" else "Not set".

(** [Config.__str__]; [log_level] is the attribute of that name. *)
Definition to_str (log_level : string) (c : Config_py.Config) : string :=
  "Configuration:" ++ nl
  ++ "  Spotify Playlist ID: " ++ fmt_opt (Config_py.spotify_playlist_id c)
  ++ nl
  ++ "  UG Username: " ++ fmt_opt (Config_py.ug_username c) ++ nl
  ++ "  Headless Browser: " ++ fmt_bool (Config_py.headless_browser c) ++ nl
  ++ "  Log Level: " ++ log_level ++ nl
  ++ "  Spotify Client ID: " ++ masked (Config_py.spotify_client_id c) ++ nl
  ++ "  Spotify Client Secret: "
  ++ masked (Config_py.spotify_client_secret c) ++ nl
  ++ "  UG Password: " ++ masked (Config_py.ug_password c).

End Config_str.

(** Two configurations that differ at most in the values of their
    secrets. *)
Definition same_but_secrets (c1 c2 : Config_py.Config) : Prop :=
  Config_py.spotify_playlist_id c1 = Config_py.spotify_playlist_id c2
  /\ Config_py.ug_username c1 = Config_py.ug_username c2
  /\ Config_py.headless_browser c1 = Config_py.headless_browser c2
  /\ truthy_opt (Config_py.spotify_client_id c1)
     = truthy_opt (Config_py.spotify_client_id c2)
  /\ truthy_opt (Config_py.spotify_client_secret c1)
     = truthy_opt (Config_py.spotify_client_secret c2)
  /\ truthy_opt (Config_py.ug_password c1)
     = truthy_opt (Config_py.ug_password c2).

(** ** More vocabulary: one browser per run *)

(** The calls that start or end a browser session. *)
Definition is_session_call (c : Ug_client.Call) : bool :=
  match c with
  | Ug_client.PlaywrightStart | Ug_client.ChromiumLaunch _
  | Ug_client.NewPage | Ug_client.BrowserClose | Ug_client.PlaywrightStop =>
      true
  | _ => false
  end.

(** [m] works on the page only: it adds calls, none of which starts or ends
    a session, and leaves the attributes of the client alone. *)
Definition page_work {A} (m : Act Ug_client.Client A) : Prop :=
  forall s,
    exists new,
      Ug_client.calls (snd (m s)) = Ug_client.calls s ++ new
      /\ existsb is_session_call new = false
      /\ same_attributes s (snd (m s)).

(** The same for a part of the sequencer. *)
Definition browser_work {A}
  (m : Comp (@Syncer.World Ug_client.Client) A) : Prop :=
  forall w r w',
    m w = Some (r, w') ->
    exists new,
      Ug_client.calls (Syncer.client w')
        = Ug_client.calls (Syncer.client w) ++ new
      /\ existsb is_session_call new = false
      /\ same_attributes (Syncer.client w) (Syncer.client w').

(** The calls of a start that got as far as it could. *)
Definition start_calls (headless : bool) (started : list Ug_client.Call)
  : Prop :=
  started = []
  \/ started = [Ug_client.PlaywrightStart]
  \/ started = [Ug_client.PlaywrightStart; Ug_client.ChromiumLaunch headless]
  \/ started = [Ug_client.PlaywrightStart; Ug_client.ChromiumLaunch headless;
                Ug_client.NewPage].

Definition close_calls (closed : list Ug_client.Call) : Prop :=
  closed = []
  \/ closed = [Ug_client.BrowserClose]
  \/ closed = [Ug_client.BrowserClose; Ug_client.PlaywrightStop].


(** The calls made between [before] and [after] are those of one session at
    most: a start that went as far as it could, with the browser launched
    in mode [headless]; then, only after a complete start, work on the page
    and the calls that close the session. *)
Definition one_browser (headless : bool)
  (before after : list Ug_client.Call) : Prop :=
  exists started middle closed,
    after = before ++ started ++ middle ++ closed
    /\ start_calls headless started
    /\ existsb is_session_call middle = false
    /\ close_calls closed
    /\ (middle <> [] \/ closed <> [] ->
        started = [Ug_client.PlaywrightStart;
                   Ug_client.ChromiumLaunch headless; Ug_client.NewPage]
        /\ closed <> []).

(** * Theorems *)

(** ** The two monads *)

Lemma try_except_ret_never_raises {S A} (m : Comp S A) (a : exn -> A) s e s' :
  try_except m (fun x => ret (a x)) s <> Some (Raise e, s').
Proof.
  unfold try_except, ret.
  destruct (m s) as [[[v|x] t]|]; congruence.
Qed.

Lemma try_except_reraise {S A} (m : Comp S A) s :
  try_except m (fun e => raise e) s = m s.
Proof.
  unfold try_except, raise.
  destruct (m s) as [[[v|x] t]|]; reflexivity.
Qed.

Lemma atry_except_ret_returns {S A} (m : Act S A) (a : exn -> A) s :
  exists v, fst (atry_except m (fun x => aret (a x)) s) = Ret v.
Proof.
  unfold atry_except, aret.
  destruct (m s) as [[v|x] t]; simpl; eauto.
Qed.

(** ** spotify_client.py *)

Section SpotifyFacts.

Variable sp : Spotipy.

Lemma for_items_spec its : forall tracks,
  for_items its tracks = tracks ++ map track_info (track_objects its).
Proof.
  induction its as [|item rest IH]; intros tracks; simpl.
  - now rewrite app_nil_r.
  - destruct (item_track item) as [t|]; simpl.
    + destruct (String.eqb (track_type t) "track"); simpl.
      * rewrite IH, <- app_assoc. reflexivity.
      * apply IH.
    + apply IH.
Qed.

Lemma track_objects_app xs ys :
  track_objects (xs ++ ys) = track_objects xs ++ track_objects ys.
Proof. unfold track_objects. apply flat_map_app. Qed.

Lemma while_results_spec h p pages :
  listing sp h p pages ->
  forall fuel tracks,
    length pages <= fuel ->
    while_results sp fuel p tracks h
    = Some (Ret (tracks ++ map track_info (track_objects (source_items pages))),
            h ++ cursor_events pages).
Proof.
  induction 1 as [h p Hlast | h p cursor q rest Hnext Htruthy Hfetch Hrest IH];
    intros fuel tracks Hfuel.
  - destruct fuel as [|fuel]; [simpl in Hfuel; lia|].
    simpl. rewrite for_items_spec.
    unfold source_items. simpl. rewrite !app_nil_r.
    destruct (next p) as [c|]; simpl in *;
      rewrite ?Hlast; unfold ret; rewrite app_nil_r; reflexivity.
  - destruct fuel as [|fuel]; [simpl in Hfuel; lia|].
    simpl in Hfuel.
    assert (Hrest' : exists q' rest', rest = q' :: rest' /\ q' = q).
    { inversion Hrest; subst; eauto. }
    destruct Hrest' as (q' & rest' & -> & ->).
    cbn [while_results]. rewrite Hnext, Htruthy.
    unfold bind, sp_next_page. rewrite Hfetch.
    rewrite IH by lia.
    change (source_items (p :: q :: rest'))
      with (items p ++ source_items (q :: rest')).
    replace (cursor_events (p :: q :: rest'))
      with (EvNext cursor (Ret q) :: cursor_events (q :: rest'))
      by (simpl; rewrite Hnext; reflexivity).
    rewrite for_items_spec, track_objects_app, map_app, <- !app_assoc.
    reflexivity.
Qed.

Lemma get_playlist_tracks_spec h playlist_id first pages fuel :
  sp_playlist_tracks sp h playlist_id = Ret first ->
  listing sp (h ++ [EvPlaylistTracks playlist_id (Ret first)]) first pages ->
  length pages <= fuel ->
  get_playlist_tracks sp fuel playlist_id h
  = Some (Ret (map track_info (track_objects (source_items pages))),
          h ++ EvPlaylistTracks playlist_id (Ret first) :: cursor_events pages).
Proof.
  intros Hfirst Hlist Hfuel.
  unfold get_playlist_tracks. rewrite try_except_reraise.
  unfold bind, playlist_tracks. rewrite Hfirst.
  rewrite (while_results_spec Hlist) by assumption.
  rewrite <- app_assoc. reflexivity.
Qed.

Lemma spotify_events_app evs1 evs2 raised :
  spotify_events evs1 false -> spotify_events evs2 raised ->
  spotify_events (evs1 ++ evs2) raised.
Proof.
  intros [Hs1 Hr1] [Hs2 Hr2]. split.
  - rewrite forallb_app, Hs1, Hs2. reflexivity.
  - rewrite existsb_app, Hr1, Hr2. reflexivity.
Qed.

Lemma while_results_events fuel : forall p tracks h r h',
  while_results sp fuel p tracks h = Some (r, h') ->
  exists evs, h' = h ++ evs /\ spotify_events evs (is_raise r).
Proof.
  induction fuel as [|fuel IH]; intros p tracks h r h'; simpl;
    [discriminate|].
  assert (Hdone : ret (S:=Trace) (for_items (items p) tracks) h
                  = Some (r, h') ->
                  exists evs, h' = h ++ evs
                              /\ spotify_events evs (is_raise r)).
  { unfold ret. intros [= <- <-]. exists []. rewrite app_nil_r.
    repeat split. }
  destruct (next p) as [cursor|]; [|exact Hdone].
  destruct (truthy cursor); [|exact Hdone].
  unfold bind, sp_next_page.
  destruct (sp_next sp h cursor) as [q|e] eqn:Hfetch.
  - intros Hrest. apply IH in Hrest. destruct Hrest as (evs & -> & Hevs).
    exists (EvNext cursor (Ret q) :: evs). rewrite <- app_assoc.
    split; [reflexivity|].
    apply (@spotify_events_app [EvNext cursor (Ret q)] evs);
      [repeat split|exact Hevs].
  - intros [= <- <-]. exists [EvNext cursor (Raise e)]. repeat split.
Qed.

Lemma get_playlist_tracks_events fuel playlist_id h r h' :
  get_playlist_tracks sp fuel playlist_id h = Some (r, h') ->
  exists evs, h' = h ++ evs /\ spotify_events evs (is_raise r).
Proof.
  unfold get_playlist_tracks. rewrite try_except_reraise.
  unfold bind, playlist_tracks.
  destruct (sp_playlist_tracks sp h playlist_id) as [first|e] eqn:Hfirst.
  - intros Hrest. apply while_results_events in Hrest.
    destruct Hrest as (evs & -> & Hevs).
    exists (EvPlaylistTracks playlist_id (Ret first) :: evs).
    rewrite <- app_assoc. split; [reflexivity|].
    apply (@spotify_events_app [EvPlaylistTracks playlist_id (Ret first)] evs);
      [repeat split|exact Hevs].
  - intros [= <- <-]. exists [EvPlaylistTracks playlist_id (Raise e)].
    repeat split.
Qed.

Lemma get_playlist_info_events playlist_id h :
  exists r,
    get_playlist_info sp playlist_id h
    = Some (r, h ++ [EvPlaylist playlist_id (sp_playlist sp h playlist_id)])
    /\ is_raise r = is_raise (sp_playlist sp h playlist_id).
Proof.
  unfold get_playlist_info. rewrite try_except_reraise.
  unfold bind, playlist, ret.
  destruct (sp_playlist sp h playlist_id) as [pl|e]; eexists; split;
    reflexivity.
Qed.

End SpotifyFacts.

Lemma track_objects_length its :
  length (track_objects its) = length (filter is_track its).
Proof.
  induction its as [|item rest IH]; simpl; [reflexivity|].
  unfold is_track at 1.
  destruct (item_track item) as [t|]; simpl; [|exact IH].
  destruct (String.eqb (track_type t) "track"); simpl; now rewrite ?IH.
Qed.

Lemma track_objects_in its t :
  In t (track_objects its) <->
  exists item, In item its /\ item_track item = Some t
               /\ track_type t = "track"%string.
Proof.
  unfold track_objects. rewrite in_flat_map. split.
  - intros (item & Hin & Ht). exists item. split; [exact Hin|].
    destruct (item_track item) as [t'|]; [|contradiction].
    destruct (String.eqb_spec (track_type t') "track"); [|contradiction].
    destruct Ht as [->|[]]. split; [reflexivity|assumption].
  - intros (item & Hin & Ht & Htype). exists item. split; [exact Hin|].
    rewrite Ht, Htype. simpl. now left.
Qed.

(** ** syncer.py: the construction of the Spotify client *)

Section ClientFacts.

Context {session : Type}.
Variable sp : Spotipy.
Variable UltimateGuitarClient : string -> string -> bool -> UGClient session.
Variable config : Syncer.Config.

Lemma initialize_spotify_client_built (w : @Syncer.World session) :
  client_built sp config w = true ->
  Syncer.initialize_spotify_client sp config w = Some (Ret tt, built w).
Proof.
  unfold client_built, Syncer.initialize_spotify_client, built, bind, ret,
    Syncer.spotify, Spotify_client.init.
  destruct w as [h s [|]]; simpl; [reflexivity|].
  destruct (sp_oauth sp h _ _ _) as [[]|e]; simpl;
    [reflexivity|discriminate].
Qed.

Lemma initialize_spotify_client_failed (w : @Syncer.World session) :
  client_built sp config w = false ->
  exists e,
    sp_oauth sp (Syncer.trace w) (Syncer.spotify_client_id config)
      (Syncer.spotify_client_secret config)
      (Syncer.spotify_redirect_uri config) = Raise e
    /\ Syncer.spotify_client w = false
    /\ Syncer.initialize_spotify_client sp config w = Some (Raise e, w).
Proof.
  unfold client_built, Syncer.initialize_spotify_client, bind, ret,
    Syncer.spotify, Spotify_client.init.
  destruct w as [h s [|]]; simpl; [discriminate|].
  destruct (sp_oauth sp h _ _ _) as [[]|e]; simpl; [discriminate|].
  intros _. exists e. repeat split.
Qed.

Lemma preview_sync_built fuel (w : @Syncer.World session) :
  client_built sp config w = true ->
  Syncer.preview_sync sp config fuel w
  = try_except
      (bind (Syncer.spotify
               (get_playlist_info sp (Syncer.spotify_playlist_id config)))
         (fun playlist_info =>
            bind (Syncer.spotify
                    (get_playlist_tracks sp fuel
                       (Syncer.spotify_playlist_id config)))
              (fun tracks => ret (Syncer.Info playlist_info, tracks))))
      (fun _ => ret (Syncer.EmptyDict, []))
      (built w).
Proof.
  intros Hbuilt. unfold Syncer.preview_sync, try_except. unfold bind at 1.
  rewrite initialize_spotify_client_built by exact Hbuilt. reflexivity.
Qed.

Lemma preview_sync_not_built fuel (w : @Syncer.World session) :
  client_built sp config w = false ->
  Syncer.preview_sync sp config fuel w
  = Some (Ret (Syncer.EmptyDict, []), w).
Proof.
  intros Hbuilt.
  destruct (initialize_spotify_client_failed _ Hbuilt) as (e & _ & _ & Hinit).
  unfold Syncer.preview_sync, try_except. unfold bind at 1.
  rewrite Hinit. reflexivity.
Qed.

Lemma sync_playlist_built fuel target (w : @Syncer.World session) :
  client_built sp config w = true ->
  Syncer.sync_playlist sp UltimateGuitarClient config fuel target w
  = try_except
      (bind (Syncer.spotify
               (get_playlist_info sp (Syncer.spotify_playlist_id config)))
         (fun playlist_info =>
            bind (Syncer.spotify
                    (get_playlist_tracks sp fuel
                       (Syncer.spotify_playlist_id config)))
              (fun tracks =>
                 Syncer.sync_tracks UltimateGuitarClient config playlist_info
                   tracks
                   (Syncer.or_name target (info_name playlist_info)))))
      (fun _ => ret false)
      (built w).
Proof.
  intros Hbuilt. unfold Syncer.sync_playlist, try_except. unfold bind at 1.
  rewrite initialize_spotify_client_built by exact Hbuilt. reflexivity.
Qed.

Lemma sync_playlist_not_built fuel target (w : @Syncer.World session) :
  client_built sp config w = false ->
  Syncer.sync_playlist sp UltimateGuitarClient config fuel target w
  = Some (Ret false, w).
Proof.
  intros Hbuilt.
  destruct (initialize_spotify_client_failed _ Hbuilt) as (e & _ & _ & Hinit).
  unfold Syncer.sync_playlist, try_except. unfold bind at 1.
  rewrite Hinit. reflexivity.
Qed.

End ClientFacts.

(** C3.  Whatever the number of pages of the source listing, with fuel for
    each page [get_playlist_tracks] sends one request per page, following
    the cursors to the end, and returns the track items of all pages
    concatenated in source order; once the Spotify client is built,
    [preview_sync] returns this same list next to the playlist
    information. *)
Theorem preview_returns_all_pages_in_order
  (session : Type) (sp : Spotipy) (config : Syncer.Config)
  (w : @Syncer.World session) (fuel : nat)
  (info : PlaylistInfo) (h1 : Trace) (first : Page) (pages : list Page) :
  client_built sp config w = true ->
  get_playlist_info sp (Syncer.spotify_playlist_id config) (Syncer.trace w)
    = Some (Ret info, h1) ->
  sp_playlist_tracks sp h1 (Syncer.spotify_playlist_id config) = Ret first ->
  listing sp
    (h1 ++ [EvPlaylistTracks (Syncer.spotify_playlist_id config) (Ret first)])
    first pages ->
  length pages <= fuel ->
  get_playlist_tracks sp fuel (Syncer.spotify_playlist_id config) h1
    = Some (Ret (map track_info (track_objects (source_items pages))),
            h1 ++ EvPlaylistTracks (Syncer.spotify_playlist_id config)
                    (Ret first) :: cursor_events pages)
  /\ Syncer.preview_sync sp config fuel w
     = Some (Ret (Syncer.Info info,
                  map track_info (track_objects (source_items pages))),
             {| Syncer.trace :=
                  h1 ++ EvPlaylistTracks (Syncer.spotify_playlist_id config)
                          (Ret first) :: cursor_events pages;
                Syncer.client := Syncer.client w;
                Syncer.spotify_client := true |}).
Proof.
  intros Hbuilt Hinfo Hfirst Hlist Hfuel.
  pose proof (get_playlist_tracks_spec _ _ Hfirst Hlist Hfuel) as Htracks.
  split; [exact Htracks|].
  rewrite preview_sync_built by exact Hbuilt.
  unfold try_except, bind, Syncer.spotify, built.
  cbn [Syncer.trace Syncer.client Syncer.spotify_client].
  rewrite Hinfo. cbn [Syncer.trace Syncer.client Syncer.spotify_client].
  rewrite Htracks. reflexivity.
Qed.

Lemma preview_returns_all_pages_in_order_witness :
  Syncer.preview_sync Examples.sp_two_pages Examples.config0 2
    (Examples.start tt)
  = Some (Ret (Syncer.Info Examples.road_trip_info,
               [Examples.info_of "Song A" "Artist X";
                Examples.info_of "Song B" "Artist Y";
                Examples.info_of "Song C" "Artist Z"]),
          {| Syncer.trace :=
               [EvPlaylist "p" (Ret Examples.road_trip);
                EvPlaylistTracks "p" (Ret Examples.page1);
                EvNext "https://api.spotify.com/v1/playlists/p/tracks?offset=3"
                       (Ret Examples.page2)];
             Syncer.client := tt;
             Syncer.spotify_client := true |}).
Proof.
  refine (proj2 (@preview_returns_all_pages_in_order unit
                   Examples.sp_two_pages Examples.config0 (Examples.start tt)
                   2 Examples.road_trip_info
                   [EvPlaylist "p" (Ret Examples.road_trip)]
                   Examples.page1 [Examples.page1; Examples.page2]
                   eq_refl eq_refl eq_refl _ _)).
  - eapply listing_more; [reflexivity|reflexivity|reflexivity|].
    apply listing_last. reflexivity.
  - simpl. lia.
Defined.

(** C7.  In the list [get_playlist_tracks] returns, every item of the
    listing whose media type is "track" is present and nothing else is: an
    item of another media type (a podcast episode) or without object is left
    out, so the result has as many entries as the listing has track
    items. *)
Theorem get_playlist_tracks_keeps_tracks_only
  (sp : Spotipy) (h : Trace) (playlist_id : string) (first : Page)
  (pages : list Page) (fuel : nat) :
  sp_playlist_tracks sp h playlist_id = Ret first ->
  listing sp (h ++ [EvPlaylistTracks playlist_id (Ret first)]) first pages ->
  length pages <= fuel ->
  exists tracks h',
    get_playlist_tracks sp fuel playlist_id h = Some (Ret tracks, h')
    /\ length tracks = length (filter is_track (source_items pages))
    /\ (forall item t,
          In item (source_items pages) -> item_track item = Some t ->
          track_type t = "track"%string -> In (track_info t) tracks)
    /\ (forall info,
          In info tracks ->
          exists item t,
            In item (source_items pages) /\ item_track item = Some t
            /\ track_type t = "track"%string /\ info = track_info t)
    /\ (forall before item after,
          source_items pages = before ++ item :: after ->
          is_track item = false ->
          tracks = map track_info (track_objects (before ++ after))).
Proof.
  intros Hfirst Hlist Hfuel.
  eexists. eexists. split.
  { exact (get_playlist_tracks_spec _ _ Hfirst Hlist Hfuel). }
  split; [|split; [|split]].
  - rewrite length_map. apply track_objects_length.
  - intros item t Hin Ht Htype. apply in_map.
    apply track_objects_in. eauto.
  - intros info Hin. apply in_map_iff in Hin.
    destruct Hin as (t & <- & Hin).
    apply track_objects_in in Hin. destruct Hin as (item & Hin & Ht & Htype).
    exists item, t. auto.
  - intros before item after Hsplit Hnot. rewrite Hsplit.
    rewrite !track_objects_app. do 2 f_equal.
    change (item :: after) with ([item] ++ after).
    rewrite track_objects_app. simpl.
    unfold is_track in Hnot.
    destruct (item_track item) as [t|]; [rewrite Hnot|]; reflexivity.
Qed.

Lemma get_playlist_tracks_keeps_tracks_only_witness :
  exists h',
    get_playlist_tracks Examples.sp_two_pages 2 "p" []
    = Some (Ret [Examples.info_of "Song A" "Artist X";
                 Examples.info_of "Song B" "Artist Y";
                 Examples.info_of "Song C" "Artist Z"], h').
Proof.
  destruct (@get_playlist_tracks_keeps_tracks_only Examples.sp_two_pages []
              "p" Examples.page1 [Examples.page1; Examples.page2] 2)
    as (tracks & h' & Hrun & Hlen & _ & _ & Hskip).
  - reflexivity.
  - eapply listing_more; [reflexivity|reflexivity|reflexivity|].
    apply listing_last. reflexivity.
  - simpl. lia.
  - exists h'. rewrite Hrun.
    rewrite (Hskip [Examples.song "Song A" "Artist X"]
                   (Examples.episode "Morning Talk")
                   [Examples.song "Song B" "Artist Y";
                    Examples.song "Song C" "Artist Z"]
                   eq_refl eq_refl).
    reflexivity.
Defined.

(** C10, as stated, fails: a preview of a playlist without metadata and
    without tracks does not return what a failed preview returns; its
    dictionary is not empty. *)
Lemma preview_sync_shows_a_failure :
  ~ (forall (session : Type) (sp : Spotipy) (config : Syncer.Config)
            (fuel : nat) (w w' : @Syncer.World session)
            (value : Syncer.InfoDict * list TrackInfo),
       sp_playlist sp (Syncer.trace w) (Syncer.spotify_playlist_id config)
         = Ret Examples.blank ->
       Syncer.preview_sync sp config fuel w = Some (Ret value, w') ->
       snd value = [] ->
       value = (Syncer.EmptyDict, [])).
Proof.
  intros claim.
  specialize (claim unit Examples.sp_blank Examples.config0 2
                    (Examples.start tt) _ _ eq_refl eq_refl eq_refl).
  discriminate claim.
Qed.

(** C10, amended.  [preview_sync] never raises: when building the Spotify
    client, reading the playlist information or reading the track list
    raises, whatever the exception, it returns the empty dictionary with
    the empty list.  When the reads return it gives the playlist's
    information, never the empty dictionary, so its caller can tell a failed
    preview from the preview of a playlist without metadata or tracks. *)
Theorem preview_sync_never_raises
  (session : Type) (sp : Spotipy) (config : Syncer.Config) (fuel : nat)
  (w : @Syncer.World session) :
  (forall e w', Syncer.preview_sync sp config fuel w <> Some (Raise e, w'))
  /\ (client_built sp config w = false ->
      Syncer.preview_sync sp config fuel w
      = Some (Ret (Syncer.EmptyDict, []), w))
  /\ (forall e h,
        client_built sp config w = true ->
        get_playlist_info sp (Syncer.spotify_playlist_id config)
          (Syncer.trace w) = Some (Raise e, h) ->
        Syncer.preview_sync sp config fuel w
        = Some (Ret (Syncer.EmptyDict, []),
                {| Syncer.trace := h; Syncer.client := Syncer.client w;
                   Syncer.spotify_client := true |}))
  /\ (forall info h1 e h2,
        client_built sp config w = true ->
        get_playlist_info sp (Syncer.spotify_playlist_id config)
          (Syncer.trace w) = Some (Ret info, h1) ->
        get_playlist_tracks sp fuel (Syncer.spotify_playlist_id config) h1
          = Some (Raise e, h2) ->
        Syncer.preview_sync sp config fuel w
        = Some (Ret (Syncer.EmptyDict, []),
                {| Syncer.trace := h2; Syncer.client := Syncer.client w;
                   Syncer.spotify_client := true |}))
  /\ (forall info h1 tracks h2,
        client_built sp config w = true ->
        get_playlist_info sp (Syncer.spotify_playlist_id config)
          (Syncer.trace w) = Some (Ret info, h1) ->
        get_playlist_tracks sp fuel (Syncer.spotify_playlist_id config) h1
          = Some (Ret tracks, h2) ->
        Syncer.preview_sync sp config fuel w
        = Some (Ret (Syncer.Info info, tracks),
                {| Syncer.trace := h2; Syncer.client := Syncer.client w;
                   Syncer.spotify_client := true |})
        /\ Syncer.Info info <> Syncer.EmptyDict).
Proof.
  split; [|split; [|split; [|split]]].
  - intros e w'. unfold Syncer.preview_sync.
    apply (try_except_ret_never_raises _
             (fun _ => (Syncer.EmptyDict, @nil TrackInfo))).
  - apply preview_sync_not_built.
  - intros e h Hbuilt Hinfo.
    rewrite preview_sync_built by exact Hbuilt.
    unfold try_except, bind, Syncer.spotify, built.
    cbn [Syncer.trace Syncer.client Syncer.spotify_client].
    rewrite Hinfo. reflexivity.
  - intros info h1 e h2 Hbuilt Hinfo Htracks.
    rewrite preview_sync_built by exact Hbuilt.
    unfold try_except, bind, Syncer.spotify, built.
    cbn [Syncer.trace Syncer.client Syncer.spotify_client].
    rewrite Hinfo. cbn [Syncer.trace Syncer.client Syncer.spotify_client].
    rewrite Htracks. reflexivity.
  - intros info h1 tracks h2 Hbuilt Hinfo Htracks.
    split; [|discriminate].
    rewrite preview_sync_built by exact Hbuilt.
    unfold try_except, bind, Syncer.spotify, built.
    cbn [Syncer.trace Syncer.client Syncer.spotify_client].
    rewrite Hinfo. cbn [Syncer.trace Syncer.client Syncer.spotify_client].
    rewrite Htracks. reflexivity.
Qed.

Lemma preview_sync_never_raises_witness :
  Syncer.preview_sync Examples.sp_down Examples.config0 5 (Examples.start tt)
  = Some (Ret (Syncer.EmptyDict, []),
          {| Syncer.trace := [EvPlaylist "p" (Raise Examples.not_found)];
             Syncer.client := tt; Syncer.spotify_client := true |})
  /\ Syncer.preview_sync Examples.sp_two_pages Examples.config_no_redirect 5
       (Examples.start tt)
     = Some (Ret (Syncer.EmptyDict, []), Examples.start tt).
Proof.
  split.
  - apply (proj1 (proj2 (proj2 (@preview_sync_never_raises unit
                                  Examples.sp_down Examples.config0 5
                                  (Examples.start tt))))
             Examples.not_found); reflexivity.
  - apply (proj1 (proj2 (@preview_sync_never_raises unit
                           Examples.sp_two_pages Examples.config_no_redirect
                           5 (Examples.start tt)))).
    reflexivity.
Defined.

(** ** ug_client.py *)

Section UgFacts.

Import Ug_client.

Variable pw : Playwright.

Ltac run :=
  unfold atry_except, abind, aret, goto, wait_for_selector, fill, click,
    wait_for_timeout, query_selector, query_selector_all, element_click,
    element_fill, text_content, on_page, perform; simpl.

Lemma for_elements_spec els : forall h texts playlists s,
  calls s = h ->
  texts_read pw h els texts ->
  fst (for_elements pw els playlists s)
  = Ret (playlists ++ map strip (true_texts texts)).
Proof.
  induction els as [|el els IH]; intros h texts playlists s Hs Hread;
    inversion Hread; subst; simpl.
  - now rewrite app_nil_r.
  - unfold abind, text_content.
    match goal with H : pw_text_content _ _ _ = _ |- _ => rewrite H end.
    destruct text as [t|]; simpl.
    + destruct (truthy t); simpl.
      * erewrite IH; [|reflexivity|eassumption].
        now rewrite <- app_assoc.
      * erewrite IH; [|reflexivity|eassumption]. reflexivity.
    + erewrite IH; [|reflexivity|eassumption]. reflexivity.
Qed.

Lemma get_existing_playlists_returns s :
  exists names, fst (get_existing_playlists pw s) = Ret names.
Proof.
  apply (atry_except_ret_returns _ (fun _ => @nil string)).
Qed.

Lemma login_spec username password s :
  fst (login pw username password s)
  = Ret (page s && all_succeed pw (calls s) (login_steps username password)).
Proof.
  destruct s as [pl br [|] h]; unfold login, login_steps, signin_url; run;
    [|reflexivity].
  repeat match goal with
         | |- context [match pw_do ?p ?h ?c with _ => _ end] =>
             destruct (pw_do p h c) as [[]|?]; simpl;
             rewrite <- ?app_assoc; simpl; try reflexivity
         end.
  all: repeat match goal with
         | |- context [match pw_query_selector ?p ?h ?c with _ => _ end] =>
             destruct (pw_query_selector p h c) as [[?|]|?]; simpl;
             try reflexivity
         | |- context [match pw_text_content ?p ?h ?c with _ => _ end] =>
             destruct (pw_text_content p h c); simpl; try reflexivity
         end.
Qed.

Lemma search_and_add_song_returns song who pl s :
  exists b, fst (search_and_add_song pw song who pl s) = Ret b.
Proof. apply (atry_except_ret_returns _ (fun _ => false)). Qed.

Lemma close_browser_returns s :
  fst (close_browser pw s) = Ret tt.
Proof.
  destruct (atry_except_ret_returns
              ((fun s0 => if browser s0 then perform pw BrowserClose s0
                          else (Ret tt, s0)) ;;
               (fun s0 => if playwright s0 then perform pw PlaywrightStop s0
                          else (Ret tt, s0)))%act
              (fun _ => tt) s) as [[] H].
  exact H.
Qed.

Lemma get_existing_playlists_spec s els texts :
  page s = true ->
  all_succeed pw (calls s) open_playlists = true ->
  pw_query_selector_all pw (calls s ++ open_playlists) names_selector
    = Ret els ->
  texts_read pw
    (calls s ++ open_playlists ++ [QuerySelectorAll names_selector])
    els texts ->
  fst (get_existing_playlists pw s) = Ret (map strip (true_texts texts)).
Proof.
  destruct s as [pl br pg h]. simpl. intros -> Hopen Hquery Hread.
  unfold open_playlists, playlists_url, names_selector in *.
  simpl in Hopen.
  unfold get_existing_playlists. run.
  destruct (pw_do pw h _) as [[]|?]; [|discriminate]. simpl.
  destruct (pw_do pw _ _) as [[]|?]; [|discriminate]. simpl.
  rewrite <- app_assoc. simpl. rewrite Hquery.
  match goal with
  | |- context [for_elements pw els [] ?st] =>
      pose proof (@for_elements_spec els _ texts [] st eq_refl) as Hfor;
      simpl in Hfor; rewrite <- !app_assoc in Hfor; simpl in Hfor;
      specialize (Hfor Hread);
      destruct (for_elements pw els [] st) as [r st']
  end.
  simpl in Hfor. subst r. reflexivity.
Qed.

Lemma get_existing_playlists_not_opened s :
  page s && all_succeed pw (calls s) open_playlists = false ->
  fst (get_existing_playlists pw s) = Ret [].
Proof.
  destruct s as [pl br [|] h]; unfold get_existing_playlists, open_playlists,
    playlists_url; run; [|reflexivity].
  destruct (pw_do pw h _) as [[]|?]; simpl; [|reflexivity].
  destruct (pw_do pw _ _) as [[]|?]; simpl; [discriminate|reflexivity].
Qed.

End UgFacts.

(** C8, as stated, fails: a name element without text is passed over
    instead of contributing its (empty) trimmed text. *)
Lemma get_existing_playlists_drops_empty_names :
  ~ (forall pw s els texts,
       Ug_client.page s = true ->
       all_succeed pw (Ug_client.calls s) open_playlists = true ->
       Ug_client.pw_query_selector_all pw
         (Ug_client.calls s ++ open_playlists) names_selector = Ret els ->
       texts_read pw
         (Ug_client.calls s ++ open_playlists
            ++ [Ug_client.QuerySelectorAll names_selector])
         els (map Some texts) ->
       fst (Ug_client.get_existing_playlists pw s) = Ret (map strip texts)).
Proof.
  intros claim.
  specialize (claim Examples.pw_site Examples.started [1; 2]
                    [""; " Rock "]%string eq_refl eq_refl eq_refl).
  assert (Hread : texts_read Examples.pw_site
            (Ug_client.calls Examples.started ++ open_playlists
               ++ [Ug_client.QuerySelectorAll names_selector])
            [1; 2] (map Some [""; " Rock "]%string)).
  { repeat (econstructor; try reflexivity). }
  specialize (claim Hread). vm_compute in claim. discriminate claim.
Qed.

(** C8, amended.  [get_existing_playlists] never signals an error; it
    returns the empty list when the playlists page cannot be opened or the
    wait for its entries times out, and when no name element is found; when
    name elements are found and read, it returns, in page order, the
    trimmed text of every name element whose text is not empty. *)
Theorem get_existing_playlists_names
  (pw : Ug_client.Playwright) (s : Ug_client.Client) :
  (exists names, fst (Ug_client.get_existing_playlists pw s) = Ret names)
  /\ (Ug_client.page s
      && all_succeed pw (Ug_client.calls s) open_playlists = false ->
      fst (Ug_client.get_existing_playlists pw s) = Ret [])
  /\ (Ug_client.page s = true ->
      all_succeed pw (Ug_client.calls s) open_playlists = true ->
      Ug_client.pw_query_selector_all pw
        (Ug_client.calls s ++ open_playlists) names_selector = Ret [] ->
      fst (Ug_client.get_existing_playlists pw s) = Ret [])
  /\ (forall els texts,
        Ug_client.page s = true ->
        all_succeed pw (Ug_client.calls s) open_playlists = true ->
        Ug_client.pw_query_selector_all pw
          (Ug_client.calls s ++ open_playlists) names_selector = Ret els ->
        texts_read pw
          (Ug_client.calls s ++ open_playlists
             ++ [Ug_client.QuerySelectorAll names_selector])
          els texts ->
        fst (Ug_client.get_existing_playlists pw s)
        = Ret (map strip (true_texts texts))).
Proof.
  split; [apply get_existing_playlists_returns|].
  split; [apply get_existing_playlists_not_opened|].
  split.
  - intros Hpage Hopen Hquery.
    apply (@get_existing_playlists_spec pw s [] [] Hpage Hopen Hquery).
    constructor.
  - intros els texts. apply get_existing_playlists_spec.
Qed.

Lemma get_existing_playlists_names_witness :
  fst (Ug_client.get_existing_playlists Examples.pw_site Examples.started)
  = Ret ["Rock"%string]
  /\ fst (Ug_client.get_existing_playlists Examples.pw_no_form
            Examples.started) = Ret [].
Proof.
  split.
  - apply (proj2 (proj2 (proj2 (get_existing_playlists_names
                                  Examples.pw_site Examples.started)))
             [1; 2] [Some ""; Some " Rock "]%string);
      try reflexivity.
    repeat (econstructor; try reflexivity).
  - apply (proj1 (proj2 (get_existing_playlists_names
                           Examples.pw_no_form Examples.started))).
    reflexivity.
Defined.

(** ** syncer.py *)

Section SyncerFacts.

Import Syncer.

Context {session : Type}.
Variable ug : UGClient session.

Lemma succeeded_failed outs : succeeded outs + failed outs = length outs.
Proof.
  unfold succeeded, failed.
  induction outs as [|[[|]|e] outs IH]; simpl; lia.
Qed.

Lemma attach_spec pl track counters (w : World) :
  attach ug pl track counters w
  = let r := fst (ug_search_and_add_song ug (name track) (artist track) pl
                    (client w)) in
    Some (Ret (match r with
               | Ret true => (S (fst counters), snd counters)
               | _ => (fst counters, S (snd counters))
               end),
          {| trace := trace w ++ iteration_events pl track r;
             client := snd (ug_search_and_add_song ug (name track)
                              (artist track) pl (client w));
             spotify_client := spotify_client w |}).
Proof.
  destruct counters as [s f].
  unfold attach, try_except, bind, call, sleep, ret, iteration_events.
  destruct (ug_search_and_add_song ug _ _ _ (client w)) as [[[|]|e] s'];
    simpl; rewrite <- ?app_assoc; reflexivity.
Qed.

Lemma attach_loop_spec pl tracks : forall counters (w : World),
  exists outs s',
    attempts ug pl tracks outs
    /\ attach_loop ug pl tracks counters w
       = Some (Ret (fst counters + succeeded outs,
                    snd counters + failed outs),
               {| trace := trace w ++ loop_events pl tracks outs;
                  client := s'; spotify_client := spotify_client w |}).
Proof.
  induction tracks as [|track rest IH]; intros counters w.
  - exists [], (client w). split; [constructor|].
    destruct counters, w. simpl. unfold ret.
    now rewrite !Nat.add_0_r, app_nil_r.
  - cbn [attach_loop]. unfold bind at 1. rewrite attach_spec.
    cbv beta iota zeta.
    match goal with
    | |- context [attach_loop ug pl rest ?c ?w1] =>
        destruct (IH c w1) as (outs & s' & Hatt & Hrun); rewrite Hrun
    end.
    remember (ug_search_and_add_song ug (name track) (artist track) pl
                (client w)) as step eqn:Hstep.
    exists (fst step :: outs), s'. split.
    + constructor; [|exact Hatt]. exists (client w). now rewrite Hstep.
    + cbn [trace client spotify_client loop_events]. rewrite <- app_assoc.
      unfold succeeded, failed in *.
      destruct (fst step) as [[|]|e]; simpl;
        rewrite ?Nat.add_succ_r; reflexivity.
Qed.

Lemma attempts_length pl tracks outs :
  attempts ug pl tracks outs -> length outs = length tracks.
Proof. intros H. symmetry. exact (Forall2_length H). Qed.

Lemma attempts_in pl tracks outs r :
  attempts ug pl tracks outs -> In r outs ->
  exists track s,
    fst (ug_search_and_add_song ug (name track) (artist track) pl s) = r.
Proof.
  induction 1 as [|track r0 rest outs [s Hr] _ IH]; simpl; [contradiction|].
  intros [<-|Hin]; eauto.
Qed.

Lemma loop_events_kinds pl tracks : forall outs ev,
  In ev (loop_events pl tracks outs) ->
  is_attach ev = true \/ ev = EvSleep 2.
Proof.
  induction tracks as [|track rest IH]; intros [|r outs] ev; simpl;
    try contradiction.
  intros [<-|Hin]; [now left|].
  destruct r; simpl in Hin.
  - destruct Hin as [<-|Hin]; [now right|eauto].
  - eauto.
Qed.

Lemma attach_calls_app xs ys :
  attach_calls (xs ++ ys) = attach_calls xs ++ attach_calls ys.
Proof. apply flat_map_app. Qed.

Lemma attach_calls_loop pl tracks : forall outs,
  length outs = length tracks ->
  attach_calls (loop_events pl tracks outs)
  = map (fun track => (name track, artist track, pl)) tracks.
Proof.
  induction tracks as [|track rest IH]; intros [|r outs] Hlen;
    simpl in *; try discriminate; [reflexivity|].
  f_equal. rewrite attach_calls_app, IH by lia.
  destruct r; reflexivity.
Qed.

Lemma successes_app xs ys : successes (xs ++ ys) = successes xs + successes ys.
Proof. unfold successes. now rewrite filter_app, length_app. Qed.

Lemma successes_loop pl tracks : forall outs,
  length outs = length tracks ->
  successes (loop_events pl tracks outs) = succeeded outs.
Proof.
  induction tracks as [|track rest IH]; intros [|r outs] Hlen;
    simpl in *; try discriminate; [reflexivity|].
  change (EvSearchAndAddSong (name track) (artist track) pl r
            :: match r with Ret _ => [EvSleep 2] | Raise _ => [] end
            ++ loop_events pl rest outs)
    with (iteration_events pl track r ++ loop_events pl rest outs).
  rewrite successes_app, IH by lia.
  unfold succeeded. destruct r as [[|]|e]; reflexivity.
Qed.

Lemma loop_delays pl tracks : forall outs,
  delay_after_every_returned_attach (loop_events pl tracks outs).
Proof.
  induction tracks as [|track rest IH]; intros [|r outs];
    intros before song who pl' b after Hsplit; simpl in Hsplit;
    try (destruct before; discriminate).
  destruct before as [|ev before]; simpl in Hsplit.
  - injection Hsplit as _ _ _ -> <-. simpl. eauto.
  - injection Hsplit as _ Hsplit.
    destruct r as [b'|e]; simpl in Hsplit.
    + destruct before as [|ev' before]; simpl in Hsplit; [discriminate|].
      injection Hsplit as _ Hsplit. eapply IH; eassumption.
    + eapply IH; eassumption.
Qed.

Lemma loop_events_outcome pl tracks : forall outs song who pl' r,
  In (EvSearchAndAddSong song who pl' r) (loop_events pl tracks outs) ->
  In r outs.
Proof.
  induction tracks as [|track rest IH]; intros [|r0 outs] song who pl' r;
    simpl; try contradiction.
  intros [Heq|Hin].
  - injection Heq as _ _ _ ->. now left.
  - right. destruct r0; simpl in Hin.
    + destruct Hin as [Heq|Hin]; [discriminate|eauto].
    + eauto.
Qed.

Lemma loop_delays_all pl tracks outs :
  (forall r, In r outs -> is_raise r = false) ->
  delay_after_every_attach (loop_events pl tracks outs).
Proof.
  intros Hret before song who pl' r after Hsplit.
  assert (Hin : In r outs).
  { apply (@loop_events_outcome pl tracks outs song who pl').
    rewrite Hsplit. apply in_elt. }
  apply Hret in Hin. destruct r as [b|e]; [|discriminate].
  eapply loop_delays; eassumption.
Qed.

Lemma async_with_run pl description tracks (body : Comp World bool) :
  (forall w1 : World, exists evs r s',
      session_run ug pl description tracks evs r
      /\ body w1 = Some (r, {| trace := trace w1 ++ evs; client := s';
                                spotify_client := spotify_client w1 |})) ->
  forall w : World, exists evs r s',
    with_run ug pl description tracks evs r
    /\ async_with ug body w
       = Some (r, {| trace := trace w ++ evs; client := s';
                     spotify_client := spotify_client w |}).
Proof.
  intros Hbody w.
  unfold async_with, bind, call, ret. cbn [trace client spotify_client].
  destruct (ug_start_browser ug (ug_new ug (client w))) as [[[]|e] s1].
  - match goal with
    | |- context [body ?w1] =>
        destruct (Hbody w1) as (evs & r & s2 & Hrun & ->)
    end.
    cbn [trace client spotify_client].
    destruct (ug_close_browser ug s2) as [rc s3] eqn:Hclose.
    exists (EvStartBrowser (Ret tt) :: evs ++ [EvCloseBrowser rc]).
    exists (match rc with Ret _ => r | Raise e => Raise e end), s3.
    split.
    + apply with_closed; [exact Hrun|]. exists s2. now rewrite Hclose.
    + rewrite <- !app_assoc. simpl. destruct rc as [[]|e]; reflexivity.
  - exists [EvStartBrowser (Raise e)], (Raise e), s1.
    split; [constructor|reflexivity].
Qed.

(** *** What a run of the [async with] statement can and cannot contain *)

Section RunFacts.

Variables pl description : string.
Variable tracks : list TrackInfo.

Ltac split_in :=
  repeat match goal with
         | H : In _ [] |- _ => destruct H
         | H : In _ (_ :: _) |- _ => destruct H as [H|H]
         | H : In _ (_ ++ _) |- _ => apply in_app_or in H; destruct H as [H|H]
         | H : In _ (if ?c then _ else _) |- _ => destruct c eqn:?
         | H : In _ (loop_events _ _ _) |- _ =>
             apply loop_events_kinds in H; destruct H as [H|H];
             try discriminate H
         | H : EvStartBrowser _ = _ |- _ => try discriminate H
         | H : EvCloseBrowser _ = _ |- _ => try discriminate H
         | H : EvLogin _ = _ |- _ =>
             try discriminate H; injection H as H; try discriminate H
         | H : EvGetExistingPlaylists _ = _ |- _ =>
             try discriminate H; injection H as H; try discriminate H
         | H : EvCreatePlaylist _ _ _ = _ |- _ =>
             try discriminate H; injection H as ? ? H
         | H : Ret _ = Ret _ |- _ => injection H as H
         end; subst.

Lemma loop_events_pred (f : Event -> bool) outs :
  (forall ev, is_attach ev = true -> f ev = false) ->
  f (EvSleep 2) = false ->
  existsb f (loop_events pl tracks outs) = false.
Proof.
  intros Hattach Hsleep.
  destruct (existsb f (loop_events pl tracks outs)) eqn:Hex; [|reflexivity].
  apply existsb_exists in Hex. destruct Hex as (ev & Hin & Hf).
  apply loop_events_kinds in Hin. destruct Hin as [Hin| ->].
  - rewrite Hattach in Hf by assumption. discriminate.
  - congruence.
Qed.

Lemma str_in_spec x xs : str_in x xs = true <-> In x xs.
Proof.
  unfold str_in. rewrite existsb_exists. split.
  - intros (y & Hin & Heq). apply String.eqb_eq in Heq. now subst.
  - intros Hin. exists x. split; [exact Hin|apply String.eqb_refl].
Qed.

Lemma with_run_no_spotify evs r :
  with_run ug pl description tracks evs r ->
  existsb is_spotify evs = false.
Proof.
  intros Hrun. inversion Hrun as [e|body r0 rc Hbody Hclose]; subst;
    [reflexivity|].
  simpl. rewrite existsb_app. simpl. rewrite orb_false_r.
  inversion Hbody; subst; try reflexivity.
  simpl. rewrite !existsb_app.
  rewrite loop_events_pred;
    [|intros [] Hev; try discriminate Hev; reflexivity|reflexivity].
  destruct (str_in pl names); reflexivity.
Qed.

Lemma with_run_reuses_playlist evs r names :
  with_run ug pl description tracks evs r ->
  In (EvGetExistingPlaylists (Ret names)) evs ->
  In pl names ->
  existsb is_create evs = false.
Proof.
  intros Hrun Hin Hpl. apply str_in_spec in Hpl.
  inversion Hrun as [e|body r0 rc Hbody Hclose]; subst; [reflexivity|].
  simpl. rewrite existsb_app. simpl. rewrite orb_false_r.
  inversion Hbody; subst; try reflexivity; split_in; try congruence.
  simpl. rewrite !existsb_app.
  rewrite loop_events_pred;
    [|intros [] Hev; try discriminate Hev; reflexivity|reflexivity].
  rewrite Hpl. reflexivity.
Qed.

Lemma with_run_creates_when_absent evs r n d rc :
  with_run ug pl description tracks evs r ->
  In (EvCreatePlaylist n d rc) evs ->
  n = pl /\ d = description
  /\ (exists names,
        In (EvGetExistingPlaylists (Ret names)) evs /\ ~ In pl names)
  /\ (rc <> Ret true ->
      bool_of r = false /\ existsb is_attach evs = false).
Proof.
  intros Hrun Hin.
  inversion Hrun as [e|body r0 rc0 Hbody Hclose]; subst; split_in.
  assert (Habsent : forall names, str_in pl names = false -> ~ In pl names).
  { intros names Hno Hyes. apply str_in_spec in Hyes. congruence. }
  inversion Hbody; subst; split_in.
  - split; [reflexivity|]. split; [reflexivity|]. split.
    + exists names. split; [|now apply Habsent]. simpl. tauto.
    + intros _. destruct rc0; split; reflexivity.
  - split; [reflexivity|]. split; [reflexivity|]. split.
    + exists names. split; [|now apply Habsent]. simpl. tauto.
    + intros _. destruct rc0; split; reflexivity.
  - split; [reflexivity|]. split; [reflexivity|]. split.
    + exists names. split; [|now apply Habsent]. simpl. tauto.
    + intros Hrc. congruence.
Qed.

Lemma with_run_login_failed evs r :
  with_run ug pl description tracks evs r ->
  In (EvLogin (Ret false)) evs ->
  bool_of r = false
  /\ exists rc,
       evs = [EvStartBrowser (Ret tt); EvLogin (Ret false); EvCloseBrowser rc].
Proof.
  intros Hrun Hin.
  inversion Hrun as [e|body r0 rc Hbody Hclose]; subst; split_in.
  inversion Hbody; subst; split_in.
  split; [destruct rc; reflexivity|]. exists rc. reflexivity.
Qed.

Lemma with_run_raised evs r :
  with_run ug pl description tracks evs r ->
  existsb raised_outside_loop evs = true ->
  bool_of r = false.
Proof.
  intros Hrun Hex.
  inversion Hrun as [e|body r0 rc Hbody Hclose]; subst; [reflexivity|].
  destruct rc as [[]|e]; [|reflexivity].
  simpl in Hex. rewrite existsb_app in Hex. simpl in Hex.
  rewrite orb_false_r in Hex.
  inversion Hbody; subst; try reflexivity.
  simpl in Hex. rewrite !existsb_app in Hex.
  rewrite loop_events_pred in Hex;
    [|intros [] Hev; try discriminate Hev; reflexivity|reflexivity].
  destruct (str_in pl names); discriminate Hex.
Qed.

Lemma with_run_result evs r :
  with_run ug pl description tracks evs r ->
  (forall rc, may_return (ug_close_browser ug) rc -> is_raise rc = false) ->
  bool_of r = (0 <? successes evs).
Proof.
  intros Hrun Hclosed.
  inversion Hrun as [e|body r0 rc Hbody Hclose]; subst; [reflexivity|].
  apply Hclosed in Hclose. destruct rc as [[]|e]; [|discriminate].
  change (EvStartBrowser (Ret tt) :: body ++ [EvCloseBrowser (Ret tt)])
    with ([EvStartBrowser (Ret tt)] ++ body ++ [EvCloseBrowser (Ret tt)]).
  rewrite !successes_app. change (successes [EvStartBrowser (Ret tt)]) with 0.
  change (successes [EvCloseBrowser (Ret tt)]) with 0.
  rewrite Nat.add_0_l, Nat.add_0_r.
  inversion Hbody as [| | | | |names outs Hatt]; subst; try reflexivity.
  rewrite !successes_app, successes_loop by exact (attempts_length Hatt).
  simpl. destruct (str_in pl names); reflexivity.
Qed.

Lemma with_run_nothing_to_attach evs r :
  with_run ug pl description [] evs r ->
  bool_of r = false.
Proof.
  intros Hrun.
  inversion Hrun as [e|body r0 rc Hbody Hclose]; subst; [reflexivity|].
  destruct rc as [[]|e]; [|reflexivity].
  inversion Hbody as [| | | | |names outs Hatt]; subst; try reflexivity.
  inversion Hatt; subst. reflexivity.
Qed.

End RunFacts.

End SyncerFacts.

Section SyncFacts.

Import Syncer.

Context {session : Type}.
Variable sp : Spotipy.
Variable UltimateGuitarClient : string -> string -> bool -> UGClient session.
Variable config : Config.

Lemma sync_tracks_spec info tracks pl (w : World) :
  exists evs r s',
    with_run (the_client UltimateGuitarClient config) pl
             (description_of info) tracks evs r
    /\ sync_tracks UltimateGuitarClient config info tracks pl w
       = Some (r, {| trace := trace w ++ evs; client := s';
                     spotify_client := spotify_client w |}).
Proof.
  unfold sync_tracks, description_of.
  set (ug := the_client UltimateGuitarClient config).
  change (UltimateGuitarClient (ug_username config) (ug_password config)
            (headless_browser config)) with ug.
  apply async_with_run. clear w. intros w.
  unfold bind, call, ret.
  destruct (ug_login ug (client w)) as [[[|]|e] s1]; cbn [negb trace client].
  - destruct (ug_get_existing_playlists ug s1) as [[names|e] s2];
      cbn [trace client].
    + destruct (str_in pl names) eqn:Hin; cbn [negb].
      * match goal with
        | |- context [attach_loop ug pl tracks (0, 0) ?w1] =>
            destruct (attach_loop_spec ug pl tracks (0, 0) w1)
              as (outs & s3 & Hatt & ->)
        end.
        eexists. exists (Ret (0 <? succeeded outs)), s3. split.
        -- apply (run_attached
                    ("Synced from Spotify playlist: " ++ info_name info)
                    names Hatt).
        -- rewrite Hin. cbn [trace client fst Nat.add].
           rewrite <- !app_assoc. reflexivity.
      * match goal with
        | |- context [ug_create_playlist ?c ?n ?d ?s] =>
            destruct (ug_create_playlist c n d s) as [[[|]|e] s3]
        end; cbn [negb trace client].
        -- match goal with
           | |- context [attach_loop ug pl tracks (0, 0) ?w1] =>
               destruct (attach_loop_spec ug pl tracks (0, 0) w1)
                 as (outs & s4 & Hatt & ->)
           end.
           eexists. exists (Ret (0 <? succeeded outs)), s4. split.
           ++ apply (run_attached
                       ("Synced from Spotify playlist: " ++ info_name info)
                       names Hatt).
           ++ rewrite Hin. cbn [trace client fst Nat.add].
              rewrite <- !app_assoc. reflexivity.
        -- eexists. exists (Ret false), s3. split.
           ++ apply run_create_failed, Hin.
           ++ rewrite <- !app_assoc. reflexivity.
        -- eexists. exists (Raise e), s3. split.
           ++ apply run_create_raised, Hin.
           ++ rewrite <- !app_assoc. reflexivity.
    + eexists. exists (Raise e), s2. split.
      * apply run_listing_raised.
      * rewrite <- !app_assoc. reflexivity.
  - eexists. exists (Ret false), s1. split; [apply run_login_failed|].
    reflexivity.
  - eexists. exists (Raise e), s1. split; [apply run_login_raised|].
    reflexivity.
Qed.

Lemma sync_playlist_run fuel target (w : World) info h1 tracks h2 :
  client_built sp config w = true ->
  get_playlist_info sp (spotify_playlist_id config) (trace w)
    = Some (Ret info, h1) ->
  get_playlist_tracks sp fuel (spotify_playlist_id config) h1
    = Some (Ret tracks, h2) ->
  exists evs r s',
    with_run (the_client UltimateGuitarClient config)
             (or_name target (info_name info)) (description_of info)
             tracks evs r
    /\ sync_playlist sp UltimateGuitarClient config fuel target w
       = Some (Ret (bool_of r),
               {| trace := h2 ++ evs; client := s';
                  spotify_client := true |}).
Proof.
  intros Hbuilt Hinfo Htracks.
  destruct (sync_tracks_spec info tracks (or_name target (info_name info))
              {| trace := h2; client := client w; spotify_client := true |})
    as (evs & r & s' & Hrun & Hsync).
  exists evs, r, s'. split; [exact Hrun|].
  rewrite sync_playlist_built by exact Hbuilt.
  unfold try_except, bind, spotify, built.
  cbn [trace client spotify_client].
  rewrite Hinfo. cbn [trace client spotify_client]. rewrite Htracks.
  rewrite Hsync. destruct r; reflexivity.
Qed.

(** Every run of [sync_playlist]: the Spotify client cannot be built, or
    the read of the playlist raises, or the read of the tracks does not end,
    or it raises, or both reads return and the [async with] statement
    runs. *)
Lemma sync_playlist_cases fuel target (w : World) :
  (client_built sp config w = false
   /\ sync_playlist sp UltimateGuitarClient config fuel target w
      = Some (Ret false, w))
  \/ (exists e,
        client_built sp config w = true
        /\ sync_playlist sp UltimateGuitarClient config fuel target w
           = Some (Ret false,
                   {| trace := trace w
                               ++ [EvPlaylist (spotify_playlist_id config)
                                              (Raise e)];
                      client := client w; spotify_client := true |}))
  \/ (exists info pobj h1,
        client_built sp config w = true
        /\ h1 = trace w ++ [EvPlaylist (spotify_playlist_id config) (Ret pobj)]
        /\ get_playlist_info sp (spotify_playlist_id config) (trace w)
           = Some (Ret info, h1)
        /\ ((get_playlist_tracks sp fuel (spotify_playlist_id config) h1 = None
             /\ sync_playlist sp UltimateGuitarClient config fuel target w
                = None)
            \/ (exists e evs,
                  get_playlist_tracks sp fuel (spotify_playlist_id config) h1
                  = Some (Raise e, h1 ++ evs)
                  /\ spotify_events evs true
                  /\ sync_playlist sp UltimateGuitarClient config fuel target w
                     = Some (Ret false,
                             {| trace := h1 ++ evs; client := client w;
                                spotify_client := true |}))
            \/ (exists tracks evs_read evs r s',
                  get_playlist_tracks sp fuel (spotify_playlist_id config) h1
                  = Some (Ret tracks, h1 ++ evs_read)
                  /\ spotify_events evs_read false
                  /\ with_run (the_client UltimateGuitarClient config)
                              (or_name target (info_name info))
                              (description_of info) tracks evs r
                  /\ sync_playlist sp UltimateGuitarClient config fuel target w
                     = Some (Ret (bool_of r),
                             {| trace := (h1 ++ evs_read) ++ evs;
                                client := s';
                                spotify_client := true |})))).
Proof.
  destruct (client_built sp config w) eqn:Hbuilt;
    [|left; split; [reflexivity|now apply sync_playlist_not_built]].
  right.
  destruct (get_playlist_info_events sp (spotify_playlist_id config) (trace w))
    as (ri & Hinfo & Hraise).
  destruct (sp_playlist sp (trace w) (spotify_playlist_id config))
    as [pobj|e] eqn:Hsp; destruct ri as [info|e']; try discriminate Hraise.
  - right. exists info, pobj. eexists. split; [reflexivity|].
    split; [reflexivity|]. split; [exact Hinfo|].
    destruct (get_playlist_tracks sp fuel (spotify_playlist_id config)
                (trace w ++ [EvPlaylist (spotify_playlist_id config)
                               (Ret pobj)]))
      as [[[tracks|e] h2]|] eqn:Htracks.
    + right. right.
      destruct (get_playlist_tracks_events _ _ _ _ Htracks)
        as (evs_read & -> & Hevs).
      destruct (sync_playlist_run fuel target w Hbuilt Hinfo Htracks)
        as (evs & r & s' & Hrun & Hsync).
      exists tracks, evs_read, evs, r, s'. auto.
    + right. left.
      destruct (get_playlist_tracks_events _ _ _ _ Htracks)
        as (evs_read & -> & Hevs).
      exists e, evs_read. repeat split; try apply Hevs.
      rewrite sync_playlist_built by exact Hbuilt.
      unfold try_except, bind, spotify, built.
      cbn [trace client spotify_client].
      rewrite Hinfo. cbn [trace client spotify_client].
      rewrite Htracks. reflexivity.
    + left. split; [reflexivity|].
      rewrite sync_playlist_built by exact Hbuilt.
      unfold try_except, bind, spotify, built.
      cbn [trace client spotify_client].
      rewrite Hinfo. cbn [trace client spotify_client].
      rewrite Htracks. reflexivity.
  - left. exists e. split; [reflexivity|].
    rewrite sync_playlist_built by exact Hbuilt.
    unfold try_except, bind, spotify, built.
    cbn [trace client spotify_client].
    rewrite Hinfo.
    assert (He : e' = e).
    { unfold get_playlist_info in Hinfo.
      rewrite try_except_reraise in Hinfo.
      unfold bind, playlist in Hinfo. rewrite Hsp in Hinfo. congruence. }
    subst e'. reflexivity.
Qed.

End SyncFacts.

(** C1.  Whatever the client does on each call (return [True], return
    [False] or raise), one iteration of the attach loop returns with
    exactly one of the two counters incremented, and the loop over [N]
    tracks returns, never raises, has called [search_and_add_song] once per
    track in source order, and leaves [succeeded + failed = N], [failed]
    counting the calls that returned [False] or raised. *)
Theorem attach_loop_processes_every_track
  (session : Type) (ug : UGClient session) (pl : string)
  (tracks : list TrackInfo) (w : @Syncer.World session) :
  (forall track counters (w0 : @Syncer.World session),
      exists w1,
        Syncer.attach ug pl track counters w0
          = Some (Ret (S (fst counters), snd counters), w1)
        \/ Syncer.attach ug pl track counters w0
          = Some (Ret (fst counters, S (snd counters)), w1))
  /\ exists outs w',
       Syncer.attach_loop ug pl tracks (0, 0) w
         = Some (Ret (succeeded outs, failed outs), w')
       /\ attempts ug pl tracks outs
       /\ length outs = length tracks
       /\ Syncer.trace w' = Syncer.trace w ++ loop_events pl tracks outs
       /\ attach_calls (loop_events pl tracks outs)
          = map (fun track => (name track, artist track, pl)) tracks
       /\ succeeded outs + failed outs = length tracks.
Proof.
  split.
  - intros track counters w0. rewrite attach_spec. cbv zeta.
    destruct (fst (ug_search_and_add_song ug (name track) (artist track) pl
                     (Syncer.client w0))) as [[|]|e];
      eexists; [left|right|right]; reflexivity.
  - destruct (attach_loop_spec ug pl tracks (0, 0) w)
      as (outs & s' & Hatt & Hrun).
    pose proof (attempts_length Hatt) as Hlen.
    exists outs. eexists. split; [exact Hrun|].
    repeat split; try assumption.
    + now apply attach_calls_loop.
    + now rewrite succeeded_failed.
Qed.

(** *** An exception of the browser ends the attempt of a track *)

Section RaiseFacts.

Import Ug_client.

Variable pw : Playwright.

Lemma none_raises_app xs : forall h ys,
  none_raises pw h (xs ++ ys)
  = none_raises pw h xs && none_raises pw (h ++ xs) ys.
Proof.
  induction xs as [|x xs IH]; intros h ys; simpl.
  - now rewrite app_nil_r.
  - rewrite IH, <- app_assoc, andb_assoc. reflexivity.
Qed.

Lemma returns_clean_ret {A} (a : A) : returns_clean pw (aret a).
Proof.
  intros s. exists []. simpl. rewrite app_nil_r. split; reflexivity.
Qed.

Lemma returns_clean_bind {A B} (m : Act Client A) (k : A -> Act Client B) :
  returns_clean pw m -> (forall a, returns_clean pw (k a)) ->
  returns_clean pw (abind m k).
Proof.
  intros Hm Hk s. unfold abind.
  destruct (Hm s) as (new1 & Hc1 & Hn1).
  destruct (m s) as [[a|e] s1]; simpl in *.
  - destruct (Hk a s1) as (new2 & Hc2 & Hn2).
    exists (new1 ++ new2). rewrite Hc2, Hc1, app_assoc.
    split; [reflexivity|]. intros Hret.
    rewrite none_raises_app, Hn1 by reflexivity.
    rewrite <- Hc1. now apply Hn2.
  - exists new1. split; [exact Hc1|discriminate].
Qed.

Lemma returns_clean_step {A} (c : Call) (answer : list Call -> result A) :
  (forall h, is_raise (answer h) = raises pw h c) ->
  returns_clean pw (fun s => (answer (calls s), record c s)).
Proof.
  intros Hc s. exists [c]. simpl. split; [reflexivity|].
  rewrite Hc. intros ->. reflexivity.
Qed.

Lemma returns_clean_on_page {A} (m : Act Client A) :
  returns_clean pw m -> returns_clean pw (on_page m).
Proof.
  intros Hm s. unfold on_page. destruct (page s); [apply Hm|].
  exists []. simpl. rewrite app_nil_r. split; [reflexivity|discriminate].
Qed.

Ltac clean_steps :=
  repeat first
    [ apply returns_clean_ret
    | apply returns_clean_bind; [|intros ?]
    | apply returns_clean_on_page
    | apply (returns_clean_step _ (fun h => pw_do pw h _)); reflexivity
    | apply (returns_clean_step _ (fun h => pw_query_selector pw h _));
      reflexivity
    | match goal with
      | |- returns_clean _ (match ?x with _ => _ end) => destruct x
      end ].

(** Inside [search_and_add_song] an exception of the browser reaches the
    handler, which returns [False]. *)
Lemma search_and_add_song_catches song_name artist_name playlist_name s :
  exists b new,
    fst (search_and_add_song pw song_name artist_name playlist_name s) = Ret b
    /\ calls (snd (search_and_add_song pw song_name artist_name
                     playlist_name s))
       = calls s ++ new
    /\ (none_raises pw (calls s) new = false -> b = false).
Proof.
  unfold search_and_add_song, atry_except.
  match goal with
  | |- context [match ?body s with _ => _ end] =>
      assert (Hbody : returns_clean pw body)
  end.
  { cbv zeta.
    unfold goto, wait_for_selector, wait_for_timeout, query_selector,
      element_click, perform.
    clean_steps. }
  destruct (Hbody s) as (new & Hcalls & Hclean).
  match goal with
  | |- context [match ?body s with _ => _ end] =>
      destruct (body s) as [[b|e] s1]
  end; simpl in *.
  - exists b, new. split; [reflexivity|]. split; [exact Hcalls|].
    intros Hraised. rewrite Hclean in Hraised by reflexivity.
    discriminate Hraised.
  - exists false, new. repeat split. exact Hcalls.
Qed.

End RaiseFacts.

(** C4.  In the attach loop, with the client of this repository, after
    every track, whatever the outcome of its attempt, a pause of 2 is waited
    before the next track is processed.  The attempt of a track succeeds or
    returns failure; an exception raised by the browser during it is caught
    inside [search_and_add_song], which then returns failure, so that no
    exception reaches the loop. *)
Theorem attach_loop_delays_after_every_track
  (pw : Ug_client.Playwright) (username password : string)
  (headless : bool) (pl : string) (tracks : list TrackInfo)
  (w : @Syncer.World Ug_client.Client) :
  exists outs w',
    Syncer.attach_loop
      (Ug_client.UltimateGuitarClient pw username password headless)
      pl tracks (0, 0) w
      = Some (Ret (succeeded outs, failed outs), w')
    /\ length outs = length tracks
    /\ (forall r, In r outs -> exists b, r = Ret b)
    /\ Syncer.trace w' = Syncer.trace w ++ loop_events pl tracks outs
    /\ attach_calls (loop_events pl tracks outs)
       = map (fun track => (name track, artist track, pl)) tracks
    /\ delay_after_every_attach (loop_events pl tracks outs)
    /\ (forall song who s,
          exists b new,
            fst (Ug_client.search_and_add_song pw song who pl s) = Ret b
            /\ Ug_client.calls
                 (snd (Ug_client.search_and_add_song pw song who pl s))
               = Ug_client.calls s ++ new
            /\ (none_raises pw (Ug_client.calls s) new = false ->
                b = false)).
Proof.
  destruct (attach_loop_spec
              (Ug_client.UltimateGuitarClient pw username password headless)
              pl tracks (0, 0) w)
    as (outs & s' & Hatt & Hrun).
  assert (Hret : forall r, In r outs -> exists b, r = Ret b).
  { intros r Hin.
    destruct (attempts_in _ Hatt Hin) as (track & s & Hr). simpl in Hr.
    destruct (search_and_add_song_returns pw (name track) (artist track) pl s)
      as [b Hb].
    exists b. congruence. }
  pose proof (attempts_length Hatt) as Hlen.
  exists outs. eexists. split; [exact Hrun|].
  split; [exact Hlen|]. split; [exact Hret|]. split; [reflexivity|].
  split; [now apply attach_calls_loop|]. split.
  - apply loop_delays_all.
    intros r Hin. destruct (Hret r Hin) as [b ->]. reflexivity.
  - intros song who s. apply search_and_add_song_catches.
Qed.

Lemma attach_loop_delays_after_every_track_witness :
  exists outs w',
    Syncer.attach_loop
      (Ug_client.UltimateGuitarClient Browser_examples.pw_one_search_fails
         "user" "pass" true)
      "Road Trip" Examples.three_songs (0, 0)
      (Examples.start Examples.started)
    = Some (Ret (succeeded outs, failed outs), w')
    /\ length outs = 3
    /\ delay_after_every_attach
         (loop_events "Road Trip" Examples.three_songs outs).
Proof.
  destruct (attach_loop_delays_after_every_track
              Browser_examples.pw_one_search_fails "user" "pass" true
              "Road Trip" Examples.three_songs
              (Examples.start Examples.started))
    as (outs & w' & Hrun & Hlen & _ & _ & _ & Hdelay & _).
  exists outs, w'. split; [exact Hrun|]. split; [exact Hlen|exact Hdelay].
Defined.

Lemma successes_spotify evs :
  forallb is_spotify evs = true -> successes evs = 0.
Proof.
  unfold successes. induction evs as [|ev evs IH]; simpl; [reflexivity|].
  intros H. apply andb_true_iff in H. destruct H as [Hev Hrest].
  destruct ev; try discriminate Hev; simpl; auto.
Qed.

Lemma all_succeed_stops pw h before c after e :
  all_succeed pw h before = true ->
  Ug_client.pw_do pw (h ++ before) c = Raise e ->
  all_succeed pw h (before ++ c :: after) = false.
Proof.
  revert h. induction before as [|b before IH]; intros h; simpl.
  - rewrite app_nil_r. intros _ ->. reflexivity.
  - destruct (Ug_client.pw_do pw h b); [|discriminate].
    intros Hbefore Hc. apply IH; [exact Hbefore|].
    now rewrite <- app_assoc.
Qed.

Lemma raised_spotify evs :
  forallb is_spotify evs = true ->
  existsb raised evs = existsb raised_outside_loop evs.
Proof.
  induction evs as [|ev evs IH]; simpl; [reflexivity|].
  intros H. apply andb_true_iff in H. destruct H as [Hev Hrest].
  rewrite IH by assumption. destruct ev; try discriminate Hev; reflexivity.
Qed.

Lemma loop_events_not_raised pl tracks : forall outs,
  (forall r, In r outs -> is_raise r = false) ->
  existsb raised (loop_events pl tracks outs) = false.
Proof.
  induction tracks as [|track rest IH]; intros [|r outs] Hret;
    try reflexivity.
  destruct r as [b|e];
    [|specialize (Hret (Raise e) (or_introl eq_refl)); discriminate Hret].
  simpl. apply IH. intros r Hin. apply Hret. now right.
Qed.

Lemma with_run_raised_real pw username password headless pl description
  tracks evs r :
  with_run (Ug_client.UltimateGuitarClient pw username password headless)
           pl description tracks evs r ->
  existsb raised evs = true ->
  bool_of r = false.
Proof.
  intros Hrun Hex.
  inversion Hrun as [e|body r0 rc Hbody Hclose]; subst; [reflexivity|].
  destruct Hclose as [s Hrc]. simpl in Hrc.
  rewrite close_browser_returns in Hrc. subst rc.
  inversion Hbody as [| | | | |names outs Hatt]; subst; try reflexivity.
  exfalso. simpl in Hex. rewrite !existsb_app in Hex.
  rewrite loop_events_not_raised in Hex.
  - destruct (str_in pl names); discriminate Hex.
  - intros r Hin.
    destruct (attempts_in _ Hatt Hin) as (track & s0 & Hr). simpl in Hr.
    destruct (search_and_add_song_returns pw (name track) (artist track)
                pl s0) as [b Hb].
    rewrite Hb in Hr. now subst r.
Qed.

Lemma create_playlist_returns pw playlist_name description s :
  exists b,
    fst (Ug_client.create_playlist pw playlist_name description s) = Ret b.
Proof. apply (atry_except_ret_returns _ (fun _ => false)). Qed.

(** C9, as stated, fails: with the client of this repository, an exception
    raised by the browser while one track is attached is caught inside
    [search_and_add_song], and the run still returns [True] when another
    track was attached. *)
Lemma sync_playlist_true_after_loop_exception :
  ~ (forall (sp : Spotipy) (pw : Ug_client.Playwright)
            (config : Syncer.Config) (fuel : nat) (target : option string)
            (w w' : @Syncer.World Ug_client.Client) (r : result bool),
       Syncer.sync_playlist sp (Ug_client.UltimateGuitarClient pw) config
         fuel target w = Some (r, w') ->
       exception_inside sp pw config w w' ->
       r = Ret false).
Proof.
  intros claim.
  destruct (Syncer.sync_playlist Examples.sp_two_pages
              (Ug_client.UltimateGuitarClient
                 Browser_examples.pw_one_search_fails)
              Examples.config0 2 None (Examples.start Examples.fresh))
    as [[r w']|] eqn:Hrun; [|vm_compute in Hrun; discriminate Hrun].
  specialize (claim _ _ _ _ _ _ _ _ Hrun).
  vm_compute in Hrun. injection Hrun as <- <-.
  assert (Hfalse : Ret true = Ret false); [|discriminate Hfalse].
  apply claim. right. right. eexists. split; [reflexivity|].
  vm_compute. reflexivity.
Qed.

(** C9, amended.  [sync_playlist] never raises.  It returns [False] when
    the Spotify client cannot be built and whenever a call raises to it, as
    a request to the source or the start of the browser can.  With the
    client of this repository an exception of the browser while a track is
    attached is caught inside [search_and_add_song], which returns [False]
    for that track; it does not make the run fail: the run returns [True]
    exactly when a call to [search_and_add_song] returned [True].  A run
    returns unless the read of the track pages itself does not end. *)
Theorem sync_playlist_never_raises
  (sp : Spotipy) (pw : Ug_client.Playwright)
  (config : Syncer.Config) (fuel : nat) (target : option string)
  (w : @Syncer.World Ug_client.Client) :
  (forall e w',
      Syncer.sync_playlist sp (Ug_client.UltimateGuitarClient pw) config fuel
        target w <> Some (Raise e, w'))
  /\ (client_built sp config w = false ->
      Syncer.sync_playlist sp (Ug_client.UltimateGuitarClient pw) config fuel
        target w = Some (Ret false, w))
  /\ (forall r w',
        Syncer.sync_playlist sp (Ug_client.UltimateGuitarClient pw) config fuel
          target w = Some (r, w') ->
        exists evs,
          Syncer.trace w' = Syncer.trace w ++ evs
          /\ (existsb raised evs = true -> r = Ret false)
          /\ r = Ret (0 <? successes evs))
  /\ (forall song who pl s,
        exists b new,
          fst (Ug_client.search_and_add_song pw song who pl s) = Ret b
          /\ Ug_client.calls
               (snd (Ug_client.search_and_add_song pw song who pl s))
             = Ug_client.calls s ++ new
          /\ (none_raises pw (Ug_client.calls s) new = false -> b = false))
  /\ (Syncer.sync_playlist sp (Ug_client.UltimateGuitarClient pw) config fuel
        target w = None
      <-> client_built sp config w = true
          /\ exists info h1,
               get_playlist_info sp (Syncer.spotify_playlist_id config)
                 (Syncer.trace w) = Some (Ret info, h1)
               /\ get_playlist_tracks sp fuel
                    (Syncer.spotify_playlist_id config) h1 = None).
Proof.
  assert (Hclosed : forall rc,
            may_return
              (ug_close_browser
                 (the_client (Ug_client.UltimateGuitarClient pw) config)) rc ->
            is_raise rc = false).
  { intros rc [s Hrc]. simpl in Hrc.
    rewrite close_browser_returns in Hrc. now subst rc. }
  split; [|split; [|split; [|split]]].
  - intros e w'. unfold Syncer.sync_playlist.
    apply (try_except_ret_never_raises _ (fun _ => false)).
  - apply sync_playlist_not_built.
  - intros r w' Hsync.
    destruct (sync_playlist_cases sp (Ug_client.UltimateGuitarClient pw)
                config fuel target w)
      as [[Hbuilt Hrun]
         |[(e & Hbuilt & Hrun)
          |(info & pobj & h1 & Hbuilt & -> & Hinfo
            & [[Htracks Hrun]
              |[(e & evs & Htracks & Hevs & Hrun)
               |(tracks & evs_read & evs & r0 & s' & Htracks & Hevs & Hwith
                 & Hrun)]])]];
      rewrite Hrun in Hsync; try discriminate Hsync;
      injection Hsync as <- <-; cbn [Syncer.trace].
    + exists []. rewrite app_nil_r. repeat split.
    + eexists. split; [reflexivity|]. split; reflexivity.
    + exists ([EvPlaylist (Syncer.spotify_playlist_id config) (Ret pobj)]
                ++ evs).
      split; [now rewrite <- app_assoc|]. split; [reflexivity|].
      rewrite successes_app, (successes_spotify evs) by apply Hevs.
      reflexivity.
    + exists ([EvPlaylist (Syncer.spotify_playlist_id config) (Ret pobj)]
                ++ evs_read ++ evs).
      split; [now rewrite <- !app_assoc|]. split.
      * rewrite !existsb_app.
        rewrite (raised_spotify evs_read) by apply Hevs.
        destruct Hevs as [_ ->]. simpl.
        intros Hex. f_equal.
        exact (with_run_raised_real Hwith Hex).
      * rewrite !successes_app, (successes_spotify evs_read) by apply Hevs.
        f_equal. exact (with_run_result Hwith Hclosed).
  - intros song who pl s. apply search_and_add_song_catches.
  - split.
    + intros Hsync.
      destruct (sync_playlist_cases sp (Ug_client.UltimateGuitarClient pw)
                  config fuel target w)
        as [[Hbuilt Hrun]
           |[(e & Hbuilt & Hrun)
            |(info & pobj & h1 & Hbuilt & -> & Hinfo
              & [[Htracks Hrun]
                |[(e & evs & Htracks & Hevs & Hrun)
                 |(tracks & evs_read & evs & r0 & s' & Htracks & Hevs & Hwith
                   & Hrun)]])]];
        rewrite Hrun in Hsync; try discriminate Hsync.
      eauto.
    + intros (Hbuilt & info & h1 & Hinfo & Htracks).
      rewrite sync_playlist_built by exact Hbuilt.
      unfold try_except, bind, Syncer.spotify, built.
      cbn [Syncer.trace Syncer.client Syncer.spotify_client].
      rewrite Hinfo. cbn [Syncer.trace Syncer.client Syncer.spotify_client].
      rewrite Htracks. reflexivity.
Qed.

Lemma sync_playlist_never_raises_witness :
  exists w',
    Syncer.sync_playlist Examples.sp_two_pages
      (Ug_client.UltimateGuitarClient Examples.pw_no_browser)
      Examples.config0 2 None (Examples.start Examples.fresh)
    = Some (Ret false, w').
Proof.
  destruct (Syncer.sync_playlist Examples.sp_two_pages
              (Ug_client.UltimateGuitarClient Examples.pw_no_browser)
              Examples.config0 2 None (Examples.start Examples.fresh))
    as [[r w']|] eqn:Hrun; [|vm_compute in Hrun; discriminate Hrun].
  exists w'.
  destruct (proj1 (proj2 (proj2 (@sync_playlist_never_raises
                                   Examples.sp_two_pages
                                   Examples.pw_no_browser
                                   Examples.config0 2 None
                                   (Examples.start Examples.fresh))))
              r w' Hrun)
    as (evs & Htrace & Hfalse & _).
  rewrite Hfalse; [reflexivity|].
  vm_compute in Hrun. injection Hrun as _ <-.
  simpl in Htrace. subst evs. reflexivity.
Defined.

(** C2.  With the client of this repository, a run of [sync_playlist] that
    returns reports [True] exactly when at least one call to
    [search_and_add_song] returned [True], and it does return once the
    Spotify client is built and both reads of the source have returned; in
    particular, whatever the client, a source playlist without tracks gives
    [False] although no track failed. *)
Theorem sync_playlist_succeeds_iff_a_track_was_attached
  (sp : Spotipy) (pw : Ug_client.Playwright) (config : Syncer.Config)
  (fuel : nat) (target : option string)
  (w : @Syncer.World Ug_client.Client) :
  (forall r w',
      Syncer.sync_playlist sp (Ug_client.UltimateGuitarClient pw) config fuel
        target w = Some (r, w') ->
      exists evs,
        Syncer.trace w' = Syncer.trace w ++ evs
        /\ r = Ret (0 <? successes evs))
  /\ (forall info h1 tracks h2,
        client_built sp config w = true ->
        get_playlist_info sp (Syncer.spotify_playlist_id config)
          (Syncer.trace w) = Some (Ret info, h1) ->
        get_playlist_tracks sp fuel (Syncer.spotify_playlist_id config) h1
          = Some (Ret tracks, h2) ->
        exists evs s',
          Syncer.sync_playlist sp (Ug_client.UltimateGuitarClient pw) config
            fuel target w
          = Some (Ret (0 <? successes evs),
                  {| Syncer.trace := h2 ++ evs; Syncer.client := s';
                     Syncer.spotify_client := true |}))
  /\ (forall (session : Type)
             (UltimateGuitarClient : string -> string -> bool
                                     -> UGClient session)
             (w0 : @Syncer.World session) info h1 h2,
        client_built sp config w0 = true ->
        get_playlist_info sp (Syncer.spotify_playlist_id config)
          (Syncer.trace w0) = Some (Ret info, h1) ->
        get_playlist_tracks sp fuel (Syncer.spotify_playlist_id config) h1
          = Some (Ret [], h2) ->
        exists w',
          Syncer.sync_playlist sp UltimateGuitarClient config fuel target w0
          = Some (Ret false, w')).
Proof.
  split; [|split].
  - intros r w' Hsync.
    destruct (sync_playlist_cases sp (Ug_client.UltimateGuitarClient pw)
                config fuel target w)
      as [[Hbuilt Hrun]
         |[(e & Hbuilt & Hrun)
          |(info & pobj & h1 & Hbuilt & -> & Hinfo
            & [[Htracks Hrun]
              |[(e & evs & Htracks & Hevs & Hrun)
               |(tracks & evs_read & evs & r0 & s' & Htracks & Hevs & Hwith
                 & Hrun)]])]];
      rewrite Hrun in Hsync; try discriminate Hsync;
      injection Hsync as <- <-; cbn [Syncer.trace].
    + exists []. rewrite app_nil_r. split; reflexivity.
    + eexists. split; [reflexivity|]. reflexivity.
    + exists ([EvPlaylist (Syncer.spotify_playlist_id config) (Ret pobj)]
                ++ evs).
      split; [now rewrite <- app_assoc|].
      rewrite successes_app, (successes_spotify evs) by apply Hevs.
      reflexivity.
    + exists ([EvPlaylist (Syncer.spotify_playlist_id config) (Ret pobj)]
                ++ evs_read ++ evs).
      split; [now rewrite <- !app_assoc|].
      rewrite !successes_app, (successes_spotify evs_read) by apply Hevs.
      f_equal. eapply with_run_result; [exact Hwith|].
      intros rc [s Hrc]. simpl in Hrc.
      rewrite close_browser_returns in Hrc. now subst rc.
  - intros info h1 tracks h2 Hbuilt Hinfo Htracks.
    destruct (sync_playlist_run sp (Ug_client.UltimateGuitarClient pw) config
                fuel target w Hbuilt Hinfo Htracks)
      as (evs & r & s' & Hwith & Hsync).
    exists evs, s'. rewrite Hsync. do 3 f_equal.
    eapply with_run_result; [exact Hwith|].
    intros rc [s Hrc]. simpl in Hrc.
    rewrite close_browser_returns in Hrc. now subst rc.
  - intros session UltimateGuitarClient w0 info h1 h2 Hbuilt Hinfo Htracks.
    destruct (sync_playlist_run sp UltimateGuitarClient config fuel target w0
                Hbuilt Hinfo Htracks)
      as (evs & r & s' & Hwith & Hsync).
    eexists. rewrite Hsync.
    now rewrite (with_run_nothing_to_attach Hwith).
Qed.

Lemma sync_playlist_succeeds_iff_a_track_was_attached_witness :
  exists w',
    Syncer.sync_playlist Examples.sp_two_pages
      (Ug_client.UltimateGuitarClient Examples.pw_site)
      Examples.config0 2 None (Examples.start Examples.fresh)
    = Some (Ret true, w')
    /\ successes (Syncer.trace w') = 3.
Proof.
  destruct (Syncer.sync_playlist Examples.sp_two_pages
              (Ug_client.UltimateGuitarClient Examples.pw_site)
              Examples.config0 2 None (Examples.start Examples.fresh))
    as [[r w']|] eqn:Hrun; [|vm_compute in Hrun; discriminate Hrun].
  exists w'.
  destruct (proj1 (sync_playlist_succeeds_iff_a_track_was_attached
                     Examples.sp_two_pages Examples.pw_site Examples.config0
                     2 None (Examples.start Examples.fresh))
              r w' Hrun)
    as (evs & Htrace & Hr).
  simpl in Htrace. subst evs.
  vm_compute in Hrun. injection Hrun as _ <-.
  split; [rewrite Hr|]; reflexivity.
Defined.

(** C5.  When the Spotify client is built and both reads of the source
    return, [sync_playlist] returns, and in its run: if the resolved target name is an element of the list
    [get_existing_playlists] returned, [create_playlist] is not called;
    [create_playlist] is called only with the resolved name and only when
    that name is not an element of the list; and when [create_playlist]
    returns [False] or raises, the result is [False] and
    [search_and_add_song] is not called. *)
Theorem sync_playlist_reuses_existing_playlist
  (session : Type) (sp : Spotipy)
  (UltimateGuitarClient : string -> string -> bool -> UGClient session)
  (config : Syncer.Config) (fuel : nat) (target : option string)
  (w : @Syncer.World session) info h1 tracks h2 :
  client_built sp config w = true ->
  get_playlist_info sp (Syncer.spotify_playlist_id config) (Syncer.trace w)
    = Some (Ret info, h1) ->
  get_playlist_tracks sp fuel (Syncer.spotify_playlist_id config) h1
    = Some (Ret tracks, h2) ->
  exists evs b s',
    Syncer.sync_playlist sp UltimateGuitarClient config fuel target w
    = Some (Ret b, {| Syncer.trace := h2 ++ evs; Syncer.client := s';
                      Syncer.spotify_client := true |})
    /\ (forall names,
          In (EvGetExistingPlaylists (Ret names)) evs ->
          In (Syncer.or_name target (info_name info)) names ->
          existsb is_create evs = false)
    /\ (forall n d rc,
          In (EvCreatePlaylist n d rc) evs ->
          n = Syncer.or_name target (info_name info)
          /\ exists names,
               In (EvGetExistingPlaylists (Ret names)) evs /\ ~ In n names)
    /\ (forall n d rc,
          In (EvCreatePlaylist n d rc) evs ->
          rc <> Ret true ->
          b = false /\ existsb is_attach evs = false).
Proof.
  intros Hbuilt Hinfo Htracks.
  destruct (sync_playlist_run sp UltimateGuitarClient config fuel target w
              Hbuilt Hinfo Htracks)
    as (evs & r & s' & Hwith & Hsync).
  exists evs, (bool_of r), s'. split; [exact Hsync|].
  split; [|split].
  - intros names Hin Hpl. eapply with_run_reuses_playlist; eassumption.
  - intros n d rc Hin.
    destruct (with_run_creates_when_absent _ _ _ Hwith Hin)
      as (-> & _ & Hnames & _).
    split; [reflexivity|exact Hnames].
  - intros n d rc Hin Hrc.
    destruct (with_run_creates_when_absent _ _ _ Hwith Hin)
      as (_ & _ & _ & Hfail).
    exact (Hfail Hrc).
Qed.

Lemma sync_playlist_reuses_existing_playlist_witness :
  exists evs b s',
    Syncer.sync_playlist Examples.sp_two_pages
      (fun _ _ _ => Examples.ug_mock ["Rock"; "Road Trip"]%string
                      Examples.attach_script)
      Examples.config0 2 None (Examples.start tt)
    = Some (Ret b, {| Syncer.trace := evs; Syncer.client := s';
                      Syncer.spotify_client := true |})
    /\ existsb is_create evs = false.
Proof.
  destruct (@sync_playlist_reuses_existing_playlist unit Examples.sp_two_pages
              (fun _ _ _ => Examples.ug_mock ["Rock"; "Road Trip"]%string
                              Examples.attach_script)
              Examples.config0 2 None (Examples.start tt)
              Examples.road_trip_info _ Examples.three_songs _
              eq_refl eq_refl eq_refl)
    as (evs & b & s' & Hrun & Hreuse & _).
  eexists. exists b, s'. split; [exact Hrun|].
  rewrite existsb_app. simpl.
  apply (Hreuse ["Rock"; "Road Trip"]%string); [|simpl; tauto].
  vm_compute in Hrun. injection Hrun as _ <-. simpl. tauto.
Defined.

(** C6.  When the Spotify client is built, both reads of the source have
    returned and [login] then returns [False], [sync_playlist] returns [False] after the events
    start-browser, login, close-browser and nothing else:
    [search_and_add_song] is not called and no request goes to the source
    after the two reads.  [login] of [UltimateGuitarClient] never raises
    and returns [True] only if every one of its steps, the two bounded waits
    for the credential form and for the post-login marker included, went
    through; a step that raises, as a wait that times out does, makes it
    return [False]. *)
Theorem sync_playlist_aborts_when_login_fails :
  (forall (session : Type) (sp : Spotipy)
          (UltimateGuitarClient : string -> string -> bool
                                  -> UGClient session)
          (config : Syncer.Config) (fuel : nat) (target : option string)
          (w : @Syncer.World session) info h1 tracks h2,
      client_built sp config w = true ->
      get_playlist_info sp (Syncer.spotify_playlist_id config)
        (Syncer.trace w) = Some (Ret info, h1) ->
      get_playlist_tracks sp fuel (Syncer.spotify_playlist_id config) h1
        = Some (Ret tracks, h2) ->
      exists evs b s',
        Syncer.sync_playlist sp UltimateGuitarClient config fuel target w
        = Some (Ret b, {| Syncer.trace := h2 ++ evs; Syncer.client := s';
                          Syncer.spotify_client := true |})
        /\ existsb is_spotify evs = false
        /\ (In (EvLogin (Ret false)) evs ->
            b = false
            /\ existsb is_attach evs = false
            /\ exists rc,
                 evs = [EvStartBrowser (Ret tt); EvLogin (Ret false);
                        EvCloseBrowser rc]))
  /\ (forall (pw : Ug_client.Playwright) (username password : string)
             (s : Ug_client.Client),
        fst (Ug_client.login pw username password s)
        = Ret (Ug_client.page s
               && all_succeed pw (Ug_client.calls s)
                    (login_steps username password))
        /\ (forall before c after e,
              login_steps username password = before ++ c :: after ->
              all_succeed pw (Ug_client.calls s) before = true ->
              Ug_client.pw_do pw (Ug_client.calls s ++ before) c = Raise e ->
              fst (Ug_client.login pw username password s) = Ret false)).
Proof.
  split.
  - intros session sp UltimateGuitarClient config fuel target w info h1
           tracks h2 Hbuilt Hinfo Htracks.
    destruct (sync_playlist_run sp UltimateGuitarClient config fuel target w
                Hbuilt Hinfo Htracks)
      as (evs & r & s' & Hwith & Hsync).
    exists evs, (bool_of r), s'. split; [exact Hsync|].
    split; [exact (with_run_no_spotify Hwith)|].
    intros Hlogin.
    destruct (with_run_login_failed Hwith Hlogin) as (Hr & rc & ->).
    split; [exact Hr|]. split; [reflexivity|]. exists rc. reflexivity.
  - intros pw username password s.
    split; [apply login_spec|].
    intros before c after e Hsteps Hbefore Hraise.
    rewrite login_spec, Hsteps.
    rewrite (@all_succeed_stops pw _ before c after e Hbefore Hraise).
    apply f_equal, andb_false_r.
Qed.

Lemma sync_playlist_aborts_when_login_fails_witness :
  exists s',
    Syncer.sync_playlist Examples.sp_two_pages
      (Ug_client.UltimateGuitarClient Examples.pw_no_form)
      Examples.config0 2 None (Examples.start Examples.fresh)
    = Some (Ret false,
            {| Syncer.trace :=
                 [EvPlaylist "p" (Ret Examples.road_trip);
                  EvPlaylistTracks "p" (Ret Examples.page1);
                  EvNext
                    "https://api.spotify.com/v1/playlists/p/tracks?offset=3"
                    (Ret Examples.page2);
                  EvStartBrowser (Ret tt); EvLogin (Ret false);
                  EvCloseBrowser (Ret tt)];
               Syncer.client := s'; Syncer.spotify_client := true |})
  /\ fst (Ug_client.login Examples.pw_no_form "user" "pass" Examples.started)
     = Ret false.
Proof.
  destruct sync_playlist_aborts_when_login_fails as [Hsync Hlogin].
  destruct (Hsync _ Examples.sp_two_pages
              (Ug_client.UltimateGuitarClient Examples.pw_no_form)
              Examples.config0 2 None (Examples.start Examples.fresh)
              Examples.road_trip_info _ Examples.three_songs _
              eq_refl eq_refl eq_refl)
    as (evs & b & s' & Hrun & _ & Hfailed).
  assert (Hevs : evs = [EvStartBrowser (Ret tt); EvLogin (Ret false);
                        EvCloseBrowser (Ret tt)]).
  { pose proof Hrun as Hrun'. vm_compute in Hrun'.
    injection Hrun' as _ <- _. reflexivity. }
  destruct Hfailed as (-> & _ & _); [rewrite Hevs; simpl; tauto|].
  exists s'. split.
  - rewrite Hrun, Hevs. reflexivity.
  - apply (proj2 (Hlogin Examples.pw_no_form "user" "pass" Examples.started)
             [Ug_client.Goto signin_url]
             (Ug_client.WaitForSelector "input[name='username']" 10000)
             [Ug_client.Fill "input[name='username']" "user";
              Ug_client.Fill "input[name='password']" "pass";
              Ug_client.Click "button[type='submit']";
              Ug_client.WaitForSelector ".js-header-user-menu" 10000]
             Examples.timeout_error);
      reflexivity.
Defined.

(** The comparison of playlist names is literal: a name that differs only
    by case is not found, and the playlist is created. *)
Example sync_playlist_creates_when_case_differs :
  exists b w',
    Syncer.sync_playlist Examples.sp_two_pages
      (fun _ _ _ => Examples.ug_mock ["road trip"] Examples.attach_script)
      Examples.config0 2 None (Examples.start tt)
    = Some (Ret b, w')
    /\ In (EvCreatePlaylist "Road Trip"
                            "Synced from Spotify playlist: Road Trip"
                            (Ret true))
          (Syncer.trace w').
Proof.
  eexists. eexists. split; [vm_compute; reflexivity|].
  simpl. tauto.
Qed.

(** The end-to-end scenario of the specification, with a third track:
    "Road Trip" is absent from the target, so it is created once, then the
    three tracks are attached with a pause after each. *)
Example sync_playlist_road_trip :
  exists s',
    Syncer.sync_playlist Examples.sp_two_pages
      (fun _ _ _ => Examples.ug_mock [] (fun _ => Ret true))
      Examples.config0 2 None (Examples.start tt)
    = Some (Ret true,
            {| Syncer.trace :=
                 [EvPlaylist "p" (Ret Examples.road_trip);
                  EvPlaylistTracks "p" (Ret Examples.page1);
                  EvNext
                    "https://api.spotify.com/v1/playlists/p/tracks?offset=3"
                    (Ret Examples.page2);
                  EvStartBrowser (Ret tt); EvLogin (Ret true);
                  EvGetExistingPlaylists (Ret []);
                  EvCreatePlaylist "Road Trip"
                    "Synced from Spotify playlist: Road Trip" (Ret true);
                  EvSearchAndAddSong "Song A" "Artist X" "Road Trip"
                    (Ret true);
                  EvSleep 2;
                  EvSearchAndAddSong "Song B" "Artist Y" "Road Trip"
                    (Ret true);
                  EvSleep 2;
                  EvSearchAndAddSong "Song C" "Artist Z" "Road Trip"
                    (Ret true);
                  EvSleep 2;
                  EvCloseBrowser (Ret tt)];
               Syncer.client := s'; Syncer.spotify_client := true |}).
Proof. eexists. vm_compute. reflexivity. Qed.

(** * The rest of the code: properties *)

(** ** spotify_client.py *)

Section MoreSpotifyFacts.

Variable sp : Spotipy.

Lemma while_results_outcome fuel : forall p tracks h r h',
  while_results sp fuel p tracks h = Some (r, h') ->
  exists evs,
    h' = h ++ evs
    /\ match r with
       | Ret _ => existsb raised evs = false
       | Raise e =>
           exists evs0 cursor,
             evs = evs0 ++ [EvNext cursor (Raise e)]
             /\ existsb raised evs0 = false
       end.
Proof.
  induction fuel as [|fuel IH]; intros p tracks h r h'; simpl;
    [discriminate|].
  assert (Hdone : ret (S:=Trace) (for_items (items p) tracks) h
                  = Some (r, h') ->
                  exists evs,
                    h' = h ++ evs
                    /\ match r with
                       | Ret _ => existsb raised evs = false
                       | Raise e =>
                           exists evs0 cursor,
                             evs = evs0 ++ [EvNext cursor (Raise e)]
                             /\ existsb raised evs0 = false
                       end).
  { unfold ret. intros [= <- <-]. exists []. now rewrite app_nil_r. }
  destruct (next p) as [cursor|]; [|exact Hdone].
  destruct (truthy cursor); [|exact Hdone].
  unfold bind, sp_next_page.
  destruct (sp_next sp h cursor) as [q|e] eqn:Hfetch.
  - intros Hrest. apply IH in Hrest. destruct Hrest as (evs & -> & Hevs).
    exists (EvNext cursor (Ret q) :: evs). rewrite <- app_assoc.
    split; [reflexivity|].
    destruct r as [ts|e].
    + simpl. exact Hevs.
    + destruct Hevs as (evs0 & c & -> & Hclean).
      exists (EvNext cursor (Ret q) :: evs0), c. split; [reflexivity|].
      simpl. exact Hclean.
  - intros [= <- <-]. exists [EvNext cursor (Raise e)].
    split; [reflexivity|]. exists [], cursor. split; reflexivity.
Qed.

Lemma while_results_endless fuel : forall p tracks h,
  endless sp ->
  truthy_opt (next p) = true ->
  while_results sp fuel p tracks h = None.
Proof.
  induction fuel as [|fuel IH]; intros p tracks h Hsp Hnext; simpl;
    [reflexivity|].
  destruct (next p) as [cursor|]; [|discriminate Hnext].
  simpl in Hnext. rewrite Hnext.
  unfold bind, sp_next_page.
  destruct (Hsp h cursor) as (q & -> & Hq).
  now apply IH.
Qed.

End MoreSpotifyFacts.

(** X1.  A read of the track pages is all or nothing: it sends Spotify
    requests only; when it returns a list no request has raised; when it
    raises, the exception is the one of its last request, all earlier
    requests having returned, and the tracks of the pages read so far are
    not returned. *)
Theorem get_playlist_tracks_all_or_nothing
  (sp : Spotipy) (fuel : nat) (playlist_id : string) (h h' : Trace)
  (r : result (list TrackInfo)) :
  get_playlist_tracks sp fuel playlist_id h = Some (r, h') ->
  exists evs,
    h' = h ++ evs
    /\ forallb is_spotify evs = true
    /\ match r with
       | Ret _ => existsb raised evs = false
       | Raise e =>
           exists evs0 ev,
             evs = evs0 ++ [ev]
             /\ failed_request playlist_id e ev
             /\ existsb raised evs0 = false
       end.
Proof.
  intros Hrun.
  destruct (get_playlist_tracks_events _ _ _ _ Hrun) as (evs & -> & Hsp & _).
  exists evs. split; [reflexivity|]. split; [exact Hsp|].
  revert Hrun. unfold get_playlist_tracks. rewrite try_except_reraise.
  unfold bind, playlist_tracks.
  destruct (sp_playlist_tracks sp h playlist_id) as [first|e] eqn:Hfirst.
  - intros Hrest. apply while_results_outcome in Hrest.
    destruct Hrest as (evs' & Heq & Hout).
    rewrite <- app_assoc in Heq. apply app_inv_head in Heq. subst evs.
    destruct r as [ts|e].
    + simpl. exact Hout.
    + destruct Hout as (evs0 & c & -> & Hclean).
      exists (EvPlaylistTracks playlist_id (Ret first) :: evs0).
      exists (EvNext c (Raise e)).
      split; [reflexivity|]. split; [right; eauto|exact Hclean].
  - intros [= <- Heq]. apply app_inv_head in Heq. subst evs.
    exists [], (EvPlaylistTracks playlist_id (Raise e)).
    split; [reflexivity|]. split; [now left|reflexivity].
Qed.

Lemma get_playlist_tracks_all_or_nothing_witness :
  exists evs,
    [EvPlaylistTracks "p" (Ret Examples.page1);
     EvNext "https://api.spotify.com/v1/playlists/p/tracks?offset=3"
            (Raise Examples.not_found)] = [] ++ evs
    /\ forallb is_spotify evs = true
    /\ exists evs0 ev,
         evs = evs0 ++ [ev]
         /\ failed_request "p" Examples.not_found ev
         /\ existsb raised evs0 = false.
Proof.
  exact (@get_playlist_tracks_all_or_nothing More_examples.sp_broken_page
           5 "p" [] _ (Raise Examples.not_found) eq_refl).
Defined.

(** X2.  The read has no bound of its own on the number of pages: against a
    source whose every page carries a further cursor it does not return,
    whatever the fuel. *)
Theorem get_playlist_tracks_endless_source
  (sp : Spotipy) (playlist_id : string) (h : Trace) (first : Page) :
  endless sp ->
  sp_playlist_tracks sp h playlist_id = Ret first ->
  truthy_opt (next first) = true ->
  forall fuel, get_playlist_tracks sp fuel playlist_id h = None.
Proof.
  intros Hsp Hfirst Hnext fuel.
  unfold get_playlist_tracks. rewrite try_except_reraise.
  unfold bind, playlist_tracks. rewrite Hfirst.
  now apply while_results_endless.
Qed.

Lemma get_playlist_tracks_endless_source_witness :
  get_playlist_tracks More_examples.sp_loop 1000 "p" [] = None.
Proof.
  refine (@get_playlist_tracks_endless_source More_examples.sp_loop "p" []
            More_examples.looping_page _ eq_refl eq_refl 1000).
  intros h cursor. exists More_examples.looping_page. split; reflexivity.
Defined.

(** ** syncer.py: the reads *)

Lemma preview_sync_inv {session : Type} (sp : Spotipy)
  (config : Syncer.Config) (fuel : nat) (w w1 : @Syncer.World session)
  info tracks :
  Syncer.preview_sync sp config fuel w
    = Some (Ret (Syncer.Info info, tracks), w1) ->
  client_built sp config w = true
  /\ exists h1,
       get_playlist_info sp (Syncer.spotify_playlist_id config)
         (Syncer.trace w) = Some (Ret info, h1)
       /\ get_playlist_tracks sp fuel (Syncer.spotify_playlist_id config) h1
          = Some (Ret tracks, Syncer.trace w1)
       /\ Syncer.client w1 = Syncer.client w.
Proof.
  destruct (client_built sp config w) eqn:Hbuilt;
    [|rewrite preview_sync_not_built by exact Hbuilt; discriminate].
  rewrite preview_sync_built by exact Hbuilt.
  unfold try_except, bind, Syncer.spotify, ret, built.
  cbn [Syncer.trace Syncer.client Syncer.spotify_client].
  destruct (get_playlist_info sp (Syncer.spotify_playlist_id config)
              (Syncer.trace w)) as [[[i|e] h1]|] eqn:Hinfo;
    try discriminate.
  cbn [Syncer.trace Syncer.client Syncer.spotify_client].
  destruct (get_playlist_tracks sp fuel (Syncer.spotify_playlist_id config)
              h1) as [[[ts|e] h2]|] eqn:Htracks; try discriminate.
  intros [= <- <- <-]. split; [reflexivity|]. exists h1.
  split; [reflexivity|split; [exact Htracks|reflexivity]].
Qed.

(** X3.  [preview_sync] is a pure read: it leaves the client untouched and
    sends Spotify requests only, none at all when the Spotify client cannot
    be built; a run that returns gives the empty pair exactly when the
    construction of the Spotify client or one of the requests raised, and a
    playlist's information otherwise. *)
Theorem preview_sync_reads_only
  (session : Type) (sp : Spotipy) (config : Syncer.Config) (fuel : nat)
  (w w' : @Syncer.World session)
  (r : result (Syncer.InfoDict * list TrackInfo)) :
  Syncer.preview_sync sp config fuel w = Some (r, w') ->
  Syncer.client w' = Syncer.client w
  /\ exists evs,
       Syncer.trace w' = Syncer.trace w ++ evs
       /\ forallb is_spotify evs = true
       /\ (if negb (client_built sp config w) || existsb raised evs
           then r = Ret (Syncer.EmptyDict, [])
           else exists info tracks, r = Ret (Syncer.Info info, tracks))
       /\ (client_built sp config w = false -> evs = []).
Proof.
  destruct (client_built sp config w) eqn:Hbuilt.
  2:{ rewrite preview_sync_not_built by exact Hbuilt.
      intros [= <- <-]. split; [reflexivity|]. exists [].
      rewrite app_nil_r. repeat split. }
  rewrite preview_sync_built by exact Hbuilt.
  intros Hrun.
  destruct (get_playlist_info_events sp (Syncer.spotify_playlist_id config)
              (Syncer.trace w)) as (ri & Hinfo & Hri).
  unfold try_except, bind, Syncer.spotify, ret, built in Hrun.
  cbn [Syncer.trace Syncer.client Syncer.spotify_client] in Hrun.
  rewrite Hinfo in Hrun.
  cbn [Syncer.trace Syncer.client Syncer.spotify_client] in Hrun.
  cbn [negb orb].
  destruct (sp_playlist sp (Syncer.trace w)
              (Syncer.spotify_playlist_id config)) as [pl|e0];
    destruct ri as [info|e]; try discriminate Hri.
  - destruct (get_playlist_tracks sp fuel (Syncer.spotify_playlist_id config)
                (Syncer.trace w
                   ++ [EvPlaylist (Syncer.spotify_playlist_id config)
                         (Ret pl)]))
      as [[rt h2]|] eqn:Htracks; [|discriminate Hrun].
    destruct (get_playlist_tracks_events _ _ _ _ Htracks)
      as (evs & -> & Hsp & Hraised).
    rewrite <- raised_spotify in Hraised by exact Hsp.
    assert (Hw' : Syncer.client w' = Syncer.client w
                  /\ Syncer.trace w'
                     = Syncer.trace w
                       ++ EvPlaylist (Syncer.spotify_playlist_id config)
                            (Ret pl) :: evs).
    { destruct rt; injection Hrun as _ <-; cbn [Syncer.trace Syncer.client];
        rewrite <- app_assoc; split; reflexivity. }
    destruct Hw' as [Hclient Htrace].
    split; [exact Hclient|].
    exists (EvPlaylist (Syncer.spotify_playlist_id config) (Ret pl) :: evs).
    split; [exact Htrace|]. split; [exact Hsp|].
    split; [|discriminate].
    simpl. rewrite Hraised.
    destruct rt as [tracks|e]; injection Hrun as <- _; simpl; eauto.
  - injection Hrun as <- <-. cbn [Syncer.trace Syncer.client].
    split; [reflexivity|]. eexists. split; [reflexivity|].
    split; [reflexivity|]. split; [reflexivity|discriminate].
Qed.

Lemma preview_sync_reads_only_witness :
  exists evs,
    @nil Event = [] ++ evs
    /\ forallb is_spotify evs = true
    /\ (if negb (client_built Examples.sp_two_pages
                   Examples.config_no_redirect (Examples.start tt))
           || existsb raised evs
        then Ret (Syncer.EmptyDict, @nil TrackInfo)
             = Ret (Syncer.EmptyDict, [])
        else exists info tracks,
               Ret (Syncer.EmptyDict, @nil TrackInfo)
               = Ret (Syncer.Info info, tracks))
    /\ (client_built Examples.sp_two_pages Examples.config_no_redirect
          (Examples.start tt) = false -> evs = []).
Proof.
  exact (proj2 (@preview_sync_reads_only unit Examples.sp_two_pages
                  Examples.config_no_redirect 5 (Examples.start tt) _ _
                  eq_refl)).
Defined.

(** X4.  [get_spotify_playlist_info] never raises and leaves the client
    untouched.  When the Spotify client cannot be built it returns the empty
    dictionary and sends nothing; otherwise it sends the one playlist
    request and returns the playlist's information, or the empty dictionary
    exactly when that request raised. *)
Theorem get_spotify_playlist_info_one_request
  (session : Type) (sp : Spotipy) (config : Syncer.Config)
  (w : @Syncer.World session) :
  (client_built sp config w = false ->
   Syncer_info.get_spotify_playlist_info sp config w
   = Some (Ret Syncer.EmptyDict, w))
  /\ (client_built sp config w = true ->
      exists d,
        Syncer_info.get_spotify_playlist_info sp config w
        = Some (Ret d,
                {| Syncer.trace :=
                     Syncer.trace w
                     ++ [EvPlaylist (Syncer.spotify_playlist_id config)
                           (sp_playlist sp (Syncer.trace w)
                              (Syncer.spotify_playlist_id config))];
                   Syncer.client := Syncer.client w;
                   Syncer.spotify_client := true |})
        /\ match sp_playlist sp (Syncer.trace w)
                   (Syncer.spotify_playlist_id config) with
           | Ret pl =>
               exists info,
                 d = Syncer.Info info /\ info_name info = playlist_name pl
                 /\ info_owner info = playlist_owner_display_name pl
                 /\ info_total_tracks info = playlist_tracks_total pl
           | Raise _ => d = Syncer.EmptyDict
           end).
Proof.
  split; intros Hbuilt.
  - destruct (@initialize_spotify_client_failed _ sp config w Hbuilt)
      as (e & _ & _ & Hinit).
    unfold Syncer_info.get_spotify_playlist_info, try_except.
    unfold bind at 1. rewrite Hinit. reflexivity.
  - unfold Syncer_info.get_spotify_playlist_info, try_except.
    unfold bind at 1.
    rewrite initialize_spotify_client_built by exact Hbuilt.
    unfold Syncer.spotify, get_playlist_info, playlist, built.
    unfold try_except, bind, ret, raise. cbv beta.
    cbn [Syncer.trace Syncer.client Syncer.spotify_client].
    destruct (sp_playlist sp (Syncer.trace w)
                (Syncer.spotify_playlist_id config)) as [pl|e];
      eexists; (split; [reflexivity|]).
    + eexists. repeat split.
    + reflexivity.
Qed.

Lemma get_spotify_playlist_info_one_request_witness :
  Syncer_info.get_spotify_playlist_info Examples.sp_two_pages
    Examples.config_no_redirect (Examples.start tt)
  = Some (Ret Syncer.EmptyDict, Examples.start tt)
  /\ exists d,
       Syncer_info.get_spotify_playlist_info Examples.sp_two_pages
         Examples.config0 (Examples.start tt)
       = Some (Ret d,
               {| Syncer.trace := [EvPlaylist "p" (Ret Examples.road_trip)];
                  Syncer.client := tt; Syncer.spotify_client := true |})
       /\ exists info, d = Syncer.Info info /\ info_name info = "Road Trip".
Proof.
  split.
  - apply (proj1 (@get_spotify_playlist_info_one_request unit
                    Examples.sp_two_pages Examples.config_no_redirect
                    (Examples.start tt))).
    reflexivity.
  - destruct (proj2 (@get_spotify_playlist_info_one_request unit
                       Examples.sp_two_pages Examples.config0
                       (Examples.start tt)) eq_refl)
      as (d & Hrun & info & Hd & Hname & _).
    exists d. split; [exact Hrun|]. exists info. split; assumption.
Defined.

(** ** ug_client.py *)

Section MoreUgFacts.

Import Ug_client.

Variable pw : Playwright.

(** X5.  On a client object without page (one that was not started, or
    whose start failed) every operation gives up at once: [login],
    [create_playlist] and [search_and_add_song] return [False],
    [get_existing_playlists] returns the empty list, and no call reaches the
    browser. *)
Theorem operations_need_a_page
  (username password song_name artist_name playlist_name description : string)
  (s : Client) :
  page s = false ->
  login pw username password s = (Ret false, s)
  /\ get_existing_playlists pw s = (Ret [], s)
  /\ create_playlist pw playlist_name description s = (Ret false, s)
  /\ search_and_add_song pw song_name artist_name playlist_name s
     = (Ret false, s).
Proof.
  intros Hpage.
  unfold login, get_existing_playlists, create_playlist, search_and_add_song,
    atry_except, abind, aret, goto, on_page.
  rewrite Hpage. repeat split.
Qed.

(** X6.  [start_browser] sets an attribute only for a step that went
    through.  When it returns, the three start-up calls were made in order
    and [playwright], [browser] and [page] are set; when it raises, the
    exception is that of the step that failed, no later call is made, none
    of the calls closes anything, and the attributes of the steps before it
    stay set. *)
Theorem start_browser_outcomes (headless : bool) (s : Client) :
  match start_browser pw headless s with
  | (Ret _, s') =>
      calls s' = calls s ++ [PlaywrightStart; ChromiumLaunch headless; NewPage]
      /\ playwright s' = true /\ browser s' = true /\ page s' = true
  | (Raise e, s') =>
      (pw_do pw (calls s) PlaywrightStart = Raise e
       /\ calls s' = calls s ++ [PlaywrightStart]
       /\ same_attributes s s')
      \/ (pw_do pw (calls s ++ [PlaywrightStart]) (ChromiumLaunch headless)
          = Raise e
          /\ calls s' = calls s ++ [PlaywrightStart; ChromiumLaunch headless]
          /\ playwright s' = true /\ browser s' = browser s
          /\ page s' = page s)
      \/ (pw_do pw (calls s ++ [PlaywrightStart; ChromiumLaunch headless])
            NewPage = Raise e
          /\ calls s' = calls s ++ [PlaywrightStart; ChromiumLaunch headless;
                                    NewPage]
          /\ playwright s' = true /\ browser s' = true /\ page s' = page s)
  end.
Proof.
  unfold start_browser, atry_except, abind, araise, perform, set_playwright,
    set_browser, set_page, same_attributes.
  destruct s as [pl br pg h]. simpl.
  destruct (pw_do pw h PlaywrightStart) as [[]|e1] eqn:H1; simpl;
    [|left; repeat split].
  destruct (pw_do pw (h ++ [PlaywrightStart]) (ChromiumLaunch headless))
    as [[]|e2] eqn:H2; simpl;
    [|right; left; rewrite <- ?app_assoc; repeat split].
  rewrite <- ?app_assoc. simpl.
  destruct (pw_do pw (h ++ [PlaywrightStart; ChromiumLaunch headless]) NewPage)
    as [[]|e3] eqn:H3; simpl; rewrite <- ?app_assoc; simpl.
  - repeat split.
  - right. right. repeat split.
Qed.

(** X7.  [close_browser] never raises and leaves the attributes as they
    are.  It closes the browser only if one is set and stops Playwright only
    if it was started; when closing the browser raises, Playwright is not
    stopped. *)
Theorem close_browser_calls (s : Client) :
  exists s',
    close_browser pw s = (Ret tt, s')
    /\ same_attributes s s'
    /\ calls s' = calls s ++ closing_calls pw s.
Proof.
  unfold close_browser, atry_except, abind, aret, perform, record,
    same_attributes, closing_calls.
  destruct s as [pl br pg h]. simpl.
  destruct br, pl; simpl;
    repeat match goal with
           | |- context [match pw_do pw ?h0 ?c with _ => _ end] =>
               destruct (pw_do pw h0 c) as [[]|?]; simpl
           end;
    eexists; rewrite <- ?app_assoc, ?app_nil_r; repeat split.
Qed.

End MoreUgFacts.

Lemma operations_need_a_page_witness :
  Ug_client.login Examples.pw_site "user" "pass" Examples.fresh
  = (Ret false, Examples.fresh)
  /\ Ug_client.search_and_add_song Examples.pw_site "Song A" "Artist X"
       "Road Trip" Examples.fresh
     = (Ret false, Examples.fresh).
Proof.
  destruct (@operations_need_a_page Examples.pw_site "user" "pass" "Song A"
              "Artist X" "Road Trip" "" Examples.fresh eq_refl)
    as (Hlogin & _ & _ & Hattach).
  split; assumption.
Defined.

(** *** [str.strip] *)

Lemma rstrip_idem s : rstrip (rstrip s) = rstrip s.
Proof.
  induction s as [|c s IH]; [reflexivity|].
  cbn [rstrip]. destruct (rstrip s) as [|d r] eqn:Hr.
  - destruct (isspace c) eqn:Hc; [reflexivity|].
    cbn [rstrip]. now rewrite Hc.
  - remember (String d r) as t eqn:Ht. cbn [rstrip]. rewrite IH.
    subst t. reflexivity.
Qed.

Lemma lstrip_idem s : lstrip (lstrip s) = lstrip s.
Proof.
  induction s as [|c s IH]; [reflexivity|].
  cbn [lstrip]. destruct (isspace c) eqn:Hc; [exact IH|].
  cbn [lstrip]. now rewrite Hc.
Qed.

Lemma rstrip_lstrip t : rstrip t = t -> rstrip (lstrip t) = lstrip t.
Proof.
  induction t as [|c t IH]; [reflexivity|].
  intros Hfix. cbn [lstrip]. destruct (isspace c) eqn:Hc; [|exact Hfix].
  apply IH. cbn [rstrip] in Hfix.
  destruct (rstrip t) as [|d r].
  - rewrite Hc in Hfix. discriminate Hfix.
  - now injection Hfix.
Qed.

Lemma strip_idem s : strip (strip s) = strip s.
Proof.
  unfold strip.
  rewrite (@rstrip_lstrip (rstrip s) (rstrip_idem s)).
  apply lstrip_idem.
Qed.

Section MoreUgFacts2.

Import Ug_client.

Variable pw : Playwright.

Ltac answers :=
  repeat match goal with
         | |- context [match pw_do pw ?h0 ?c with _ => _ end] =>
             destruct (pw_do pw h0 c) as [[]|?] eqn:?; simpl
         | |- context [match pw_query_selector pw ?h0 ?c with _ => _ end] =>
             destruct (pw_query_selector pw h0 c) as [[?|]|?] eqn:?; simpl
         end.

Ltac replay :=
  simpl;
  repeat match goal with
         | H : pw_do pw _ _ = _ |- _ => rewrite H; clear H; simpl
         | H : pw_query_selector pw _ _ = _ |- _ => rewrite H; clear H; simpl
         end.

Ltac unfold_methods :=
  unfold atry_except, abind, aret, goto, wait_for_selector, fill, click,
    wait_for_timeout, query_selector, query_selector_all, element_click,
    element_fill, text_content, on_page, perform, record, same_attributes;
  simpl.

(** X8.  [create_playlist] is optimistic: on a started client it returns
    [True] exactly when none of the browser calls it made raised, without
    reading anything back from the page.  It never raises, leaves the
    attributes alone, starts by opening the playlists page, and fills no
    description when the description is empty. *)
Theorem create_playlist_is_optimistic
  (playlist_name description : string) (s : Client) :
  page s = true ->
  exists new,
    calls (snd (create_playlist pw playlist_name description s))
      = calls s ++ Goto playlists_url :: new
    /\ same_attributes s (snd (create_playlist pw playlist_name description s))
    /\ fst (create_playlist pw playlist_name description s)
       = Ret (none_raises pw (calls s) (Goto playlists_url :: new))
    /\ (truthy description = false -> existsb is_element_fill new = false).
Proof.
  destruct s as [pl br pg h]. simpl. intros ->.
  unfold create_playlist, playlists_url. unfold_methods.
  destruct (truthy description) eqn:Hdesc; answers;
    eexists;
    (split; [rewrite <- ?app_assoc; simpl; reflexivity|]);
    (split; [repeat split|]);
    (split; [replay; reflexivity|]);
    intros Hno; try discriminate Hno; reflexivity.
Qed.

(** X9.  [search_and_add_song] returns [True] only after the whole attach
    sequence: the ten browser calls of [attach_steps], none of which
    raised, ending with the click on the element that the query for the
    target playlist returned.  When the search shows no result link it
    returns [False] after three calls, none of them a click. *)
Theorem search_and_add_song_clicks_the_playlist
  (song_name artist_name playlist_name : string) (s : Client) :
  (fst (search_and_add_song pw song_name artist_name playlist_name s)
   = Ret true ->
   exists first add target,
     calls (snd (search_and_add_song pw song_name artist_name playlist_name s))
       = calls s ++ attach_steps song_name artist_name playlist_name
                      first add target
     /\ none_raises pw (calls s)
          (attach_steps song_name artist_name playlist_name first add target)
        = true
     /\ pw_query_selector pw
          (calls s ++ firstn 8 (attach_steps song_name artist_name
                                  playlist_name first add target))
          (option_selector playlist_name)
        = Ret (Some target))
  /\ (page s = true ->
      pw_query_selector pw
        (calls s
           ++ [Goto (search_url song_name artist_name);
               WaitForSelector ".js-search-results, .search-results" 10000])
        results_selector = Ret None ->
      fst (search_and_add_song pw song_name artist_name playlist_name s)
        = Ret false
      /\ exists new,
           calls (snd (search_and_add_song pw song_name artist_name
                         playlist_name s))
             = calls s ++ new
           /\ length new <= 3
           /\ existsb is_click new = false).
Proof.
  destruct s as [pl br pg h].
  unfold search_and_add_song, attach_steps, search_url, results_selector,
    add_selector, option_selector.
  unfold_methods. split.
  - destruct pg; simpl; [|discriminate].
    answers; intros Htrue; try discriminate Htrue.
    do 3 eexists.
    split; [rewrite <- ?app_assoc; simpl; reflexivity|].
    split; [replay; reflexivity|].
    rewrite <- ?app_assoc in *. simpl in *. assumption.
  - intros -> Hnone. simpl.
    destruct (pw_do pw h _) as [[]|?] eqn:Hgoto; simpl.
    + destruct (pw_do pw (h ++ _) _) as [[]|?] eqn:Hwait; simpl.
      * rewrite <- ?app_assoc. simpl. rewrite Hnone. simpl.
        split; [reflexivity|]. eexists.
        split; [rewrite <- ?app_assoc; simpl; reflexivity|].
        split; [simpl; lia|reflexivity].
      * split; [reflexivity|]. eexists.
        split; [rewrite <- ?app_assoc; simpl; reflexivity|].
        split; [simpl; lia|reflexivity].
    + split; [reflexivity|]. eexists.
      split; [reflexivity|]. split; [simpl; lia|reflexivity].
Qed.

Lemma for_elements_stripped els : forall playlists s names,
  Forall stripped playlists ->
  fst (for_elements pw els playlists s) = Ret names ->
  Forall stripped names.
Proof.
  induction els as [|el els IH]; intros playlists s names Hacc; simpl.
  - unfold aret. simpl. now intros [= <-].
  - unfold abind, text_content.
    destruct (pw_text_content pw (calls s) el) as [[t|]|e]; simpl;
      try discriminate.
    + destruct (truthy t).
      * apply IH. apply Forall_app. split; [exact Hacc|].
        constructor; [apply strip_idem|constructor].
      * now apply IH.
    + now apply IH.
Qed.

Lemma get_existing_playlists_stripped (s : Client) names :
  fst (get_existing_playlists pw s) = Ret names ->
  Forall stripped names.
Proof.
  unfold get_existing_playlists. unfold_methods.
  destruct (page s); simpl; [|intros [= <-]; constructor].
  destruct (pw_do pw (calls s) _) as [[]|?]; simpl;
    [|intros [= <-]; constructor].
  destruct (pw_do pw _ _) as [[]|?]; simpl; [|intros [= <-]; constructor].
  destruct (pw_query_selector_all pw _ _) as [els|?]; simpl;
    [|intros [= <-]; constructor].
  match goal with
  | |- context [for_elements pw els [] ?st] =>
      pose proof (@for_elements_stripped els [] st) as Hfor;
      destruct (for_elements pw els [] st) as [[l|e] st']; simpl in *
  end.
  - intros [= <-]. apply (Hfor l); [constructor|reflexivity].
  - intros [= <-]. constructor.
Qed.

(** X10.  Every name [get_existing_playlists] returns is free of leading
    and trailing whitespace. *)
Theorem get_existing_playlists_names_are_trimmed (s : Client) :
  exists names,
    fst (get_existing_playlists pw s) = Ret names
    /\ Forall stripped names.
Proof.
  destruct (get_existing_playlists_returns pw s) as [names Hnames].
  exists names. split; [exact Hnames|].
  exact (get_existing_playlists_stripped s Hnames).
Qed.

End MoreUgFacts2.

Lemma create_playlist_is_optimistic_witness :
  fst (Ug_client.create_playlist Examples.pw_site "Road Trip" ""
         Examples.started) = Ret true
  /\ fst (Ug_client.create_playlist Examples.pw_no_form "Road Trip" ""
            Examples.started) = Ret false.
Proof.
  split.
  - destruct (@create_playlist_is_optimistic Examples.pw_site "Road Trip" ""
                Examples.started eq_refl)
      as (new & Hcalls & _ & Hres & _).
    rewrite Hres. vm_compute in Hcalls. injection Hcalls as <-.
    reflexivity.
  - destruct (@create_playlist_is_optimistic Examples.pw_no_form "Road Trip"
                "" Examples.started eq_refl)
      as (new & Hcalls & _ & Hres & _).
    rewrite Hres. vm_compute in Hcalls. injection Hcalls as <-.
    reflexivity.
Defined.

Lemma search_and_add_song_clicks_the_playlist_witness :
  exists first add target,
    Ug_client.calls
      (snd (Ug_client.search_and_add_song Examples.pw_site "Song A"
              "Artist X" "Road Trip" Examples.started))
    = [] ++ attach_steps "Song A" "Artist X" "Road Trip" first add target.
Proof.
  destruct (proj1 (@search_and_add_song_clicks_the_playlist Examples.pw_site
                     "Song A" "Artist X" "Road Trip" Examples.started)
              eq_refl)
    as (first & add & target & Hcalls & _).
  exists first, add, target. exact Hcalls.
Defined.

(** ** syncer.py: the session *)

Section SessionFacts.

Context {session : Type}.
Variable ug : UGClient session.

Lemma loop_events_no_lifecycle pl tracks outs :
  existsb is_lifecycle (loop_events pl tracks outs) = false.
Proof.
  apply loop_events_pred; [|reflexivity].
  intros [] Hev; try discriminate Hev; reflexivity.
Qed.

Lemma session_run_no_lifecycle pl description tracks body r :
  session_run ug pl description tracks body r ->
  existsb is_lifecycle body = false.
Proof.
  intros Hrun. inversion Hrun; subst; try reflexivity.
  simpl. rewrite existsb_app, loop_events_no_lifecycle.
  destruct (str_in pl names); reflexivity.
Qed.

Lemma loop_events_no_create pl tracks outs :
  filter is_create (loop_events pl tracks outs) = [].
Proof.
  revert outs. induction tracks as [|track rest IH]; intros [|r outs];
    try reflexivity.
  simpl. destruct r; simpl; apply IH.
Qed.

Lemma with_run_create_once pl description tracks evs r :
  with_run ug pl description tracks evs r ->
  length (filter is_create evs) <= 1
  /\ forall n d rc, In (EvCreatePlaylist n d rc) evs -> d = description.
Proof.
  intros Hrun. split.
  - inversion Hrun as [e|body r0 rc Hbody Hclose]; subst; [simpl; lia|].
    simpl. rewrite filter_app. simpl. rewrite app_nil_r.
    inversion Hbody; subst; simpl; try lia.
    rewrite filter_app, loop_events_no_create.
    destruct (str_in pl names); simpl; lia.
  - intros n d rc Hin.
    now destruct (with_run_creates_when_absent _ _ _ Hrun Hin) as (_ & -> & _).
Qed.

Lemma with_run_attach_needs_login pl description tracks evs r :
  with_run ug pl description tracks evs r ->
  existsb is_attach evs = true ->
  In (EvLogin (Ret true)) evs
  /\ exists names,
       In (EvGetExistingPlaylists (Ret names)) evs
       /\ (In pl names \/ In (EvCreatePlaylist pl description (Ret true)) evs).
Proof.
  intros Hrun Hattach.
  inversion Hrun as [e|body r0 rc Hbody Hclose]; subst;
    [discriminate Hattach|].
  simpl in Hattach. rewrite existsb_app in Hattach. simpl in Hattach.
  rewrite orb_false_r in Hattach.
  inversion Hbody; subst; try discriminate Hattach.
  split; [simpl; tauto|].
  exists names. split; [simpl; tauto|].
  destruct (str_in pl names) eqn:Hin.
  - left. now apply str_in_spec.
  - right. simpl. right. right. right. left. reflexivity.
Qed.

Lemma with_run_attach_calls pl description tracks evs r :
  with_run ug pl description tracks evs r ->
  attach_calls evs = []
  \/ attach_calls evs
     = map (fun track => (name track, artist track, pl)) tracks.
Proof.
  intros Hrun.
  inversion Hrun as [e|body r0 rc Hbody Hclose]; subst; [now left|].
  change (EvStartBrowser (Ret tt) :: body ++ [EvCloseBrowser rc])
    with ([EvStartBrowser (Ret tt)] ++ body ++ [EvCloseBrowser rc]).
  rewrite !attach_calls_app. simpl. rewrite app_nil_r.
  inversion Hbody as [| | | | |names outs Hatt]; subst; try (now left).
  right. simpl. rewrite attach_calls_app.
  rewrite attach_calls_loop by exact (attempts_length Hatt).
  destruct (str_in pl names); reflexivity.
Qed.

Lemma total_pause_app xs ys :
  total_pause (xs ++ ys) = (total_pause xs + total_pause ys)%Z.
Proof.
  induction xs as [|ev xs IH]; simpl; [reflexivity|].
  destruct ev; rewrite ?IH; lia.
Qed.

Lemma total_pause_loop pl tracks : forall outs,
  length outs = length tracks ->
  total_pause (loop_events pl tracks outs) = (2 * Z.of_nat (returned outs))%Z.
Proof.
  unfold returned.
  induction tracks as [|track rest IH]; intros [|r outs] Hlen;
    try discriminate Hlen; [reflexivity|].
  cbn [loop_events iteration_events app total_pause].
  rewrite total_pause_app, IH by (simpl in Hlen; lia).
  destruct r; cbn [total_pause is_raise negb filter length];
    rewrite ?Nat2Z.inj_succ; lia.
Qed.

(** *** Where the recorded outcomes come from *)

Lemma extends_ret {A} (a : A) : extends_trace ug (ret a).
Proof.
  intros w r w' [= <- <-]. exists []. rewrite app_nil_r. split; constructor.
Qed.

Lemma extends_sleep n : extends_trace ug (Syncer.sleep n).
Proof.
  intros w r w' [= <- <-]. exists [EvSleep n]. split; [reflexivity|].
  repeat constructor.
Qed.

Lemma extends_call {A} (ev : result A -> Event) (m : Act session A) :
  (forall r, may_return m r -> justified ug (ev r)) ->
  extends_trace ug (Syncer.call ev m).
Proof.
  intros Hev w r w'. unfold Syncer.call.
  destruct (m (Syncer.client w)) as [r0 s] eqn:Hm. intros [= <- <-].
  exists [ev r0]. split; [reflexivity|].
  constructor; [|constructor]. apply Hev. exists (Syncer.client w).
  now rewrite Hm.
Qed.

Lemma extends_bind {A B} (m : Comp Syncer.World A)
  (k : A -> Comp Syncer.World B) :
  extends_trace ug m -> (forall a, extends_trace ug (k a)) ->
  extends_trace ug (bind m k).
Proof.
  intros Hm Hk w r w'. unfold bind.
  destruct (m w) as [[[a|e] w1]|] eqn:Hrun; [| |discriminate].
  - intros Hrest. destruct (Hm _ _ _ Hrun) as (evs1 & Ht1 & Hj1).
    destruct (Hk a _ _ _ Hrest) as (evs2 & Ht2 & Hj2).
    exists (evs1 ++ evs2). rewrite Ht2, Ht1, app_assoc.
    split; [reflexivity|]. apply Forall_app. now split.
  - intros [= <- <-]. exact (Hm _ _ _ Hrun).
Qed.

Lemma extends_try {A} (m : Comp Syncer.World A)
  (h : exn -> Comp Syncer.World A) :
  extends_trace ug m -> (forall e, extends_trace ug (h e)) ->
  extends_trace ug (try_except m h).
Proof.
  intros Hm Hh w r w'. unfold try_except.
  destruct (m w) as [[[a|e] w1]|] eqn:Hrun; [| |discriminate].
  - intros [= <- <-]. exact (Hm _ _ _ Hrun).
  - intros Hrest. destruct (Hm _ _ _ Hrun) as (evs1 & Ht1 & Hj1).
    destruct (Hh e _ _ _ Hrest) as (evs2 & Ht2 & Hj2).
    exists (evs1 ++ evs2). rewrite Ht2, Ht1, app_assoc.
    split; [reflexivity|]. apply Forall_app. now split.
Qed.

Lemma extends_attach_loop pl tracks : forall counters,
  extends_trace ug (Syncer.attach_loop ug pl tracks counters).
Proof.
  induction tracks as [|track rest IH]; intros counters; simpl.
  - apply extends_ret.
  - apply extends_bind; [|intros; apply IH].
    unfold Syncer.attach. destruct counters as [s f].
    apply extends_try; [|intros; apply extends_ret].
    apply extends_bind; [apply extends_call; intros r Hr; exact Hr|].
    intros success. apply extends_bind; [apply extends_sleep|].
    intros _. apply extends_ret.
Qed.

Lemma extends_async_with {A} (body : Comp Syncer.World A) :
  extends_trace ug body ->
  extends_trace ug (Syncer.async_with ug body).
Proof.
  intros Hbody. unfold Syncer.async_with.
  apply extends_bind.
  { intros w r w' [= <- <-]. exists []. simpl. rewrite app_nil_r.
    split; constructor. }
  intros _. apply extends_bind; [apply extends_call; intros r Hr; exact Hr|].
  intros _ w r w'.
  destruct (body w) as [[rb w1]|] eqn:Hrun; [|discriminate].
  destruct (Hbody _ _ _ Hrun) as (evs1 & Ht1 & Hj1).
  unfold bind, Syncer.call.
  destruct (ug_close_browser ug (Syncer.client w1)) as [rc s] eqn:Hclose.
  assert (Hjc : justified ug (EvCloseBrowser rc)).
  { exists (Syncer.client w1). now rewrite Hclose. }
  destruct rc as [[]|e]; intros [= <- <-]; simpl;
    eexists; (split; [rewrite Ht1, <- app_assoc; reflexivity|]);
    apply Forall_app; split; try assumption; repeat constructor; assumption.
Qed.

End SessionFacts.

Lemma extends_sync_tracks {session : Type}
  (UltimateGuitarClient : string -> string -> bool -> UGClient session)
  (config : Syncer.Config) info tracks pl :
  extends_trace (the_client UltimateGuitarClient config)
    (Syncer.sync_tracks UltimateGuitarClient config info tracks pl).
Proof.
  unfold Syncer.sync_tracks.
  change (UltimateGuitarClient (Syncer.ug_username config)
            (Syncer.ug_password config) (Syncer.headless_browser config))
    with (the_client UltimateGuitarClient config).
  set (ug := the_client UltimateGuitarClient config).
  assert (Hadd : extends_trace ug
            (bind (Syncer.attach_loop ug pl tracks (0, 0))
                  (fun counters => ret (0 <? fst counters)))).
  { apply extends_bind; [apply extends_attach_loop|].
    intros; apply extends_ret. }
  apply extends_async_with.
  apply extends_bind; [apply extends_call; intros r Hr; exact Hr|].
  intros [|]; simpl; [|apply extends_ret].
  apply extends_bind; [apply extends_call; intros r Hr; exact Hr|].
  intros names. destruct (negb (str_in pl names)); [|exact Hadd].
  apply extends_bind; [apply extends_call; intros r Hr; exact Hr|].
  intros [|]; simpl; [exact Hadd|apply extends_ret].
Qed.

(** ** syncer.py: properties of a run *)

(** X11.  The browser session is released on every path of a run whose
    Spotify client was built and whose reads returned.  Once
    [start_browser] has returned, [close_browser] is called exactly once, as
    the last event of the run, whether the block ended by an early
    [return False], by an exception or normally; when [start_browser]
    raises, it is the only call made on the client and [close_browser] is
    not called. *)
Theorem sync_playlist_closes_the_session
  (session : Type) (sp : Spotipy)
  (UltimateGuitarClient : string -> string -> bool -> UGClient session)
  (config : Syncer.Config) (fuel : nat) (target : option string)
  (w : @Syncer.World session) info h1 tracks h2 :
  client_built sp config w = true ->
  get_playlist_info sp (Syncer.spotify_playlist_id config) (Syncer.trace w)
    = Some (Ret info, h1) ->
  get_playlist_tracks sp fuel (Syncer.spotify_playlist_id config) h1
    = Some (Ret tracks, h2) ->
  exists evs b s',
    Syncer.sync_playlist sp UltimateGuitarClient config fuel target w
    = Some (Ret b, {| Syncer.trace := h2 ++ evs; Syncer.client := s';
                      Syncer.spotify_client := true |})
    /\ ((exists e, evs = [EvStartBrowser (Raise e)] /\ b = false)
        \/ (exists body rc,
              evs = EvStartBrowser (Ret tt) :: body ++ [EvCloseBrowser rc]
              /\ existsb is_lifecycle body = false)).
Proof.
  intros Hbuilt Hinfo Htracks.
  destruct (sync_playlist_run sp UltimateGuitarClient config fuel target w
              Hbuilt Hinfo Htracks)
    as (evs & r & s' & Hwith & Hsync).
  exists evs, (bool_of r), s'. split; [exact Hsync|].
  inversion Hwith as [e|body r0 rc Hbody Hclose]; subst.
  - left. exists e. split; reflexivity.
  - right. exists body, rc. split; [reflexivity|].
    eapply session_run_no_lifecycle; eassumption.
Qed.

Lemma sync_playlist_closes_the_session_witness :
  exists evs b s',
    Syncer.sync_playlist Examples.sp_two_pages
      (Ug_client.UltimateGuitarClient Examples.pw_no_form)
      Examples.config0 2 None (Examples.start Examples.fresh)
    = Some (Ret b, {| Syncer.trace :=
                        [EvPlaylist "p" (Ret Examples.road_trip);
                         EvPlaylistTracks "p" (Ret Examples.page1);
                         EvNext
                           "https://api.spotify.com/v1/playlists/p/tracks?offset=3"
                           (Ret Examples.page2)] ++ evs;
                      Syncer.client := s';
                      Syncer.spotify_client := true |})
    /\ ((exists e, evs = [EvStartBrowser (Raise e)] /\ b = false)
        \/ (exists body rc,
              evs = EvStartBrowser (Ret tt) :: body ++ [EvCloseBrowser rc]
              /\ existsb is_lifecycle body = false)).
Proof.
  exact (@sync_playlist_closes_the_session _ Examples.sp_two_pages
           (Ug_client.UltimateGuitarClient Examples.pw_no_form)
           Examples.config0 2 None (Examples.start Examples.fresh)
           Examples.road_trip_info _ Examples.three_songs _
           eq_refl eq_refl eq_refl).
Defined.

(** X12.  With [UltimateGuitarClient], once the Spotify client is built
    and the reads have returned, a browser that was launched but whose page
    cannot be opened is left open: [start_browser] raises,
    [sync_playlist] returns [False], and neither the browser is closed nor
    Playwright stopped. *)
Theorem sync_playlist_leaves_launched_browser_open
  (sp : Spotipy) (pw : Ug_client.Playwright) (config : Syncer.Config)
  (fuel : nat) (target : option string)
  (w : @Syncer.World Ug_client.Client) info h1 tracks h2 e :
  client_built sp config w = true ->
  get_playlist_info sp (Syncer.spotify_playlist_id config) (Syncer.trace w)
    = Some (Ret info, h1) ->
  get_playlist_tracks sp fuel (Syncer.spotify_playlist_id config) h1
    = Some (Ret tracks, h2) ->
  all_succeed pw (Ug_client.calls (Syncer.client w))
    [Ug_client.PlaywrightStart;
     Ug_client.ChromiumLaunch (Syncer.headless_browser config)] = true ->
  Ug_client.pw_do pw
    (Ug_client.calls (Syncer.client w)
       ++ [Ug_client.PlaywrightStart;
           Ug_client.ChromiumLaunch (Syncer.headless_browser config)])
    Ug_client.NewPage = Raise e ->
  Syncer.sync_playlist sp (Ug_client.UltimateGuitarClient pw) config fuel
    target w
  = Some (Ret false,
          {| Syncer.trace := h2 ++ [EvStartBrowser (Raise e)];
             Syncer.client :=
               {| Ug_client.playwright := true;
                  Ug_client.browser := true;
                  Ug_client.page := false;
                  Ug_client.calls :=
                    Ug_client.calls (Syncer.client w)
                    ++ [Ug_client.PlaywrightStart;
                        Ug_client.ChromiumLaunch
                          (Syncer.headless_browser config);
                        Ug_client.NewPage] |};
             Syncer.spotify_client := true |}).
Proof.
  intros Hbuilt Hinfo Htracks Hstart Hpage.
  rewrite sync_playlist_built by exact Hbuilt.
  unfold try_except, bind, Syncer.spotify, built.
  cbn [Syncer.trace Syncer.client Syncer.spotify_client].
  rewrite Hinfo. cbn [Syncer.trace Syncer.client Syncer.spotify_client].
  rewrite Htracks.
  unfold Syncer.sync_tracks, Syncer.async_with, bind, ret,
    Syncer.call.
  cbn [Syncer.trace Syncer.client Syncer.spotify_client
       Ug_client.UltimateGuitarClient ug_new ug_start_browser].
  unfold Ug_client.start_browser, atry_except, abind, araise,
    Ug_client.perform, Ug_client.set_playwright, Ug_client.set_browser,
    Ug_client.set_page, Ug_client.record, Ug_client.init.
  simpl in Hstart. simpl.
  destruct (Ug_client.pw_do pw (Ug_client.calls (Syncer.client w))
              Ug_client.PlaywrightStart) as [[]|?]; [|discriminate Hstart].
  simpl.
  destruct (Ug_client.pw_do pw
              (Ug_client.calls (Syncer.client w) ++ [Ug_client.PlaywrightStart])
              (Ug_client.ChromiumLaunch (Syncer.headless_browser config)))
    as [[]|?]; [|discriminate Hstart].
  simpl. rewrite <- ?app_assoc. simpl. rewrite Hpage. simpl.
  rewrite <- ?app_assoc. reflexivity.
Qed.

Lemma sync_playlist_leaves_launched_browser_open_witness :
  Syncer.sync_playlist Examples.sp_two_pages
    (Ug_client.UltimateGuitarClient Browser_examples.pw_no_page)
    Examples.config0 2 None (Examples.start Examples.fresh)
  = Some (Ret false,
          {| Syncer.trace :=
               [EvPlaylist "p" (Ret Examples.road_trip);
                EvPlaylistTracks "p" (Ret Examples.page1);
                EvNext
                  "https://api.spotify.com/v1/playlists/p/tracks?offset=3"
                  (Ret Examples.page2)]
               ++ [EvStartBrowser (Raise Examples.site_error)];
             Syncer.client :=
               {| Ug_client.playwright := true;
                  Ug_client.browser := true;
                  Ug_client.page := false;
                  Ug_client.calls :=
                    [] ++ [Ug_client.PlaywrightStart;
                           Ug_client.ChromiumLaunch true;
                           Ug_client.NewPage] |};
             Syncer.spotify_client := true |}).
Proof.
  exact (@sync_playlist_leaves_launched_browser_open Examples.sp_two_pages
           Browser_examples.pw_no_page Examples.config0 2 None
           (Examples.start Examples.fresh) Examples.road_trip_info _
           Examples.three_songs _ Examples.site_error
           eq_refl eq_refl eq_refl eq_refl eq_refl).
Defined.

Lemma failed_read_clean evs :
  forallb is_spotify evs = true ->
  existsb raised_outside_loop evs = false ->
  existsb failed_read evs = false.
Proof.
  intros Hsp Hclean. rewrite <- raised_spotify in Hclean by exact Hsp.
  unfold failed_read. induction evs as [|ev evs IH]; [reflexivity|].
  simpl in *. apply andb_true_iff in Hsp. destruct Hsp as [Hev Hsp].
  apply orb_false_iff in Hclean. destruct Hclean as [Hr Hclean].
  rewrite Hr, andb_false_r. simpl. now apply IH.
Qed.

Lemma failed_read_none evs :
  existsb is_spotify evs = false -> existsb failed_read evs = false.
Proof.
  unfold failed_read. induction evs as [|ev evs IH]; [reflexivity|].
  simpl. intros H. apply orb_false_iff in H. destruct H as [-> Hrest].
  simpl. now apply IH.
Qed.

(** X13.  When a request to the source raises, nothing is done on the
    target: [sync_playlist] returns [False], the client is left as it was
    (the browser is never started) and the run consists of Spotify requests
    only. *)
Theorem sync_playlist_stops_at_a_failed_read
  (session : Type) (sp : Spotipy)
  (UltimateGuitarClient : string -> string -> bool -> UGClient session)
  (config : Syncer.Config) (fuel : nat) (target : option string)
  (w w' : @Syncer.World session) (r : result bool) :
  Syncer.sync_playlist sp UltimateGuitarClient config fuel target w
    = Some (r, w') ->
  exists evs,
    Syncer.trace w' = Syncer.trace w ++ evs
    /\ (existsb failed_read evs = true ->
        r = Ret false
        /\ forallb is_spotify evs = true
        /\ Syncer.client w' = Syncer.client w).
Proof.
  intros Hsync.
  destruct (sync_playlist_cases sp UltimateGuitarClient config fuel target w)
    as [[Hbuilt Hrun]
       |[(e & Hbuilt & Hrun)
        |(info & pobj & h1 & Hbuilt & -> & Hinfo
          & [[Htracks Hrun]
            |[(e & evs & Htracks & Hevs & Hrun)
             |(tracks & evs_read & evs & r0 & s' & Htracks & Hevs & Hwith
               & Hrun)]])]];
    rewrite Hrun in Hsync; try discriminate Hsync;
    injection Hsync as <- <-; cbn [Syncer.trace Syncer.client].
  - exists []. rewrite app_nil_r. split; [reflexivity|]. discriminate.
  - eexists. split; [reflexivity|]. intros _. repeat split.
  - exists ([EvPlaylist (Syncer.spotify_playlist_id config) (Ret pobj)]
              ++ evs).
    split; [now rewrite <- app_assoc|]. intros _.
    split; [reflexivity|]. split; [|reflexivity].
    simpl. apply Hevs.
  - exists ([EvPlaylist (Syncer.spotify_playlist_id config) (Ret pobj)]
              ++ evs_read ++ evs).
    split; [now rewrite <- !app_assoc|].
    rewrite !existsb_app.
    rewrite (failed_read_clean evs_read) by apply Hevs.
    rewrite (failed_read_none evs) by exact (with_run_no_spotify Hwith).
    discriminate.
Qed.

Lemma sync_playlist_stops_at_a_failed_read_witness :
  exists evs,
    [EvPlaylist "p" (Ret Examples.road_trip);
     EvPlaylistTracks "p" (Ret Examples.page1);
     EvNext "https://api.spotify.com/v1/playlists/p/tracks?offset=3"
            (Raise Examples.not_found)] = [] ++ evs
    /\ (existsb failed_read evs = true ->
        Ret false = Ret false
        /\ forallb is_spotify evs = true
        /\ Examples.fresh = Examples.fresh).
Proof.
  exact (@sync_playlist_stops_at_a_failed_read _ More_examples.sp_broken_page
           (Ug_client.UltimateGuitarClient Examples.pw_site)
           Examples.config0 5 None (Examples.start Examples.fresh) _ _
           eq_refl).
Defined.

(** X14.  A run whose Spotify client was built and whose reads returned
    calls [create_playlist] at most once, and the description it passes
    names the source playlist, also when a target name is given. *)
Theorem sync_playlist_creates_at_most_once
  (session : Type) (sp : Spotipy)
  (UltimateGuitarClient : string -> string -> bool -> UGClient session)
  (config : Syncer.Config) (fuel : nat) (target : option string)
  (w : @Syncer.World session) info h1 tracks h2 :
  client_built sp config w = true ->
  get_playlist_info sp (Syncer.spotify_playlist_id config) (Syncer.trace w)
    = Some (Ret info, h1) ->
  get_playlist_tracks sp fuel (Syncer.spotify_playlist_id config) h1
    = Some (Ret tracks, h2) ->
  exists evs b s',
    Syncer.sync_playlist sp UltimateGuitarClient config fuel target w
    = Some (Ret b, {| Syncer.trace := h2 ++ evs; Syncer.client := s';
                      Syncer.spotify_client := true |})
    /\ length (filter is_create evs) <= 1
    /\ (forall n d rc,
          In (EvCreatePlaylist n d rc) evs ->
          d = description_of info).
Proof.
  intros Hbuilt Hinfo Htracks.
  destruct (sync_playlist_run sp UltimateGuitarClient config fuel target w
              Hbuilt Hinfo Htracks)
    as (evs & r & s' & Hwith & Hsync).
  exists evs, (bool_of r), s'. split; [exact Hsync|].
  exact (with_run_create_once Hwith).
Qed.

Lemma sync_playlist_creates_at_most_once_witness :
  exists evs b s',
    Syncer.sync_playlist Examples.sp_two_pages
      (fun _ _ _ => Examples.ug_mock [] Examples.attach_script)
      Examples.config0 2 (Some "Car Songs") (Examples.start tt)
    = Some (Ret b, {| Syncer.trace :=
                        [EvPlaylist "p" (Ret Examples.road_trip);
                         EvPlaylistTracks "p" (Ret Examples.page1);
                         EvNext
                           "https://api.spotify.com/v1/playlists/p/tracks?offset=3"
                           (Ret Examples.page2)] ++ evs;
                      Syncer.client := s';
                      Syncer.spotify_client := true |})
    /\ length (filter is_create evs) <= 1
    /\ (forall n d rc,
          In (EvCreatePlaylist n d rc) evs ->
          d = "Synced from Spotify playlist: Road Trip").
Proof.
  exact (@sync_playlist_creates_at_most_once unit Examples.sp_two_pages
           (fun _ _ _ => Examples.ug_mock [] Examples.attach_script)
           Examples.config0 2 (Some "Car Songs") (Examples.start tt)
           Examples.road_trip_info _ Examples.three_songs _
           eq_refl eq_refl eq_refl).
Defined.

(** X15.  No song is attached before the target is ready: after the
    Spotify client was built and the reads returned, a run that calls
    [search_and_add_song] has logged in with success and has listed the
    playlists, and the target playlist was in that list or was created with
    success. *)
Theorem sync_playlist_attaches_after_login
  (session : Type) (sp : Spotipy)
  (UltimateGuitarClient : string -> string -> bool -> UGClient session)
  (config : Syncer.Config) (fuel : nat) (target : option string)
  (w : @Syncer.World session) info h1 tracks h2 :
  client_built sp config w = true ->
  get_playlist_info sp (Syncer.spotify_playlist_id config) (Syncer.trace w)
    = Some (Ret info, h1) ->
  get_playlist_tracks sp fuel (Syncer.spotify_playlist_id config) h1
    = Some (Ret tracks, h2) ->
  exists evs b s',
    Syncer.sync_playlist sp UltimateGuitarClient config fuel target w
    = Some (Ret b, {| Syncer.trace := h2 ++ evs; Syncer.client := s';
                      Syncer.spotify_client := true |})
    /\ (existsb is_attach evs = true ->
        In (EvLogin (Ret true)) evs
        /\ exists names,
             In (EvGetExistingPlaylists (Ret names)) evs
             /\ (In (Syncer.or_name target (info_name info)) names
                 \/ In (EvCreatePlaylist
                          (Syncer.or_name target (info_name info))
                          (description_of info) (Ret true)) evs)).
Proof.
  intros Hbuilt Hinfo Htracks.
  destruct (sync_playlist_run sp UltimateGuitarClient config fuel target w
              Hbuilt Hinfo Htracks)
    as (evs & r & s' & Hwith & Hsync).
  exists evs, (bool_of r), s'. split; [exact Hsync|].
  exact (with_run_attach_needs_login Hwith).
Qed.

Lemma sync_playlist_attaches_after_login_witness :
  exists evs b s',
    Syncer.sync_playlist Examples.sp_two_pages
      (fun _ _ _ => Examples.ug_mock [] Examples.attach_script)
      Examples.config0 2 None (Examples.start tt)
    = Some (Ret b, {| Syncer.trace :=
                        [EvPlaylist "p" (Ret Examples.road_trip);
                         EvPlaylistTracks "p" (Ret Examples.page1);
                         EvNext
                           "https://api.spotify.com/v1/playlists/p/tracks?offset=3"
                           (Ret Examples.page2)] ++ evs;
                      Syncer.client := s';
                      Syncer.spotify_client := true |})
    /\ In (EvLogin (Ret true)) evs.
Proof.
  destruct (@sync_playlist_attaches_after_login unit Examples.sp_two_pages
              (fun _ _ _ => Examples.ug_mock [] Examples.attach_script)
              Examples.config0 2 None (Examples.start tt)
              Examples.road_trip_info _ Examples.three_songs _
              eq_refl eq_refl eq_refl)
    as (evs & b & s' & Hrun & Hlogin).
  exists evs, b, s'. split; [exact Hrun|].
  apply Hlogin. vm_compute in Hrun. injection Hrun as _ <-. reflexivity.
Defined.

(** X16.  The fixed delays of the attach loop add up to two seconds for
    every call to [search_and_add_song] that returned; with
    [UltimateGuitarClient], whose calls always return, that is [2 * N] for
    [N] tracks, the last pause coming after the last track. *)
Theorem attach_loop_total_delay :
  (forall (session : Type) (ug : UGClient session) (pl : string)
          (tracks : list TrackInfo) (w : @Syncer.World session),
      exists outs w',
        Syncer.attach_loop ug pl tracks (0, 0) w
          = Some (Ret (succeeded outs, failed outs), w')
        /\ Syncer.trace w' = Syncer.trace w ++ loop_events pl tracks outs
        /\ total_pause (loop_events pl tracks outs)
           = (2 * Z.of_nat (returned outs))%Z)
  /\ (forall (pw : Ug_client.Playwright) (username password : string)
             (headless : bool) (pl : string) (tracks : list TrackInfo)
             (w : @Syncer.World Ug_client.Client),
        exists outs w',
          Syncer.attach_loop
            (Ug_client.UltimateGuitarClient pw username password headless)
            pl tracks (0, 0) w
            = Some (Ret (succeeded outs, failed outs), w')
          /\ Syncer.trace w' = Syncer.trace w ++ loop_events pl tracks outs
          /\ total_pause (loop_events pl tracks outs)
             = (2 * Z.of_nat (length tracks))%Z
          /\ (tracks <> [] ->
              exists before,
                loop_events pl tracks outs = before ++ [EvSleep 2])).
Proof.
  split.
  - intros session ug pl tracks w.
    destruct (attach_loop_spec ug pl tracks (0, 0) w)
      as (outs & s' & Hatt & Hrun).
    exists outs. eexists. split; [exact Hrun|].
    split; [reflexivity|].
    apply total_pause_loop. exact (attempts_length Hatt).
  - intros pw username password headless pl tracks w.
    destruct (attach_loop_spec
                (Ug_client.UltimateGuitarClient pw username password headless)
                pl tracks (0, 0) w)
      as (outs & s' & Hatt & Hrun).
    exists outs. eexists. split; [exact Hrun|].
    split; [reflexivity|].
    assert (Hret : forall r, In r outs -> is_raise r = false).
    { intros r Hin.
      destruct (attempts_in _ Hatt Hin) as (track & s & Hr). simpl in Hr.
      destruct (search_and_add_song_returns pw (name track) (artist track)
                  pl s) as [b Hb].
      rewrite Hb in Hr. now subst r. }
    pose proof (attempts_length Hatt) as Hlen.
    split.
    + rewrite total_pause_loop by exact Hlen. unfold returned.
      rewrite <- Hlen. do 2 f_equal.
      clear Hatt Hrun Hlen. induction outs as [|r outs IH]; [reflexivity|].
      simpl. rewrite (Hret r) by now left. simpl. f_equal.
      apply IH. intros r' Hin. apply Hret. now right.
    + intros Hne. clear Hrun Hatt.
      revert outs Hret Hlen.
      induction tracks as [|track rest IH]; intros outs Hret Hlen;
        [contradiction|].
      destruct outs as [|r outs]; [discriminate Hlen|].
      assert (Hr : is_raise r = false) by (apply Hret; now left).
      destruct r as [b|e]; [|discriminate Hr].
      destruct rest as [|track' rest'].
      * destruct outs; [|discriminate Hlen].
        exists [EvSearchAndAddSong (name track) (artist track) pl (Ret b)].
        reflexivity.
      * destruct (IH ltac:(discriminate) outs) as [before Hbefore].
        { intros r' Hin. apply Hret. now right. }
        { simpl in Hlen |- *. lia. }
        exists (EvSearchAndAddSong (name track) (artist track) pl (Ret b)
                  :: EvSleep 2 :: before).
        change (loop_events pl (track :: track' :: rest') (Ret b :: outs))
          with (EvSearchAndAddSong (name track) (artist track) pl (Ret b)
                  :: EvSleep 2 :: loop_events pl (track' :: rest') outs).
        rewrite Hbefore. reflexivity.
Qed.

Lemma attach_loop_total_delay_witness :
  exists outs w',
    Syncer.attach_loop
      (Ug_client.UltimateGuitarClient Examples.pw_site "user" "pass" true)
      "Road Trip" Examples.three_songs (0, 0)
      (Examples.start Examples.started)
    = Some (Ret (succeeded outs, failed outs), w')
    /\ total_pause (loop_events "Road Trip" Examples.three_songs outs) = 6%Z
    /\ exists before,
         loop_events "Road Trip" Examples.three_songs outs
         = before ++ [EvSleep 2].
Proof.
  destruct (proj2 attach_loop_total_delay Examples.pw_site "user" "pass" true
              "Road Trip" Examples.three_songs
              (Examples.start Examples.started))
    as (outs & w' & Hrun & _ & Hpause & Hlast).
  exists outs, w'. split; [exact Hrun|]. split; [exact Hpause|].
  apply Hlast. discriminate.
Defined.

Lemma with_run_lists_then_creates {session : Type} (ug : UGClient session)
  pl description tracks evs r names :
  with_run ug pl description tracks evs r ->
  In (EvGetExistingPlaylists (Ret names)) evs ->
  ~ In pl names ->
  exists rc, In (EvCreatePlaylist pl description rc) evs.
Proof.
  intros Hrun Hin Hout.
  assert (Hstr : forall names0,
            In (EvGetExistingPlaylists (Ret names))
               [EvLogin (Ret true); EvGetExistingPlaylists (Ret names0)] ->
            str_in pl names0 = false).
  { intros names0 [H|[H|[]]]; [discriminate H|].
    injection H as <-.
    destruct (str_in pl names0) eqn:Hs; [|reflexivity].
    apply str_in_spec in Hs. contradiction. }
  inversion Hrun as [e|body r0 rc Hbody Hclose]; subst.
  - destruct Hin as [H|[]]. discriminate H.
  - destruct Hin as [H|Hin]; [discriminate H|].
    apply in_app_or in Hin. destruct Hin as [Hin|[H|[]]]; [|discriminate H].
    inversion Hbody; subst.
    + destruct Hin as [H|[]]. discriminate H.
    + destruct Hin as [H|[]]. discriminate H.
    + destruct Hin as [H|[H|[]]]; discriminate H.
    + exists (Raise e). simpl. tauto.
    + exists (Ret false). simpl. tauto.
    + exists (Ret true).
      assert (Hno : str_in pl names0 = false).
      { simpl in Hin. destruct Hin as [Hl|[Hg|Hin]]; [discriminate Hl| |].
        - apply Hstr. right. left. exact Hg.
        - apply in_app_or in Hin. destruct Hin as [Hin|Hin].
          + destruct (str_in pl names0); [destruct Hin|reflexivity].
          + apply loop_events_kinds in Hin.
            destruct Hin as [Hk|Hk]; discriminate Hk. }
      rewrite Hno. simpl. tauto.
Qed.

(** X17.  With [UltimateGuitarClient] the listed names are trimmed while
    the target name is compared as given: a target name with leading or
    trailing whitespace is never found in the list, so every run that gets
    the list (the Spotify client being built and the reads having returned)
    goes on to create the playlist. *)
Theorem sync_playlist_padded_target_is_created_again
  (sp : Spotipy) (pw : Ug_client.Playwright) (config : Syncer.Config)
  (fuel : nat) (target : option string)
  (w : @Syncer.World Ug_client.Client) info h1 tracks h2 :
  client_built sp config w = true ->
  get_playlist_info sp (Syncer.spotify_playlist_id config) (Syncer.trace w)
    = Some (Ret info, h1) ->
  get_playlist_tracks sp fuel (Syncer.spotify_playlist_id config) h1
    = Some (Ret tracks, h2) ->
  ~ stripped (Syncer.or_name target (info_name info)) ->
  exists evs b s',
    Syncer.sync_playlist sp (Ug_client.UltimateGuitarClient pw) config fuel
      target w
    = Some (Ret b, {| Syncer.trace := h2 ++ evs; Syncer.client := s';
                      Syncer.spotify_client := true |})
    /\ (forall names,
          In (EvGetExistingPlaylists (Ret names)) evs ->
          ~ In (Syncer.or_name target (info_name info)) names
          /\ exists rc,
               In (EvCreatePlaylist (Syncer.or_name target (info_name info))
                                    (description_of info) rc) evs).
Proof.
  intros Hbuilt Hinfo Htracks Hpadded.
  destruct (sync_tracks_spec (Ug_client.UltimateGuitarClient pw) config info
              tracks (Syncer.or_name target (info_name info))
              {| Syncer.trace := h2; Syncer.client := Syncer.client w;
                 Syncer.spotify_client := true |})
    as (evs & r & s' & Hwith & Hrun).
  pose proof (extends_sync_tracks (Ug_client.UltimateGuitarClient pw) config
                info tracks (Syncer.or_name target (info_name info)))
    as Hext.
  destruct (Hext _ _ _ Hrun) as (evs' & Htrace & Hjust).
  cbn [Syncer.trace] in Htrace. apply app_inv_head in Htrace. subst evs'.
  exists evs, (bool_of r), s'. split.
  - rewrite sync_playlist_built by exact Hbuilt.
    unfold try_except, bind, Syncer.spotify, built.
    cbn [Syncer.trace Syncer.client Syncer.spotify_client].
    rewrite Hinfo. cbn [Syncer.trace Syncer.client Syncer.spotify_client].
    rewrite Htracks. rewrite Hrun. destruct r; reflexivity.
  - intros names Hin.
    assert (Hout : ~ In (Syncer.or_name target (info_name info)) names).
    { intros Hyes.
      rewrite Forall_forall in Hjust. apply Hjust in Hin.
      destruct Hin as [s Hs]. simpl in Hs.
      apply get_existing_playlists_stripped in Hs.
      rewrite Forall_forall in Hs. apply Hpadded, Hs, Hyes. }
    split; [exact Hout|].
    eapply with_run_lists_then_creates; eassumption.
Qed.

Lemma sync_playlist_padded_target_is_created_again_witness :
  exists evs b s',
    Syncer.sync_playlist Examples.sp_two_pages
      (Ug_client.UltimateGuitarClient Examples.pw_site)
      Examples.config0 2 (Some "Rock ") (Examples.start Examples.fresh)
    = Some (Ret b, {| Syncer.trace :=
                        [EvPlaylist "p" (Ret Examples.road_trip);
                         EvPlaylistTracks "p" (Ret Examples.page1);
                         EvNext
                           "https://api.spotify.com/v1/playlists/p/tracks?offset=3"
                           (Ret Examples.page2)] ++ evs;
                      Syncer.client := s';
                      Syncer.spotify_client := true |})
    /\ exists rc,
         In (EvCreatePlaylist "Rock "
               "Synced from Spotify playlist: Road Trip" rc) evs.
Proof.
  destruct (@sync_playlist_padded_target_is_created_again
              Examples.sp_two_pages Examples.pw_site Examples.config0 2
              (Some "Rock ") (Examples.start Examples.fresh)
              Examples.road_trip_info _ Examples.three_songs _
              eq_refl eq_refl eq_refl)
    as (evs & b & s' & Hrun & Hcreate).
  - unfold stripped. vm_compute. discriminate.
  - exists evs, b, s'. split; [exact Hrun|].
    apply (Hcreate ["Rock"]).
    vm_compute in Hrun. injection Hrun as _ <- _. simpl. tauto.
Defined.

(** X18.  [sync_playlist] works on what [preview_sync] shows: started from
    the same state, when the preview returns a playlist and its tracks, the
    run returns and its calls to [search_and_add_song] are either none (the
    run stopped before the loop) or one per previewed track, in order,
    with the previewed name and artist. *)
Theorem sync_playlist_attempts_the_previewed_tracks
  (session : Type) (sp : Spotipy)
  (UltimateGuitarClient : string -> string -> bool -> UGClient session)
  (config : Syncer.Config) (fuel : nat) (target : option string)
  (w w1 : @Syncer.World session) info tracks :
  Syncer.preview_sync sp config fuel w
    = Some (Ret (Syncer.Info info, tracks), w1) ->
  exists evs b s',
    Syncer.sync_playlist sp UltimateGuitarClient config fuel target w
    = Some (Ret b, {| Syncer.trace := Syncer.trace w1 ++ evs;
                      Syncer.client := s';
                      Syncer.spotify_client := true |})
    /\ (attach_calls evs = []
        \/ attach_calls evs
           = map (fun track =>
                    (name track, artist track,
                     Syncer.or_name target (info_name info)))
                 tracks).
Proof.
  intros Hpreview.
  destruct (preview_sync_inv _ _ _ _ Hpreview)
    as (Hbuilt & h1 & Hinfo & Htracks & _).
  destruct (sync_playlist_run sp UltimateGuitarClient config fuel target w
              Hbuilt Hinfo Htracks)
    as (evs & r & s' & Hwith & Hsync).
  exists evs, (bool_of r), s'. split; [exact Hsync|].
  exact (with_run_attach_calls Hwith).
Qed.

Lemma sync_playlist_attempts_the_previewed_tracks_witness :
  exists evs b s',
    Syncer.sync_playlist Examples.sp_two_pages
      (fun _ _ _ => Examples.ug_mock [] Examples.attach_script)
      Examples.config0 2 None (Examples.start tt)
    = Some (Ret b, {| Syncer.trace :=
                        [EvPlaylist "p" (Ret Examples.road_trip);
                         EvPlaylistTracks "p" (Ret Examples.page1);
                         EvNext
                           "https://api.spotify.com/v1/playlists/p/tracks?offset=3"
                           (Ret Examples.page2)] ++ evs;
                      Syncer.client := s';
                      Syncer.spotify_client := true |})
    /\ (attach_calls evs = []
        \/ attach_calls evs
           = [("Song A", "Artist X", "Road Trip");
              ("Song B", "Artist Y", "Road Trip");
              ("Song C", "Artist Z", "Road Trip")]).
Proof.
  exact (@sync_playlist_attempts_the_previewed_tracks unit
           Examples.sp_two_pages
           (fun _ _ _ => Examples.ug_mock [] Examples.attach_script)
           Examples.config0 2 None (Examples.start tt) _
           Examples.road_trip_info Examples.three_songs eq_refl).
Defined.

(** ** config.py *)

Lemma for_fields_missing fields : forall missing,
  Config_py.for_fields fields missing
  = missing
    ++ map fst (filter (fun f => negb (truthy_opt (snd f))) fields).
Proof.
  induction fields as [|[field_name field_value] rest IH]; intros missing;
    simpl.
  - now rewrite app_nil_r.
  - destruct (truthy_opt field_value); simpl.
    + apply IH.
    + rewrite IH, <- app_assoc. reflexivity.
Qed.

(** X19.  [validate] accepts a configuration exactly when the five required
    values are all present and not empty; the names it collects as missing
    are those of the absent or empty ones, in the order of the list.  The
    redirect URI and the headless flag play no part. *)
Theorem validate_requires_the_five_values (c : Config_py.Config) :
  Config_py.for_fields (Config_py.required_fields c) []
  = map fst (filter (fun f => negb (truthy_opt (snd f)))
                    (Config_py.required_fields c))
  /\ (Config_py.validate c = true <->
      truthy_opt (Config_py.spotify_client_id c) = true
      /\ truthy_opt (Config_py.spotify_client_secret c) = true
      /\ truthy_opt (Config_py.spotify_playlist_id c) = true
      /\ truthy_opt (Config_py.ug_username c) = true
      /\ truthy_opt (Config_py.ug_password c) = true).
Proof.
  split; [apply for_fields_missing|].
  unfold Config_py.validate. rewrite for_fields_missing.
  unfold Config_py.required_fields. simpl.
  destruct (truthy_opt (Config_py.spotify_client_id c));
    destruct (truthy_opt (Config_py.spotify_client_secret c));
    destruct (truthy_opt (Config_py.spotify_playlist_id c));
    destruct (truthy_opt (Config_py.ug_username c));
    destruct (truthy_opt (Config_py.ug_password c)); simpl;
    split; try tauto; try discriminate;
    intros (H1 & H2 & H3 & H4 & H5); discriminate.
Qed.

Lemma validate_requires_the_five_values_witness :
  Config_py.validate (Config_py.init Config_examples.test_env) = true
  /\ Config_py.validate (Config_py.init Config_examples.empty_env) = false.
Proof.
  split.
  - apply (proj2 (validate_requires_the_five_values
                    (Config_py.init Config_examples.test_env))).
    repeat split.
  - destruct (Config_py.validate (Config_py.init Config_examples.empty_env))
      eqn:Hv; [|reflexivity].
    apply (proj2 (validate_requires_the_five_values
                    (Config_py.init Config_examples.empty_env))) in Hv.
    destruct Hv as [Hid _]. discriminate Hid.
Defined.

Ltac ascii_cases c :=
  destruct c as [[] [] [] [] [] [] [] []]; vm_compute;
  (split; [intros H; try discriminate H; auto
          |intros [H|H]; try discriminate H; reflexivity]).

Lemma lower_char_t c :
  Config_py.lower_char c = "t"%char <-> (c = "t" \/ c = "T")%char.
Proof. ascii_cases c. Qed.

Lemma lower_char_r c :
  Config_py.lower_char c = "r"%char <-> (c = "r" \/ c = "R")%char.
Proof. ascii_cases c. Qed.

Lemma lower_char_u c :
  Config_py.lower_char c = "u"%char <-> (c = "u" \/ c = "U")%char.
Proof. ascii_cases c. Qed.

Lemma lower_char_e c :
  Config_py.lower_char c = "e"%char <-> (c = "e" \/ c = "E")%char.
Proof. ascii_cases c. Qed.

Lemma lower_true v : Config_py.lower v = "true" <-> spells_true v.
Proof.
  unfold spells_true. split.
  - destruct v as [|a [|b [|c [|d [|x v]]]]]; simpl; try discriminate.
    intros [= Ha Hb Hc Hd]. exists a, b, c, d.
    split; [reflexivity|].
    rewrite <- lower_char_t, <- lower_char_r, <- lower_char_u,
      <- lower_char_e. auto.
  - intros (a & b & c & d & -> & Ha & Hb & Hc & Hd). simpl.
    apply lower_char_t in Ha. apply lower_char_r in Hb.
    apply lower_char_u in Hc. apply lower_char_e in Hd.
    now rewrite Ha, Hb, Hc, Hd.
Qed.

(** X20.  The browser is headless by default, and otherwise only for the
    sixteen spellings of "true": any other value of [HEADLESS_BROWSER]
    ("1", "yes", the empty string, "true" with a blank) gives a visible
    browser. *)
Theorem headless_only_for_true (env : Config_py.Environ) :
  Config_py.headless_browser (Config_py.init env) = true
  <-> env "HEADLESS_BROWSER" = None
      \/ exists v, env "HEADLESS_BROWSER" = Some v /\ spells_true v.
Proof.
  unfold Config_py.init, Config_py.getenv_default. simpl.
  destruct (env "HEADLESS_BROWSER") as [v|].
  - rewrite String.eqb_eq, lower_true. split.
    + intros Hv. right. exists v. split; [reflexivity|exact Hv].
    + intros [H|(v' & [= <-] & Hv)]; [discriminate H|exact Hv].
  - split; [now left|reflexivity].
Qed.

Lemma headless_only_for_true_witness :
  Config_py.headless_browser
    (Config_py.init (fun key => if String.eqb key "HEADLESS_BROWSER"
                                then Some "TrUe" else None)) = true.
Proof.
  apply (proj2 (headless_only_for_true
                  (fun key => if String.eqb key "HEADLESS_BROWSER"
                              then Some "TrUe" else None))).
  right. exists "TrUe". split; [reflexivity|].
  exists "T"%char, "r"%char, "U"%char, "e"%char. tauto.
Defined.

(** ** main.py *)

Section MainFacts.

Context {session : Type}.
Variable sp : Spotipy.
Variable UltimateGuitarClient : string -> string -> bool -> UGClient session.
Variable environ : option string -> Config_py.Environ.
Variable setup_logging : Config_py.Environ -> result unit.


(** X21.  Once the command line is parsed, [main] gives up with [1] before
    anything is done when no action is requested, when the logging cannot be
    set up, or when the configuration is not valid: no request is sent and
    the client is not touched. *)
Theorem main_refuses_without_effect (fuel : nat) (args : Main.Args)
  (w : @Syncer.World session) :
  (Main.sync args = false /\ Main.preview args = false)
  \/ is_raise (setup_logging (environ (Main.config args))) = true
  \/ Config_py.validate (Main.load environ args) = false ->
  Main.main sp UltimateGuitarClient environ setup_logging fuel
    (Main.Namespace args) w
  = Some (Ret (Main.Returned (Some 1%Z)), w).
Proof.
  unfold Main.main, try_except, bind, ret.
  intros [[-> ->]|[Hlog|Hvalid]]; [reflexivity| |].
  - destruct (negb (Main.sync args) && negb (Main.preview args));
      [reflexivity|].
    destruct (setup_logging (environ (Main.config args)));
      [discriminate Hlog|reflexivity].
  - destruct (negb (Main.sync args) && negb (Main.preview args));
      [reflexivity|].
    rewrite Hvalid. simpl.
    destruct (setup_logging (environ (Main.config args))); reflexivity.
Qed.


(** X23.  In sync mode [main] never raises and returns [0] or [1]: [0]
    exactly when [sync_playlist], called on a new syncer, returned
    [True]. *)
Theorem main_sync_exit_code (fuel : nat) (args : Main.Args)
  (w w' : @Syncer.World session) (r : result Main.Ending) :
  Main.sync args = true ->
  Main.preview args = false ->
  setup_logging (environ (Main.config args)) = Ret tt ->
  Config_py.validate (Main.load environ args) = true ->
  Main.main sp UltimateGuitarClient environ setup_logging fuel
    (Main.Namespace args) w = Some (r, w') ->
  exists success,
    Syncer.sync_playlist sp UltimateGuitarClient
      (Main.syncer_config (Main.load environ args)) fuel (Main.name args)
      (Syncer.new_syncer w)
    = Some (Ret success, w')
    /\ r = Ret (Main.Returned (Some (if success then 0%Z else 1%Z))).
Proof.
  intros Hsync Hpreview Hlog Hvalid.
  unfold Main.main, try_except, bind, ret.
  rewrite Hsync, Hpreview, Hlog, Hvalid. simpl.
  destruct (Syncer.sync_playlist sp UltimateGuitarClient
              (Main.syncer_config (Main.load environ args)) fuel
              (Main.name args) (Syncer.new_syncer w))
    as [[[success|e] w1]|] eqn:Hrun; [| |discriminate].
  - intros Hmain. exists success.
    destruct success; injection Hmain as <- <-; split; reflexivity.
  - exfalso. revert Hrun. unfold Syncer.sync_playlist.
    apply (try_except_ret_never_raises _ (fun _ => false)).
Qed.

(** X24.  Whatever argparse makes of the command line, and whatever the
    environment, the source and the target do, a call of [main] that ends
    raises no exception of its own.  When the command line is accepted
    [main] returns and the exit status is [0] or [1]; when argparse ends
    the program instead, nothing else is done and the exit status is the
    one of its [SystemExit]. *)
Theorem main_exit_status (fuel : nat) (parse_args : Main.Parsed)
  (w w' : @Syncer.World session) (r : result Main.Ending) :
  Main.main sp UltimateGuitarClient environ setup_logging fuel parse_args w
    = Some (r, w') ->
  exists ending,
    r = Ret ending
    /\ match parse_args with
       | Main.Namespace _ =>
           (exists value, ending = Main.Returned value)
           /\ (Main.exit_code ending = 0%Z \/ Main.exit_code ending = 1%Z)
       | Main.ParseExit status =>
           ending = Main.SystemExit status
           /\ Main.exit_code ending = status /\ w' = w
       end.
Proof.
  unfold Main.main. destruct parse_args as [args|status].
  2:{ intros [= <- <-]. eexists. split; [reflexivity|]. repeat split. }
  assert (Hone : (exists value,
                    Main.Returned (Some 1%Z) = Main.Returned value)
                 /\ (Main.exit_code (Main.Returned (Some 1%Z)) = 0%Z
                     \/ Main.exit_code (Main.Returned (Some 1%Z)) = 1%Z)).
  { split; [eauto|now right]. }
  assert (Hzero : (exists value,
                     Main.Returned (Some 0%Z) = Main.Returned value)
                  /\ (Main.exit_code (Main.Returned (Some 0%Z)) = 0%Z
                      \/ Main.exit_code (Main.Returned (Some 0%Z)) = 1%Z)).
  { split; [eauto|now left]. }
  assert (Hnone : (exists value, Main.Returned None = Main.Returned value)
                  /\ (Main.exit_code (Main.Returned None) = 0%Z
                      \/ Main.exit_code (Main.Returned None) = 1%Z)).
  { split; [eauto|now left]. }
  destruct (negb (Main.sync args) && negb (Main.preview args)).
  { intros [= <- <-]. eexists. split; [reflexivity|exact Hone]. }
  unfold try_except.
  match goal with
  | |- match ?body w with _ => _ end = _ -> _ =>
      destruct (body w) as [[[ending|e] w1]|] eqn:Hbody
  end; [| |discriminate].
  - intros [= <- <-]. exists ending. split; [reflexivity|].
    revert Hbody. unfold bind, ret.
    destruct (setup_logging (environ (Main.config args)));
      [|discriminate].
    destruct (negb (Config_py.validate (Main.load environ args))).
    { intros [= <- _]. exact Hone. }
    destruct (Main.preview args).
    + destruct (Syncer.preview_sync _ _ _ _) as [[[pair|?] ?]|];
        try discriminate.
      destruct (Main.shown (fst pair) (snd pair)); intros [= <- _];
        [exact Hnone|exact Hone].
    + destruct (Main.sync args); [|intros [= <- _]; exact Hnone].
      destruct (Syncer.sync_playlist _ _ _ _ _ _) as [[[[|]|?] ?]|];
        try discriminate; intros [= <- _]; [exact Hzero|exact Hone].
  - intros [= <- <-]. eexists. split; [reflexivity|exact Hone].
Qed.

End MainFacts.

Lemma main_refuses_without_effect_witness :
  Main.main Examples.sp_two_pages
    (Ug_client.UltimateGuitarClient Examples.pw_site)
    (fun _ => Config_examples.empty_env) (fun _ => Ret tt) 2
    (Main.Namespace Config_examples.sync_args)
    (Examples.start Examples.fresh)
  = Some (Ret (Main.Returned (Some 1%Z)), Examples.start Examples.fresh)
  /\ Main.main Examples.sp_two_pages
       (Ug_client.UltimateGuitarClient Examples.pw_site)
       (fun _ => Config_examples.test_env) (fun _ => Ret tt) 2
       (Main.Namespace Config_examples.no_args)
       (Examples.start Examples.fresh)
     = Some (Ret (Main.Returned (Some 1%Z)), Examples.start Examples.fresh).
Proof.
  split.
  - apply main_refuses_without_effect. right. right. reflexivity.
  - apply main_refuses_without_effect. left. split; reflexivity.
Defined.


Lemma main_sync_exit_code_witness :
  exists w',
    Syncer.sync_playlist Examples.sp_two_pages
      (Ug_client.UltimateGuitarClient Examples.pw_site)
      (Main.syncer_config
         (Main.load (fun _ => Config_examples.test_env)
                    Config_examples.sync_args))
      2 None (Syncer.new_syncer (Examples.start Examples.fresh))
    = Some (Ret true, w').
Proof.
  destruct (Main.main Examples.sp_two_pages
              (Ug_client.UltimateGuitarClient Examples.pw_site)
              (fun _ => Config_examples.test_env) (fun _ => Ret tt) 2
              (Main.Namespace Config_examples.sync_args)
              (Examples.start Examples.fresh))
    as [[r w']|] eqn:Hmain; [|vm_compute in Hmain; discriminate Hmain].
  destruct (@main_sync_exit_code _ Examples.sp_two_pages
              (Ug_client.UltimateGuitarClient Examples.pw_site)
              (fun _ => Config_examples.test_env) (fun _ => Ret tt) 2
              Config_examples.sync_args (Examples.start Examples.fresh)
              w' r eq_refl eq_refl eq_refl eq_refl Hmain)
    as (success & Hrun & Hr).
  exists w'. transitivity (Some (Ret success, w')); [exact Hrun|].
  do 3 f_equal.
  vm_compute in Hmain. injection Hmain as Hr' _. rewrite <- Hr' in Hr.
  destruct success; [reflexivity|discriminate Hr].
Defined.

Lemma main_exit_status_witness :
  (exists ending,
     Ret (Main.Returned (Some 1%Z)) = Ret ending
     /\ (exists value, ending = Main.Returned value)
     /\ (Main.exit_code ending = 0%Z \/ Main.exit_code ending = 1%Z))
  /\ (exists ending,
        Ret (Main.SystemExit 2) = Ret ending
        /\ ending = Main.SystemExit 2
        /\ Main.exit_code ending = 2%Z
        /\ Examples.start tt = Examples.start tt).
Proof.
  split.
  - exact (@main_exit_status unit Examples.sp_down
             (fun _ _ _ => Examples.ug_mock [] Examples.attach_script)
             (fun _ => Config_examples.test_env) (fun _ => Ret tt) 2
             (Main.Namespace Config_examples.sync_args) (Examples.start tt)
             _ _ eq_refl).
  - exact (@main_exit_status unit Examples.sp_down
             (fun _ _ _ => Examples.ug_mock [] Examples.attach_script)
             (fun _ => Config_examples.test_env) (fun _ => Ret tt) 2
             (Main.ParseExit 2) (Examples.start tt) _ _ eq_refl).
Defined.

(** X25.  The text [Config.__str__] gives for the debug log tells whether a
    secret is set and nothing more: two configurations that differ only in
    the values of the client id, the client secret and the password, and in
    the redirect URI, have the same text. *)
Theorem config_text_hides_secrets (log_level : string)
  (c1 c2 : Config_py.Config) :
  same_but_secrets c1 c2 ->
  Config_str.to_str log_level c1 = Config_str.to_str log_level c2.
Proof.
  intros (Hid & Huser & Hhead & Hcid & Hsecret & Hpass).
  unfold Config_str.to_str, Config_str.masked.
  now rewrite Hid, Huser, Hhead, Hcid, Hsecret, Hpass.
Qed.

Lemma config_text_hides_secrets_witness :
  Config_str.to_str "INFO" (Config_py.init Config_examples.test_env)
  = Config_str.to_str "INFO"
      (Config_py.init
         (fun key => if String.eqb key "UG_PASSWORD" then Some "hunter2"
                     else Config_examples.test_env key)).
Proof.
  apply config_text_hides_secrets. repeat split.
Defined.

(** ** One browser per run *)

Section PageWork.

Import Ug_client.

Variable pw : Playwright.

Lemma same_attributes_refl s : same_attributes s s.
Proof. repeat split. Qed.

Lemma same_attributes_trans s1 s2 s3 :
  same_attributes s1 s2 -> same_attributes s2 s3 -> same_attributes s1 s3.
Proof.
  unfold same_attributes. intros (H1 & H2 & H3) (H4 & H5 & H6).
  rewrite H4, H5, H6. auto.
Qed.

Lemma page_work_ret {A} (a : A) : page_work (aret a).
Proof.
  intros s. exists []. simpl. rewrite app_nil_r.
  split; [reflexivity|]. split; [reflexivity|apply same_attributes_refl].
Qed.

Lemma page_work_bind {A B} (m : Act Client A) (k : A -> Act Client B) :
  page_work m -> (forall a, page_work (k a)) -> page_work (abind m k).
Proof.
  intros Hm Hk s. unfold abind.
  destruct (Hm s) as (new1 & Hc1 & Hn1 & Ha1).
  destruct (m s) as [[a|e] s1]; simpl in *.
  - destruct (Hk a s1) as (new2 & Hc2 & Hn2 & Ha2).
    exists (new1 ++ new2). rewrite Hc2, Hc1, app_assoc.
    split; [reflexivity|]. split.
    + now rewrite existsb_app, Hn1, Hn2.
    + eapply same_attributes_trans; eassumption.
  - exists new1. auto.
Qed.

Lemma page_work_try {A} (m : Act Client A) (h : exn -> Act Client A) :
  page_work m -> (forall e, page_work (h e)) -> page_work (atry_except m h).
Proof.
  intros Hm Hh s. unfold atry_except.
  destruct (Hm s) as (new1 & Hc1 & Hn1 & Ha1).
  destruct (m s) as [[a|e] s1]; simpl in *.
  - exists new1. auto.
  - destruct (Hh e s1) as (new2 & Hc2 & Hn2 & Ha2).
    exists (new1 ++ new2). rewrite Hc2, Hc1, app_assoc.
    split; [reflexivity|]. split.
    + now rewrite existsb_app, Hn1, Hn2.
    + eapply same_attributes_trans; eassumption.
Qed.

Lemma page_work_step {A} (c : Call) (answer : list Call -> result A) :
  is_session_call c = false ->
  page_work (fun s => (answer (calls s), record c s)).
Proof.
  intros Hc s. exists [c]. simpl. rewrite Hc.
  split; [reflexivity|]. split; [reflexivity|repeat split].
Qed.

Lemma page_work_on_page {A} (m : Act Client A) :
  page_work m -> page_work (on_page m).
Proof.
  intros Hm s. unfold on_page. destruct (page s); [apply Hm|].
  exists []. simpl. rewrite app_nil_r.
  split; [reflexivity|]. split; [reflexivity|apply same_attributes_refl].
Qed.

Ltac page_steps :=
  repeat first
    [ apply page_work_ret
    | apply page_work_try; [|intros ?]
    | apply page_work_bind; [|intros ?]
    | apply page_work_on_page
    | apply (page_work_step _ (fun h => pw_do pw h _)); reflexivity
    | apply (page_work_step _ (fun h => pw_query_selector pw h _));
      reflexivity
    | apply (page_work_step _ (fun h => pw_query_selector_all pw h _));
      reflexivity
    | apply (page_work_step _ (fun h => pw_text_content pw h _));
      reflexivity
    | match goal with
      | |- page_work (match ?x with _ => _ end) => destruct x
      | |- page_work (if ?x then _ else _) => destruct x
      end ].

Lemma page_work_login username password :
  page_work (login pw username password).
Proof.
  unfold login, goto, wait_for_selector, fill, click, query_selector,
    text_content, perform.
  page_steps.
Qed.

Lemma page_work_create_playlist playlist_name description :
  page_work (create_playlist pw playlist_name description).
Proof.
  unfold create_playlist, goto, wait_for_selector, fill, click,
    wait_for_timeout, query_selector, element_click, element_fill, perform.
  page_steps.
Qed.

Lemma page_work_search_and_add_song song_name artist_name playlist_name :
  page_work (search_and_add_song pw song_name artist_name playlist_name).
Proof.
  unfold search_and_add_song, goto, wait_for_selector, wait_for_timeout,
    query_selector, element_click, perform.
  page_steps.
Qed.

Lemma page_work_for_elements els : forall playlists,
  page_work (for_elements pw els playlists).
Proof.
  induction els as [|el els IH]; intros playlists; simpl.
  - apply page_work_ret.
  - apply page_work_bind.
    + unfold text_content.
      apply (page_work_step _ (fun h => pw_text_content pw h el)).
      reflexivity.
    + intros [t|]; [destruct (truthy t)|]; apply IH.
Qed.

Lemma page_work_get_existing_playlists :
  page_work (get_existing_playlists pw).
Proof.
  unfold get_existing_playlists, goto, wait_for_selector, query_selector_all,
    perform.
  apply page_work_try; [|intros; apply page_work_ret].
  apply page_work_bind; [page_steps|intros ?].
  apply page_work_bind; [page_steps|intros ?].
  apply page_work_bind; [page_steps|intros ?].
  apply page_work_for_elements.
Qed.

End PageWork.


Section BrowserWork.

Variable pw : Ug_client.Playwright.

Lemma browser_work_ret {A} (a : A) : browser_work (ret a).
Proof.
  intros w r w' [= <- <-]. exists []. rewrite app_nil_r.
  split; [reflexivity|]. split; [reflexivity|apply same_attributes_refl].
Qed.

Lemma browser_work_sleep n : browser_work (Syncer.sleep n).
Proof.
  intros w r w' [= <- <-]. exists []. simpl. rewrite app_nil_r.
  split; [reflexivity|]. split; [reflexivity|apply same_attributes_refl].
Qed.

Lemma browser_work_call {A} (ev : result A -> Event)
  (m : Act Ug_client.Client A) :
  page_work m -> browser_work (Syncer.call ev m).
Proof.
  intros Hm w r w'. unfold Syncer.call.
  specialize (Hm (Syncer.client w)).
  destruct (m (Syncer.client w)) as [r0 s]. intros [= <- <-]. exact Hm.
Qed.

Lemma browser_work_bind {A B} (m : Comp Syncer.World A)
  (k : A -> Comp Syncer.World B) :
  browser_work m -> (forall a, browser_work (k a)) ->
  browser_work (bind m k).
Proof.
  intros Hm Hk w r w'. unfold bind.
  destruct (m w) as [[[a|e] w1]|] eqn:Hrun; [| |discriminate].
  - intros Hrest. destruct (Hm _ _ _ Hrun) as (new1 & Hc1 & Hn1 & Ha1).
    destruct (Hk a _ _ _ Hrest) as (new2 & Hc2 & Hn2 & Ha2).
    exists (new1 ++ new2). rewrite Hc2, Hc1, app_assoc.
    split; [reflexivity|]. split.
    + now rewrite existsb_app, Hn1, Hn2.
    + eapply same_attributes_trans; eassumption.
  - intros [= <- <-]. exact (Hm _ _ _ Hrun).
Qed.

Lemma browser_work_try {A} (m : Comp Syncer.World A)
  (h : exn -> Comp Syncer.World A) :
  browser_work m -> (forall e, browser_work (h e)) ->
  browser_work (try_except m h).
Proof.
  intros Hm Hh w r w'. unfold try_except.
  destruct (m w) as [[[a|e] w1]|] eqn:Hrun; [| |discriminate].
  - intros [= <- <-]. exact (Hm _ _ _ Hrun).
  - intros Hrest. destruct (Hm _ _ _ Hrun) as (new1 & Hc1 & Hn1 & Ha1).
    destruct (Hh e _ _ _ Hrest) as (new2 & Hc2 & Hn2 & Ha2).
    exists (new1 ++ new2). rewrite Hc2, Hc1, app_assoc.
    split; [reflexivity|]. split.
    + now rewrite existsb_app, Hn1, Hn2.
    + eapply same_attributes_trans; eassumption.
Qed.

Variables (username password : string) (headless : bool).

Let ug := Ug_client.UltimateGuitarClient pw username password headless.

Lemma browser_work_attach_loop pl tracks : forall counters,
  browser_work (Syncer.attach_loop ug pl tracks counters).
Proof.
  induction tracks as [|track rest IH]; intros counters; simpl.
  - apply browser_work_ret.
  - apply browser_work_bind; [|intros; apply IH].
    unfold Syncer.attach. destruct counters as [s f].
    apply browser_work_try; [|intros; apply browser_work_ret].
    apply browser_work_bind.
    + apply browser_work_call. apply page_work_search_and_add_song.
    + intros success. apply browser_work_bind; [apply browser_work_sleep|].
      intros _. apply browser_work_ret.
Qed.

Lemma start_browser_shape (s : Ug_client.Client) :
  match Ug_client.start_browser pw headless s with
  | (Ret _, s') =>
      Ug_client.calls s'
      = Ug_client.calls s
          ++ [Ug_client.PlaywrightStart; Ug_client.ChromiumLaunch headless;
              Ug_client.NewPage]
      /\ Ug_client.playwright s' = true /\ Ug_client.browser s' = true
  | (Raise _, s') =>
      exists started,
        Ug_client.calls s' = Ug_client.calls s ++ started
        /\ start_calls headless started
  end.
Proof.
  unfold Ug_client.start_browser, atry_except, abind, araise,
    Ug_client.perform, Ug_client.set_playwright, Ug_client.set_browser,
    Ug_client.set_page, start_calls.
  destruct s as [pl br pg h]. simpl.
  destruct (Ug_client.pw_do pw h Ug_client.PlaywrightStart) as [[]|e1];
    simpl; [|eexists; split; [reflexivity|auto]].
  destruct (Ug_client.pw_do pw (h ++ [Ug_client.PlaywrightStart])
              (Ug_client.ChromiumLaunch headless)) as [[]|e2]; simpl;
    rewrite <- ?app_assoc; simpl;
    [|eexists; split; [reflexivity|auto]].
  destruct (Ug_client.pw_do pw
              (h ++ [Ug_client.PlaywrightStart;
                     Ug_client.ChromiumLaunch headless])
              Ug_client.NewPage) as [[]|e3]; simpl;
    rewrite <- ?app_assoc; simpl.
  - repeat split.
  - eexists; split; [reflexivity|auto].
Qed.

Lemma close_browser_shape (s : Ug_client.Client) :
  Ug_client.playwright s = true -> Ug_client.browser s = true ->
  exists closed,
    Ug_client.calls (snd (Ug_client.close_browser pw s))
    = Ug_client.calls s ++ closed
    /\ (closed = [Ug_client.BrowserClose]
        \/ closed = [Ug_client.BrowserClose; Ug_client.PlaywrightStop]).
Proof.
  unfold Ug_client.close_browser, atry_except, abind, aret,
    Ug_client.perform.
  destruct s as [pl br pg h]. simpl. intros -> ->.
  destruct (Ug_client.pw_do pw h Ug_client.BrowserClose) as [[]|e1]; simpl.
  - destruct (Ug_client.pw_do pw (h ++ [Ug_client.BrowserClose])
                Ug_client.PlaywrightStop) as [[]|e2]; simpl;
      rewrite <- ?app_assoc; simpl; eexists; split; try reflexivity; auto.
  - eexists; split; [reflexivity|auto].
Qed.

Lemma async_with_one_browser {A} (body : Comp Syncer.World A) w r w' :
  browser_work body ->
  Syncer.async_with ug body w = Some (r, w') ->
  one_browser headless (Ug_client.calls (Syncer.client w))
    (Ug_client.calls (Syncer.client w')).
Proof.
  intros Hbody. unfold Syncer.async_with, bind, ret, Syncer.call.
  cbn [Syncer.trace Syncer.client ug Ug_client.UltimateGuitarClient ug_new
       ug_start_browser ug_close_browser].
  pose proof (start_browser_shape (Ug_client.init (Syncer.client w)))
    as Hstart.
  destruct (Ug_client.start_browser pw headless
              (Ug_client.init (Syncer.client w))) as [[[]|e] s1].
  - destruct Hstart as (Hc1 & Hpl & Hbr). simpl in Hc1.
    match goal with
    | |- match body ?w1 with _ => _ end = _ -> _ =>
        destruct (body w1) as [[rb w2]|] eqn:Hrun; [|discriminate];
        destruct (Hbody _ _ _ Hrun) as (middle & Hc2 & Hmid & Hpl2 & Hbr2 & _)
    end.
    cbn [Syncer.client] in Hc2, Hpl2, Hbr2.
    destruct (@close_browser_shape (Syncer.client w2)) as (closed & Hc3 & Hcl);
      [congruence|congruence|].
    destruct (Ug_client.close_browser pw (Syncer.client w2)) as [rc s3].
    simpl in Hc3.
    assert (Hne : closed <> []) by (destruct Hcl as [->| ->]; discriminate).
    assert (Hcalls : Ug_client.calls s3
              = Ug_client.calls (Syncer.client w)
                  ++ [Ug_client.PlaywrightStart;
                      Ug_client.ChromiumLaunch headless; Ug_client.NewPage]
                  ++ middle ++ closed).
    { rewrite Hc3, Hc2, Hc1, <- !app_assoc. reflexivity. }
    assert (Hshape : close_calls closed)
      by (unfold close_calls; destruct Hcl; auto).
    destruct rc as [[]|e]; intros [= <- <-]; cbn [Syncer.client];
      eexists _, middle, closed;
      (split; [exact Hcalls|]);
      (split; [unfold start_calls; auto|]);
      (split; [exact Hmid|]); (split; [exact Hshape|]);
      intros _; (split; [reflexivity|exact Hne]).
  - destruct Hstart as (started & Hc1 & Hst). simpl in Hc1.
    intros [= <- <-]. cbn [Syncer.client].
    exists started, [], []. rewrite app_nil_r.
    split; [exact Hc1|]. split; [exact Hst|]. split; [reflexivity|].
    split; [left; reflexivity|]. intros [H|H]; now elim H.
Qed.

End BrowserWork.

Lemma sync_tracks_one_browser (pw : Ug_client.Playwright)
  (config : Syncer.Config) info tracks pl w r w' :
  Syncer.sync_tracks (Ug_client.UltimateGuitarClient pw) config info tracks pl
    w = Some (r, w') ->
  one_browser (Syncer.headless_browser config)
    (Ug_client.calls (Syncer.client w)) (Ug_client.calls (Syncer.client w')).
Proof.
  unfold Syncer.sync_tracks.
  set (ug := Ug_client.UltimateGuitarClient pw (Syncer.ug_username config)
               (Syncer.ug_password config) (Syncer.headless_browser config)).
  assert (Hadd : browser_work
            (bind (Syncer.attach_loop ug pl tracks (0, 0))
                  (fun counters => ret (0 <? fst counters)))).
  { apply browser_work_bind; [apply browser_work_attach_loop|].
    intros; apply browser_work_ret. }
  apply async_with_one_browser.
  apply browser_work_bind.
  { apply browser_work_call. apply page_work_login. }
  intros [|]; simpl; [|apply browser_work_ret].
  apply browser_work_bind.
  { apply browser_work_call. apply page_work_get_existing_playlists. }
  intros names. destruct (negb (str_in pl names)); [|exact Hadd].
  apply browser_work_bind.
  { apply browser_work_call. apply page_work_create_playlist. }
  intros [|]; simpl; [exact Hadd|apply browser_work_ret].
Qed.

Lemma one_browser_none headless h : one_browser headless h h.
Proof.
  exists [], [], []. simpl. rewrite app_nil_r.
  split; [reflexivity|]. split; [left; reflexivity|].
  split; [reflexivity|]. split; [left; reflexivity|].
  intros [H|H]; now elim H.
Qed.

(** X26.  A run of [sync_playlist] with [UltimateGuitarClient] uses one
    browser at most, whatever Spotify and the site answer.  The calls it
    adds are a start (Playwright, one launch in the configured headless
    mode, one page) cut at its first failure, then, only when the start was
    complete, calls on the page, none of which starts or closes anything,
    followed by the closing of that browser. *)
Theorem sync_playlist_one_browser
  (sp : Spotipy) (pw : Ug_client.Playwright) (config : Syncer.Config)
  (fuel : nat) (target : option string)
  (w : @Syncer.World Ug_client.Client) r w' :
  Syncer.sync_playlist sp (Ug_client.UltimateGuitarClient pw) config fuel
    target w = Some (r, w') ->
  one_browser (Syncer.headless_browser config)
    (Ug_client.calls (Syncer.client w)) (Ug_client.calls (Syncer.client w')).
Proof.
  destruct (client_built sp config w) eqn:Hbuilt.
  2:{ rewrite sync_playlist_not_built by exact Hbuilt.
      intros [= <- <-]. apply one_browser_none. }
  rewrite sync_playlist_built by exact Hbuilt.
  unfold try_except, bind, ret, Syncer.spotify, built.
  cbn [Syncer.trace Syncer.client Syncer.spotify_client].
  destruct (get_playlist_info sp (Syncer.spotify_playlist_id config)
              (Syncer.trace w)) as [[[info|e] h1]|];
    [| intros [= <- <-]; apply one_browser_none | discriminate].
  cbn [Syncer.trace Syncer.client Syncer.spotify_client].
  destruct (get_playlist_tracks sp fuel (Syncer.spotify_playlist_id config)
              h1) as [[[tracks|e] h2]|];
    [| intros [= <- <-]; apply one_browser_none | discriminate].
  match goal with
  | |- match ?m ?w2 with _ => _ end = _ -> _ =>
      destruct (m w2) as [[[b|e] w3]|] eqn:Hrun; [| |discriminate]
  end;
    intros [= <- <-];
    exact (@sync_tracks_one_browser pw config _ _ _ _ _ _ Hrun).
Qed.

Lemma sync_playlist_one_browser_witness :
  exists r w',
    Syncer.sync_playlist Examples.sp_two_pages
      (Ug_client.UltimateGuitarClient Examples.pw_site)
      Examples.config0 2 None (Examples.start Examples.fresh)
    = Some (r, w')
    /\ one_browser true (Ug_client.calls Examples.fresh)
         (Ug_client.calls (Syncer.client w')).
Proof.
  destruct (Syncer.sync_playlist Examples.sp_two_pages
              (Ug_client.UltimateGuitarClient Examples.pw_site)
              Examples.config0 2 None (Examples.start Examples.fresh))
    as [[r w']|] eqn:Hrun.
  - exists r, w'. split; [reflexivity|].
    exact (@sync_playlist_one_browser _ _ _ _ _ _ _ _ Hrun).
  - vm_compute in Hrun. discriminate Hrun.
Defined.
